(** * Adaptive quality controller of the conferencing client

    A shallow embedding of the network-adaptation and active-speaker logic of
    the client script (the variant with the AUDIO_ONLY fallback, the
    remote-inbound loss sources and the staged recovery): [analyzeStats],
    [monitorNetworkQuality], [adaptToNetworkConditions],
    [adjustVideoQualityForAllPeers], [adjustVideoQuality], the adaptive-mode
    toggle and [updateActiveSpeaker].

    Numbers.  Timestamps ([Date.now()]) and the cumulative RTP counters are
    integers ([Z]).  Values derived by division (loss percentages, round-trip
    times, audio levels) are exact rationals ([Q]); every division that
    produces them is guarded by the source against a zero divisor.  The two
    bitrates are the only values divided by an unguarded quantity (the time
    delta), so they live in [num], the rationals extended with the IEEE
    specials a division by zero produces.  Rounding of doubles is not
    modelled. *)

From Stdlib Require Import ZArith QArith Qminmax Lqa Lia List String Bool.
Import ListNotations.
Open Scope string_scope.
Open Scope list_scope.
Open Scope Q_scope.

(** ** JavaScript numbers *)

Module Js.

Definition ltb (a b : Q) : bool := negb (Qle_bool b a).
Definition gtb (a b : Q) : bool := ltb b a.
Definition leb (a b : Q) : bool := Qle_bool a b.
Definition geb (a b : Q) : bool := Qle_bool b a.

(** [Math.max] and [Math.min] on finite numbers. *)
Definition Math_max (a b : Q) : Q := if Qle_bool a b then b else a.
Definition Math_min (a b : Q) : Q := if Qle_bool a b then a else b.

(** A double that may be the result of a division by zero. *)
Inductive num : Type :=
| Fin (q : Q)
| PInf
| NInf
| NaN.

(** [a / b] on finite operands: [x/0] is [Infinity], [-Infinity] or [NaN]. *)
Definition div (a b : Q) : num :=
  if Qeq_bool b 0 then
    match a ?= 0 with
    | Eq => NaN
    | Lt => NInf
    | Gt => PInf
    end
  else Fin (a / b).

Definition add (a b : num) : num :=
  match a, b with
  | NaN, _ | _, NaN => NaN
  | PInf, NInf | NInf, PInf => NaN
  | PInf, _ | _, PInf => PInf
  | NInf, _ | _, NInf => NInf
  | Fin x, Fin y => Fin (x + y)
  end.

(** [a < b] and [a > b] with a finite right operand; false on [NaN]. *)
Definition num_ltb (a : num) (b : Q) : bool :=
  match a with
  | Fin x => ltb x b
  | NInf => true
  | PInf | NaN => false
  end.

Definition num_gtb (a : num) (b : Q) : bool :=
  match a with
  | Fin x => gtb x b
  | PInf => true
  | NInf | NaN => false
  end.

(** [x || 0] on an optional integer field. *)
Definition or0 (x : option Z) : Z :=
  match x with
  | Some v => v
  | None => 0%Z
  end.

(** [x || y] on integer fields: the first truthy operand, else the last. *)
Definition orZ (x : option Z) (y : Z) : Z :=
  match x with
  | Some v => if (v =? 0)%Z then y else v
  | None => y
  end.

(** Truthiness of an optional rational field: present and non-zero. *)
Definition truthyQ (x : option Q) : option Q :=
  match x with
  | Some v => if Qeq_bool v 0 then None else Some v
  | None => None
  end.

(** Insertion-ordered [Map] with string keys. *)
Section JsMap.
Context {V : Type}.

Fixpoint map_get (k : string) (m : list (string * V)) : option V :=
  match m with
  | [] => None
  | (k', v) :: r => if String.eqb k k' then Some v else map_get k r
  end.

Fixpoint map_set (k : string) (v : V) (m : list (string * V)) : list (string * V) :=
  match m with
  | [] => [(k, v)]
  | (k', v') :: r =>
      if String.eqb k k' then (k, v) :: r else (k', v') :: map_set k v r
  end.
End JsMap.

End Js.

Import Js.

(** ** Data model *)

Inductive Quality : Type := AUDIO_ONLY | LOW | MEDIUM | HIGH.

Definition Quality_eqb (a b : Quality) : bool :=
  match a, b with
  | AUDIO_ONLY, AUDIO_ONLY | LOW, LOW | MEDIUM, MEDIUM | HIGH, HIGH => true
  | _, _ => false
  end.

(** Position in the degradation path HIGH -> MEDIUM -> LOW -> AUDIO_ONLY. *)
Definition rank (q : Quality) : nat :=
  match q with
  | AUDIO_ONLY => 0
  | LOW => 1
  | MEDIUM => 2
  | HIGH => 3
  end.

Module BANDWIDTH_THRESHOLDS.
Definition LOW : Q := 150000.
Definition MEDIUM : Q := 500000.
Definition HIGH : Q := 1000000.
End BANDWIDTH_THRESHOLDS.

Definition AUDIO_LEVEL_THRESHOLD : Q := 1 # 100.

Inductive ReportType : Type :=
| outbound_rtp | inbound_rtp | remote_inbound_rtp | candidate_pair | other_report.

Inductive MediaKind : Type := video | audio | no_media.

Definition ReportType_eqb (a b : ReportType) : bool :=
  match a, b with
  | outbound_rtp, outbound_rtp | inbound_rtp, inbound_rtp
  | remote_inbound_rtp, remote_inbound_rtp
  | candidate_pair, candidate_pair | other_report, other_report => true
  | _, _ => false
  end.

Definition MediaKind_eqb (a b : MediaKind) : bool :=
  match a, b with
  | video, video | audio, audio | no_media, no_media => true
  | _, _ => false
  end.

(** One entry of an [RTCStatsReport].  [bytesSent] and [packetsSent] are only
    read on outbound-rtp reports, where they are mandatory counters; the
    fields the source reads through [|| 0] or a truthiness test are optional. *)
Module Report.
Record t : Type := mk {
  type : ReportType;
  mediaType : MediaKind;
  selected : bool;
  bytesSent : Z;
  packetsSent : Z;
  packetsLost : option Z;
  packetsReceived : option Z;
  packetsRecieved : option Z;
  roundTripTime : option Q;
  currentRoundTripTime : option Q;
  jitter : option Q
}.
End Report.

(** The [metrics] object built by [analyzeStats] and kept in [networkStats]. *)
Module Metrics.
Record t : Type := mk {
  timestamp : Z;
  videoBitrate : num;
  audioBitrate : num;
  videoPacketLoss : Q;
  audioPacketLoss : Q;
  rtt : Q;
  jitter : Q;
  quality : Quality;
  outboundVideo : option Report.t;
  outboundAudio : option Report.t;
  remoteInboundVideo : option Report.t;
  remoteInboundAudio : option Report.t
}.
End Metrics.

(** An [RTCRtpSender].  [track] is the kind of the track it carries, if any.
    The outcome of the two calls into the browser that may reject
    ([track.applyConstraints], [sender.setParameters]) is part of the sender:
    [true] means the call for that quality throws. *)
Module Sender.
Record t : Type := mk {
  track : option MediaKind;
  hasEncodings : bool;
  applyConstraints_throws : Quality -> bool;
  setParameters_throws : Quality -> bool
}.
End Sender.

(** A peer connection, as far as the controller looks at it: [getSenders()]. *)
Definition PeerConnection : Type := list Sender.t.

Module AudioLevel.
Record t : Type := mk {
  level : Q;
  timestamp : Z
}.
End AudioLevel.

(** The module-level variables of the script.  [localStream] records whether
    the stream exists.  Every video sender carries the one video track of the
    local stream, so its [enabled] flag is the single [videoTrackEnabled]. *)
Record State : Type := mkState {
  localStream : bool;
  isCameraOff : bool;
  videoTrackEnabled : bool;
  peerConnections : list (string * PeerConnection);
  networkStats : list (string * Metrics.t);
  currentVideoQuality : Quality;
  isAdaptiveMode : bool;
  initialConnectionPhase : bool;
  connectionStartTime : option Z;
  activeSpeaker : option string;
  audioLevels : list (string * AudioLevel.t)
}.

Definition set_networkStats (v : list (string * Metrics.t)) (s : State) : State :=
  mkState (localStream s) (isCameraOff s) (videoTrackEnabled s)
          (peerConnections s) v (currentVideoQuality s) (isAdaptiveMode s)
          (initialConnectionPhase s) (connectionStartTime s) (activeSpeaker s)
          (audioLevels s).

Definition set_currentVideoQuality (v : Quality) (s : State) : State :=
  mkState (localStream s) (isCameraOff s) (videoTrackEnabled s)
          (peerConnections s) (networkStats s) v (isAdaptiveMode s)
          (initialConnectionPhase s) (connectionStartTime s) (activeSpeaker s)
          (audioLevels s).

Definition set_videoTrackEnabled (v : bool) (s : State) : State :=
  mkState (localStream s) (isCameraOff s) v
          (peerConnections s) (networkStats s) (currentVideoQuality s)
          (isAdaptiveMode s) (initialConnectionPhase s)
          (connectionStartTime s) (activeSpeaker s) (audioLevels s).

Definition set_isAdaptiveMode (v : bool) (s : State) : State :=
  mkState (localStream s) (isCameraOff s) (videoTrackEnabled s)
          (peerConnections s) (networkStats s) (currentVideoQuality s) v
          (initialConnectionPhase s) (connectionStartTime s) (activeSpeaker s)
          (audioLevels s).

Definition set_initialConnectionPhase (v : bool) (s : State) : State :=
  mkState (localStream s) (isCameraOff s) (videoTrackEnabled s)
          (peerConnections s) (networkStats s) (currentVideoQuality s)
          (isAdaptiveMode s) v (connectionStartTime s) (activeSpeaker s)
          (audioLevels s).

Definition set_activeSpeaker (v : option string) (s : State) : State :=
  mkState (localStream s) (isCameraOff s) (videoTrackEnabled s)
          (peerConnections s) (networkStats s) (currentVideoQuality s)
          (isAdaptiveMode s) (initialConnectionPhase s)
          (connectionStartTime s) v (audioLevels s).

(** The values of the top-level [let] declarations. *)
Definition initial_state : State :=
  mkState false false true [] [] HIGH true true None None [].

(** ** StatsAnalyzer and QualityClassifier: [analyzeStats] *)

(** The seven reports picked by the [stats.forEach] scan; a later report of
    the same kind replaces an earlier one. *)
Record Picked : Type := mkPicked {
  p_outboundVideo : option Report.t;
  p_outboundAudio : option Report.t;
  p_inboundVideo : option Report.t;
  p_inboundAudio : option Report.t;
  p_candidate : option Report.t;
  p_remoteInboundVideo : option Report.t;
  p_remoteInboundAudio : option Report.t
}.

Definition is_report (ty : ReportType) (k : MediaKind) (r : Report.t) : bool :=
  ReportType_eqb (Report.type r) ty && MediaKind_eqb (Report.mediaType r) k.

Definition pick (p : Picked) (report : Report.t) : Picked :=
  let '(mkPicked ov oa iv ia c rv ra) := p in
  if is_report outbound_rtp video report then mkPicked (Some report) oa iv ia c rv ra
  else if is_report outbound_rtp audio report then mkPicked ov (Some report) iv ia c rv ra
  else if is_report inbound_rtp video report then mkPicked ov oa (Some report) ia c rv ra
  else if is_report inbound_rtp audio report then mkPicked ov oa iv (Some report) c rv ra
  else if is_report remote_inbound_rtp video report then mkPicked ov oa iv ia c (Some report) ra
  else if is_report remote_inbound_rtp audio report then mkPicked ov oa iv ia c rv (Some report)
  else if ReportType_eqb (Report.type report) candidate_pair && Report.selected report
       then mkPicked ov oa iv ia (Some report) rv ra
  else p.

Definition scan (stats : list Report.t) : Picked :=
  fold_left pick stats (mkPicked None None None None None None None).

(** The block "Calculate video metrics" / "Calculate audio metrics": bitrate
    and sender-side loss from the outbound report [cur] and the outbound
    report [sel previousStats] kept from the previous tick.  Without either,
    both values keep their initial 0. *)
Definition outboundBlock (now : Z) (cur : option Report.t)
    (previousStats : option Metrics.t)
    (sel : Metrics.t -> option Report.t) : num * Q :=
  match cur, previousStats with
  | Some o, Some prev =>
      match sel prev with
      | Some po =>
          let timeDelta := inject_Z (now - Metrics.timestamp prev) / 1000 in
          let bytesDelta := (Report.bytesSent o - Report.bytesSent po)%Z in
          let bitrate := div (inject_Z (bytesDelta * 8)) timeDelta in
          let packetsDelta := (Report.packetsSent o - Report.packetsSent po)%Z in
          let packetsLostDelta :=
            (or0 (Report.packetsLost o) - or0 (Report.packetsLost po))%Z in
          let loss :=
            if (packetsDelta >? 0)%Z && (packetsLostDelta >=? 0)%Z
            then Math_min 100 (inject_Z packetsLostDelta / inject_Z packetsDelta * 100)
            else 0 in
          (bitrate, loss)
      | None => (Fin 0, 0)
      end
  | _, _ => (Fin 0, 0)
  end.

(** [r && r.f] for a rational field [f]: the value when the report exists
    and the field is truthy. *)
Definition truthy_field (r : option Report.t) (f : Report.t -> option Q) : option Q :=
  match r with
  | Some x => truthyQ (f x)
  | None => None
  end.

(** "Try to get RTT from multiple sources": round-trip time in ms from the
    first source with a truthy value, else the initial 0. *)
Definition pickRtt (p : Picked) : Q :=
  match truthy_field (p_candidate p) Report.currentRoundTripTime with
  | Some v => v * 1000
  | None =>
      match truthy_field (p_remoteInboundVideo p) Report.roundTripTime with
      | Some v => v * 1000
      | None =>
          match truthy_field (p_remoteInboundAudio p) Report.roundTripTime with
          | Some v => v * 1000
          | None => 0
          end
      end
  end.

(** Loss percentage as seen by the remote end, and whether the report gave
    one ([hasRemoteInboundStats] is the disjunction over video and audio). *)
Definition remoteLoss (r : option Report.t) : Q * bool :=
  match r with
  | None => (0, false)
  | Some r =>
      let packetsLost := or0 (Report.packetsLost r) in
      let packetsReceived :=
        orZ (Report.packetsReceived r) (orZ (Report.packetsRecieved r) 0%Z) in
      if (packetsReceived >? 0)%Z || (packetsLost >? 0)%Z then
        let totalPackets := (packetsLost + packetsReceived)%Z in
        if (totalPackets >? 0)%Z
        then (inject_Z packetsLost / inject_Z totalPackets * 100, true)
        else (0, false)
      else (0, false)
  end.

(** Loss from an inbound report's total counts, used as a fallback: [loss]
    is kept unless the report has more than 100 packets. *)
Definition inboundLoss (r : Report.t) (loss : Q) : Q :=
  let packetsLost := or0 (Report.packetsLost r) in
  let packetsReceived := or0 (Report.packetsReceived r) in
  let totalPackets := (packetsLost + packetsReceived)%Z in
  if (totalPackets >? 100)%Z
  then inject_Z packetsLost / inject_Z totalPackets * 100
  else loss.

(** The threshold bands at the end of [analyzeStats]. *)
Definition classify (rtt totalPacketLoss : Q) (totalBitrate : num) : Quality :=
  if gtb rtt 500 || gtb totalPacketLoss 15 then AUDIO_ONLY
  else if gtb totalPacketLoss 8 || gtb rtt 400
          || (num_ltb totalBitrate BANDWIDTH_THRESHOLDS.LOW
              && num_gtb totalBitrate 60000) then LOW
  else if gtb totalPacketLoss 3 || gtb rtt 200
          || (num_ltb totalBitrate BANDWIDTH_THRESHOLDS.MEDIUM
              && num_gtb totalBitrate 60000) then MEDIUM
  else if ltb totalPacketLoss 2 && ltb rtt 150 then HIGH
  else MEDIUM.

Definition is_some {A : Type} (o : option A) : bool :=
  match o with
  | Some _ => true
  | None => false
  end.

(** [analyzeStats(stats, peerId)] at time [now]; [None] is the [null] result. *)
Definition analyzeStats (now : Z) (st : State) (stats : list Report.t)
    (peerId : string) : option Metrics.t :=
  let p := scan stats in
  if negb (is_some (p_outboundVideo p)) && negb (is_some (p_outboundAudio p))
     && negb (is_some (p_inboundVideo p)) && negb (is_some (p_inboundAudio p))
  then None
  else
    let previousStats := map_get peerId (networkStats st) in
    let '(videoBitrate, videoLoss0) :=
      outboundBlock now (p_outboundVideo p) previousStats Metrics.outboundVideo in
    let '(audioBitrate, audioLoss0) :=
      outboundBlock now (p_outboundAudio p) previousStats Metrics.outboundAudio in
    let rtt := pickRtt p in
    let '(videoPacketLossFromRemote, hasVideo) := remoteLoss (p_remoteInboundVideo p) in
    let '(audioPacketLossFromRemote, hasAudio) := remoteLoss (p_remoteInboundAudio p) in
    let hasRemoteInboundStats := hasVideo || hasAudio in
    let videoLoss1 :=
      if hasRemoteInboundStats && ltb videoPacketLossFromRemote 100
      then videoPacketLossFromRemote else videoLoss0 in
    let audioLoss1 :=
      if hasRemoteInboundStats && ltb audioPacketLossFromRemote 100
      then audioPacketLossFromRemote else audioLoss0 in
    let videoLoss2 :=
      match p_inboundVideo p with
      | Some r =>
          if geb videoLoss1 100 || geb audioLoss1 100
          then inboundLoss r videoLoss1 else videoLoss1
      | None => videoLoss1
      end in
    let audioLoss2 :=
      match p_inboundAudio p with
      | Some r => if geb audioLoss1 100 then inboundLoss r audioLoss1 else audioLoss1
      | None => audioLoss1
      end in
    let videoPacketLoss := Math_min 50 (Math_max 0 videoLoss2) in
    let audioPacketLoss := Math_min 50 (Math_max 0 audioLoss2) in
    let jitter :=
      match p_inboundAudio p with
      | Some r => match truthyQ (Report.jitter r) with Some j => j | None => 0 end
      | None => 0
      end in
    let totalBitrate := add videoBitrate audioBitrate in
    let totalPacketLoss := Math_max videoPacketLoss audioPacketLoss in
    let quality :=
      if initialConnectionPhase st then HIGH
      else classify rtt totalPacketLoss totalBitrate in
    Some (Metrics.mk now videoBitrate audioBitrate videoPacketLoss audioPacketLoss
            rtt jitter quality
            (p_outboundVideo p) (p_outboundAudio p)
            (p_remoteInboundVideo p) (p_remoteInboundAudio p)).

(** ** BandwidthAllocator: [adjustVideoQuality] *)

(** [sender.track.enabled = v]: the flag of the local video track when the
    sender carries it (the audio track's flag is not part of [State]). *)
Definition set_trackEnabled (k : MediaKind) (v : bool) (st : State) : State :=
  if MediaKind_eqb k video then set_videoTrackEnabled v st else st.

(** [adjustVideoQuality(quality, sender)].  The body runs inside [try]: a
    rejected [applyConstraints] or [setParameters] abandons the rest of the
    branch, after the track's [enabled] flag was already written.  The
    encoding parameters themselves and the DOM updates live outside
    [State]. *)
Definition adjustVideoQuality (quality : Quality) (sender : option Sender.t)
    (st : State) : State :=
  match sender with
  | None => st
  | Some s =>
      match Sender.track s with
      | None => st
      | Some k =>
          if Quality_eqb quality AUDIO_ONLY then
            set_currentVideoQuality AUDIO_ONLY (set_trackEnabled k false st)
          else
            let st1 := set_trackEnabled k (negb (isCameraOff st)) st in
            if Sender.applyConstraints_throws s quality then st1
            else if Sender.hasEncodings s then
              if Sender.setParameters_throws s quality then st1
              else set_currentVideoQuality quality st1
            else set_currentVideoQuality quality st1
      end
  end.

(** [pc.getSenders().find(s => s.track && s.track.kind === 'video')]. *)
Definition videoSender (pc : PeerConnection) : option Sender.t :=
  find (fun s => match Sender.track s with
                 | Some k => MediaKind_eqb k video
                 | None => false
                 end) pc.

(** The [videoSenders] array collected over [peerConnections]. *)
Definition videoSenders (st : State) : list Sender.t :=
  flat_map (fun entry => match videoSender (snd entry) with
                         | Some s => [s]
                         | None => []
                         end) (peerConnections st).

(** The [for (const { sender, peerId } of videoSenders)] loop. *)
Definition senderLoop (quality : Quality) (senders : list Sender.t) (st : State) : State :=
  fold_left (fun acc s => adjustVideoQuality quality (Some s) acc) senders st.

Definition adjustVideoQualityForAllPeers (quality : Quality) (st : State) : State :=
  senderLoop quality (videoSenders st) st.

(** Whether the two browser calls of the non-audio-only branch go through for
    this sender. *)
Definition accepts (s : Sender.t) (quality : Quality) : bool :=
  negb (Sender.applyConstraints_throws s quality)
  && (negb (Sender.hasEncodings s) || negb (Sender.setParameters_throws s quality)).

(** ** AdaptationController: [adaptToNetworkConditions] *)

(** The accumulators of the [networkStats.forEach] loop. *)
Record Aggregate : Type := mkAggregate {
  totalBitrate : num;
  maxPacketLoss : Q;
  maxRtt : Q;
  peerCount : nat;
  worstQuality : Quality
}.

Definition linkLoss (m : Metrics.t) : Q :=
  Math_max (Metrics.videoPacketLoss m) (Metrics.audioPacketLoss m).

Definition updateWorst (worst q : Quality) : Quality :=
  if Quality_eqb q AUDIO_ONLY then AUDIO_ONLY
  else if Quality_eqb q LOW && negb (Quality_eqb worst AUDIO_ONLY) then LOW
  else if Quality_eqb q MEDIUM && Quality_eqb worst HIGH then MEDIUM
  else worst.

Definition aggregateStep (a : Aggregate) (entry : string * Metrics.t) : Aggregate :=
  let metrics := snd entry in
  mkAggregate
    (add (totalBitrate a)
         (add (Metrics.videoBitrate metrics) (Metrics.audioBitrate metrics)))
    (Math_max (maxPacketLoss a) (linkLoss metrics))
    (Math_max (maxRtt a) (Metrics.rtt metrics))
    (S (peerCount a))
    (updateWorst (worstQuality a) (Metrics.quality metrics)).

Definition aggregate (stats : list (string * Metrics.t)) : Aggregate :=
  fold_left aggregateStep stats (mkAggregate (Fin 0) 0 0 0%nat HIGH).

(** The [if / else if] chain that determines [targetQuality]. *)
Definition targetQuality (current : Quality) (a : Aggregate) : Quality :=
  let worst := worstQuality a in
  let loss := maxPacketLoss a in
  let rtt := maxRtt a in
  if Quality_eqb worst AUDIO_ONLY || gtb loss 15 || gtb rtt 3000 then AUDIO_ONLY
  else if Quality_eqb current AUDIO_ONLY && leb loss 10 && leb rtt 1000 then LOW
  else if Quality_eqb worst LOW || (gtb loss 8 || gtb rtt 500) then
    if negb (Quality_eqb current AUDIO_ONLY) then LOW else current
  else if Quality_eqb worst MEDIUM || (gtb loss 3 || gtb rtt 200) then
    if Quality_eqb current HIGH || Quality_eqb current LOW then MEDIUM else current
  else if (Quality_eqb worst HIGH || negb (Quality_eqb current HIGH))
          && ltb loss 2 && ltb rtt 150 then HIGH
  else current.

Definition adaptToNetworkConditions (st : State) : State :=
  if negb (localStream st) || negb (isAdaptiveMode st) then st
  else
    let a := aggregate (networkStats st) in
    if Nat.eqb (peerCount a) 0 then st
    else
      let target := targetQuality (currentVideoQuality st) a in
      if Quality_eqb target (currentVideoQuality st) then st
      else adjustVideoQualityForAllPeers target st.

(** ** MetricsSampler: [monitorNetworkQuality] *)

(** What [pc.getStats()] gives for each peer in one tick: [None] when the
    call rejects, else the reports and the [Date.now()] read by
    [analyzeStats]. *)
Definition GetStats : Type := string -> option (Z * list Report.t).

Definition samplePeer (getStats : GetStats) (st : State)
    (entry : string * PeerConnection) : State :=
  let peerId := fst entry in
  match getStats peerId with
  | None => st
  | Some (now, stats) =>
      match analyzeStats now st stats peerId with
      | Some networkMetrics =>
          set_networkStats (map_set peerId networkMetrics (networkStats st)) st
      | None => st
      end
  end.

(** End of the initial connection phase, tested at the start of a tick. *)
Definition endInitialPhase (now : Z) (st : State) : State :=
  match connectionStartTime st with
  | Some t =>
      if initialConnectionPhase st && negb (t =? 0)%Z && (now - t >? 10000)%Z
      then set_initialConnectionPhase false st
      else st
  | None => st
  end.

Definition monitorNetworkQuality (now : Z) (getStats : GetStats) (st : State) : State :=
  let st1 := endInitialPhase now st in
  let st2 := fold_left (samplePeer getStats) (peerConnections st1) st1 in
  match networkStats st2 with
  | [] => st2
  | _ :: _ => adaptToNetworkConditions st2
  end.

(** One tick as seen from outside: its clock reading and its telemetry. *)
Definition Tick : Type := (Z * GetStats)%type.

Definition run_ticks (ticks : list Tick) (st : State) : State :=
  fold_left (fun acc t => monitorNetworkQuality (fst t) (snd t) acc) ticks st.

(** The [onclick] handler of the adaptive-mode toggle. *)
Definition adaptiveModeToggle_onclick (st : State) : State :=
  let st1 := set_isAdaptiveMode (negb (isAdaptiveMode st)) st in
  if negb (isAdaptiveMode st1) && negb (Quality_eqb (currentVideoQuality st1) HIGH)
  then adjustVideoQualityForAllPeers HIGH st1
  else st1.

(** ** ActiveSpeakerDetector: [updateActiveSpeaker] *)

(** Body of the [audioLevels.forEach] callback on [(maxLevel, speakerId)]. *)
Definition speakerStep (now : Z) (acc : Q * option string)
    (entry : string * AudioLevel.t) : Q * option string :=
  let '(maxLevel, speakerId) := acc in
  let '(participantId, data) := entry in
  if (now - AudioLevel.timestamp data <? 2000)%Z
     && gtb (AudioLevel.level data) maxLevel
     && gtb (AudioLevel.level data) AUDIO_LEVEL_THRESHOLD
  then (AudioLevel.level data, Some participantId)
  else acc.

Definition option_string_eqb (a b : option string) : bool :=
  match a, b with
  | Some x, Some y => String.eqb x y
  | None, None => true
  | _, _ => false
  end.

(** [updateActiveSpeaker()] at time [now].  The boolean tells whether the
    "speaker changed" branch ran, that is whether [updateActiveSpeakerLayout]
    (re-layout and bandwidth reallocation) was called. *)
Definition updateActiveSpeaker (now : Z) (st : State) : State * bool :=
  match audioLevels st with
  | [] => (st, false)
  | _ :: _ =>
      let '(_, speakerId) := fold_left (speakerStep now) (audioLevels st) (0, None) in
      if negb (option_string_eqb speakerId (activeSpeaker st))
      then (set_activeSpeaker speakerId st, true)
      else (st, false)
  end.

(** ** The classifier as the specification words it *)

Definition num_lt (a : num) (b : Q) : Prop :=
  match a with
  | Fin x => x < b
  | NInf => True
  | PInf | NaN => False
  end.

Definition num_gt (a : num) (b : Q) : Prop :=
  match a with
  | Fin x => b < x
  | PInf => True
  | NInf | NaN => False
  end.

Definition band_audio_only (loss rtt : Q) : Prop :=
  rtt > 500 \/ loss > 15.

Definition band_low (loss rtt : Q) (total : num) : Prop :=
  loss > 8 \/ rtt > 400 \/ (num_lt total 150000 /\ num_gt total 60000).

Definition band_medium (loss rtt : Q) (total : num) : Prop :=
  loss > 3 \/ rtt > 200 \/ (num_lt total 500000 /\ num_gt total 60000).

Definition band_high (loss rtt : Q) : Prop :=
  loss < 2 /\ rtt < 150.

(** First match over the priority bands: a band applies only when every
    band before it failed. *)
Inductive spec_verdict (loss rtt : Q) (total : num) : Quality -> Prop :=
| verdict_audio_only :
    band_audio_only loss rtt ->
    spec_verdict loss rtt total AUDIO_ONLY
| verdict_low :
    ~ band_audio_only loss rtt ->
    band_low loss rtt total ->
    spec_verdict loss rtt total LOW
| verdict_medium :
    ~ band_audio_only loss rtt ->
    ~ band_low loss rtt total ->
    band_medium loss rtt total ->
    spec_verdict loss rtt total MEDIUM
| verdict_high :
    ~ band_audio_only loss rtt ->
    ~ band_low loss rtt total ->
    ~ band_medium loss rtt total ->
    band_high loss rtt ->
    spec_verdict loss rtt total HIGH
| verdict_default :
    ~ band_audio_only loss rtt ->
    ~ band_low loss rtt total ->
    ~ band_medium loss rtt total ->
    ~ band_high loss rtt ->
    spec_verdict loss rtt total MEDIUM.

(** ** The active-speaker rule as the specification words it *)

Definition qualifies (now : Z) (d : AudioLevel.t) : Prop :=
  (now - AudioLevel.timestamp d < 2000)%Z /\ AUDIO_LEVEL_THRESHOLD < AudioLevel.level d.

(** Loop invariant of the [audioLevels.forEach] scan over the entries [seen]
    so far. *)
Definition speaker_inv (now : Z) (seen : list (string * AudioLevel.t))
    (acc : Q * option string) : Prop :=
  match snd acc with
  | None =>
      fst acc = 0 /\ forall id d, In (id, d) seen -> ~ qualifies now d
  | Some id =>
      exists d, In (id, d) seen /\ qualifies now d /\ AudioLevel.level d = fst acc /\
                forall id' d', In (id', d') seen -> qualifies now d' ->
                               AudioLevel.level d' <= fst acc
  end.

(** ** The bitrate as the specification words it *)

(** "bytesDelta is the counter difference, floored at 0". *)
Definition spec_bitrate (bytesDelta : Z) (timeDeltaSec : Q) : num :=
  div (inject_Z (Z.max 0 bytesDelta * 8)) timeDeltaSec.

(** Equality of two doubles up to the representation of the rational. *)
Definition num_eq (a b : num) : Prop :=
  match a, b with
  | Fin x, Fin y => x == y
  | PInf, PInf | NInf, NInf | NaN, NaN => True
  | _, _ => False
  end.

(** ** Scenarios *)

Definition outbound (k : MediaKind) (bytes packets : Z) : Report.t :=
  Report.mk outbound_rtp k false bytes packets None None None None None None.

Definition remoteInbound (k : MediaKind) (lost received : Z) : Report.t :=
  Report.mk remote_inbound_rtp k false 0 0 (Some lost) (Some received) None None None None.

Definition candidatePair (rttSec : Q) : Report.t :=
  Report.mk candidate_pair no_media true 0 0 None None None None (Some rttSec) None.

(** A sender whose browser calls all go through, and one whose track rejects
    every constraint. *)
Definition plainSender (k : MediaKind) : Sender.t :=
  Sender.mk (Some k) true (fun _ => false) (fun _ => false).

Definition rejectingSender : Sender.t :=
  Sender.mk (Some video) true (fun _ => true) (fun _ => false).

Definition connection : PeerConnection := [plainSender audio; plainSender video].

(** Stored metrics with the given loss, rtt and verdict, and the outbound
    video report kept for the next comparison. *)
Definition stored (ts : Z) (loss rtt : Q) (q : Quality) (ov : option Report.t) : Metrics.t :=
  Metrics.mk ts (Fin 0) (Fin 0) loss 0 rtt 0 q ov None None None.

(** In a call, joined at [start], with the given peer connections, stored
    metrics and current quality; adaptive mode on, initial phase over, and
    the same still inside the initial phase. *)
Definition in_call (peers : list (string * PeerConnection))
    (stats : list (string * Metrics.t)) (q : Quality) : State :=
  mkState true false true peers stats q true false (Some 1000%Z) None [].

Definition in_grace (peers : list (string * PeerConnection)) : State :=
  mkState true false true peers [] HIGH true true (Some 1000%Z) None [].

Definition only (peerId : string) (now : Z) (stats : list Report.t) : GetStats :=
  fun id => if String.eqb id peerId then Some (now, stats) else None.

(** C1: first tick of peer B outside the initial phase, rtt 450 ms. *)
Definition st_slow : State := in_call [("B", connection)] [] HIGH.
Definition stats_slow : list Report.t :=
  [outbound video 1000 10; candidatePair (45 # 100)].

(** C2: 3 s after joining, the remote end of B reports 20 lost of 100. *)
Definition st_grace : State := in_grace [("B", connection)].
Definition stats_lossy : list Report.t :=
  [outbound video 50000 100; remoteInbound video 20 80].

(** C3: in AUDIO_ONLY, the peer's stored metrics show loss 5 and rtt 300. *)
Definition st_recovering : State :=
  in_call [("B", connection)] [("B", stored 17000 5 300 MEDIUM None)] AUDIO_ONLY.

(** C4: peer A healthy, peer B with loss 20 and rtt 4000; once with both
    connections up, once while B, the only peer, is being reconnected and
    has no peer connection. *)
Definition st_two_peers : State :=
  in_call [("A", connection); ("B", connection)]
          [("A", stored 17000 0 50 HIGH None); ("B", stored 17000 20 4000 AUDIO_ONLY None)]
          HIGH.
Definition st_reconnecting : State :=
  in_call [] [("B", stored 17000 20 4000 AUDIO_ONLY None)] HIGH.

(** C5: at LOW with adaptive mode on; with one peer, and after every peer
    left. *)
Definition st_low_call : State :=
  in_call [("B", connection)] [("B", stored 17000 9 100 LOW None)] LOW.
Definition st_low_alone : State := in_call [] [] LOW.
Definition ticks_bad : list Tick :=
  [(20000%Z, only "B" 20000 stats_lossy); (23000%Z, only "B" 23000 stats_lossy)].

(** C6: steady state; since the previous tick 10 packets reached the remote
    end's counters, 2 of them lost. *)
Definition st_steady : State :=
  in_call [("B", connection)]
          [("B", stored 17000 0 50 HIGH (Some (outbound video 1000000 1000)))] HIGH.
Definition stats_small_sample : list Report.t :=
  [outbound video 1030000 1010; remoteInbound video 2 8].

(** C7: first tick of peer B (nothing stored), rtt 600 ms; and a tick whose
    clock reading equals the stored timestamp. *)
Definition stats_first : list Report.t :=
  [outbound video 1000 10; candidatePair (6 # 10)].

(** C8: the byte counter restarted between the two ticks. *)
Definition stats_reset : list Report.t := [outbound video 400000 1300].

(** C9: levels A 0.02 (age 500 ms), B 0.6 (age 100 ms), C 0.5 (age 3000 ms)
    at time 10000; and the state after the only tracked speaker left. *)
Definition st_three_speakers : State :=
  mkState true false true [] [] HIGH true false (Some 1000%Z) None
          [("A", AudioLevel.mk (2 # 100) 9500); ("B", AudioLevel.mk (6 # 10) 9900);
           ("C", AudioLevel.mk (5 # 10) 7000)].
Definition st_speaker_left : State :=
  mkState true false true [] [] HIGH true false (Some 1000%Z) (Some "B") [].

(** * The signaling relay

    The WebSocket server that ships with the enhanced client: connected
    users, rooms, and the forwarding of offers, answers and candidates.  A
    socket is identified by a number (the identity of the [ws] object).  The
    [user] object handed to the handlers is the one stored in [users] under
    that socket, so writing [user.room] is an update of that entry.  The
    messages that go out on open sockets are returned as a list of (socket,
    message) pairs in sending order. *)

Module Signaling.

(** Maps and sets of the relay: a [Map] keyed by [K] and a [Set] of [K], both
    in insertion order. *)
Section Keyed.
Context {K V : Type} (eqb : K -> K -> bool).

Fixpoint kget (k : K) (m : list (K * V)) : option V :=
  match m with
  | [] => None
  | (k', v) :: r => if eqb k k' then Some v else kget k r
  end.

Fixpoint kset (k : K) (v : V) (m : list (K * V)) : list (K * V) :=
  match m with
  | [] => [(k, v)]
  | (k', v') :: r => if eqb k k' then (k, v) :: r else (k', v') :: kset k v r
  end.

Definition kdelete (k : K) (m : list (K * V)) : list (K * V) :=
  filter (fun e => negb (eqb k (fst e))) m.

(** Assignment to a field of the object stored under [k]: nothing happens to
    the map when it holds no such object. *)
Definition kupdate (k : K) (v : V) (m : list (K * V)) : list (K * V) :=
  match kget k m with
  | Some _ => kset k v m
  | None => m
  end.

Definition set_has (x : K) (s : list K) : bool := existsb (eqb x) s.

Definition set_add (x : K) (s : list K) : list K :=
  if set_has x s then s else s ++ [x].

Definition set_delete (x : K) (s : list K) : list K :=
  filter (fun y => negb (eqb x y)) s.
End Keyed.

Definition Socket : Type := nat.

Record User : Type := mkUser {
  id : string;
  room : option string
}.

Record Server : Type := mkServer {
  users : list (Socket * User);
  rooms : list (string * list Socket)
}.

(** [const users = new Map(); const rooms = new Map();] *)
Definition start : Server := mkServer [] [].

Inductive SignalKind : Type := offer | answer | candidate.

(** A parsed client message; [other_message] is a message of any other type.
    The body of a signaling message is opaque to the relay. *)
Inductive ClientMessage : Type :=
| join_room (room : option string)
| signal (kind : SignalKind) (targetId : option string) (body : string)
| leave_room
| other_message.

Inductive ServerMessage : Type :=
| room_joined (users : list string) (yourId : string)
| user_joined (userId : string)
| user_left (userId : string)
| forwarded (data : ClientMessage) (fromId : string).

Definition Outbox : Type := list (Socket * ServerMessage).

(** What the relay reads from the sockets while it handles one event: the
    [readyState] of each, and whether a [send] on a socket that is not open
    throws (it does in some releases of the WebSocket library and is a no-op
    in others; a [send] on an open socket goes through). *)
Record Sockets : Type := mkSockets {
  readyState : Socket -> nat;
  sendThrows : Socket -> bool
}.

Definition isOpen (env : Sockets) (c : Socket) : bool :=
  Nat.eqb (readyState env c) 1.

(** [c.send(message)]: the message goes out on an open socket; on any other
    socket the call throws ([None]) or drops the message. *)
Definition send (env : Sockets) (c : Socket) (message : ServerMessage) : option Outbox :=
  if isOpen env c then Some [(c, message)]
  else if sendThrows env c then None
  else Some [].

(** Truthiness of a string-valued field. *)
Definition truthy (x : option string) : option string :=
  match x with
  | Some s => if String.eqb s "" then None else Some s
  | None => None
  end.

(** [handleLeaveRoom(ws, user)]. *)
Definition handleLeaveRoom (env : Sockets) (ws : Socket) (user : User)
    (st : Server) : Server * Outbox :=
  match truthy (room user) with
  | None => (st, [])
  | Some r =>
      let left := kupdate Nat.eqb ws (mkUser (id user) None) (users st) in
      match kget String.eqb r (rooms st) with
      | Some members =>
          let members' := set_delete Nat.eqb ws members in
          let out :=
            map (fun c => (c, user_left (id user))) (filter (isOpen env) members') in
          let rooms' :=
            match members' with
            | [] => kdelete String.eqb r (rooms st)
            | _ :: _ => kset String.eqb r members' (rooms st)
            end in
          (mkServer left rooms', out)
      | None => (mkServer left (rooms st), [])
      end
  end.

(** [handleJoinRoom(ws, user, roomId)].  The [room-joined] reply is sent
    without a test of [readyState]: when that [send] throws, the
    notifications after it are not sent, the room and the user having been
    updated already. *)
Definition handleJoinRoom (env : Sockets) (ws : Socket) (user : User)
    (roomId : string) (st : Server) : Server * Outbox :=
  let '(st1, out1) :=
    match truthy (room user) with
    | Some _ => handleLeaveRoom env ws user st
    | None => (st, [])
    end in
  let rooms1 :=
    match kget String.eqb roomId (rooms st1) with
    | Some _ => rooms st1
    | None => kset String.eqb roomId [] (rooms st1)
    end in
  let members :=
    set_add Nat.eqb ws
      (match kget String.eqb roomId rooms1 with
       | Some s => s
       | None => []
       end) in
  let rooms2 := kset String.eqb roomId members rooms1 in
  let users2 := kupdate Nat.eqb ws (mkUser (id user) (Some roomId)) (users st1) in
  let otherUsers :=
    flat_map (fun c => match kget Nat.eqb c users2 with
                       | Some clientUser =>
                           if negb (Nat.eqb c ws) then [id clientUser] else []
                       | None => []
                       end) members in
  let st2 := mkServer users2 rooms2 in
  match send env ws (room_joined otherUsers (id user)) with
  | None => (st2, out1)
  | Some reply =>
      (st2,
       out1 ++ reply
            ++ map (fun c => (c, user_joined (id user)))
                   (filter (fun c => negb (Nat.eqb c ws) && isOpen env c) members))
  end.

(** [findUserByIdInRoom(roomId, userId)]; [roomId] is the caller's
    [user.room], possibly [null]. *)
Definition findUserByIdInRoom (roomId : option string) (userId : string)
    (st : Server) : option Socket :=
  match roomId with
  | None => None
  | Some r =>
      match kget String.eqb r (rooms st) with
      | None => None
      | Some members =>
          find (fun c => match kget Nat.eqb c (users st) with
                         | Some user => String.eqb (id user) userId
                         | None => false
                         end) members
      end
  end.

(** The ["message"] handler of a socket.  [None] stands for a message that
    [JSON.parse] (or the access to its type) rejects: the [catch] swallows
    it. *)
Definition onMessage (env : Sockets) (ws : Socket) (message : option ClientMessage)
    (st : Server) : Server * Outbox :=
  match message with
  | None => (st, [])
  | Some data =>
      match kget Nat.eqb ws (users st) with
      | None => (st, [])
      | Some user =>
          match data with
          | join_room r =>
              handleJoinRoom env ws user
                (match truthy r with Some s => s | None => "default" end) st
          | signal _ targetId _ =>
              match truthy targetId with
              | Some t =>
                  match findUserByIdInRoom (room user) t st with
                  | Some targetWs =>
                      match send env targetWs (forwarded data (id user)) with
                      | Some out => (st, out)
                      | None => (st, [])
                      end
                  | None => (st, [])
                  end
              | None => (st, [])
              end
          | leave_room => handleLeaveRoom env ws user st
          | other_message => (st, [])
          end
      end
  end.

(** The ["close"] handler of a socket. *)
Definition onClose (env : Sockets) (ws : Socket) (st : Server) : Server * Outbox :=
  match kget Nat.eqb ws (users st) with
  | Some user =>
      let '(st1, out) := handleLeaveRoom env ws user st in
      (mkServer (kdelete Nat.eqb ws (users st1)) (rooms st1), out)
  | None => (st, [])
  end.

(** The ["connection"] handler; [userId] is the fresh [crypto.randomUUID()]. *)
Definition onConnection (ws : Socket) (userId : string) (st : Server) : Server :=
  mkServer (kset Nat.eqb ws (mkUser userId None) (users st)) (rooms st).

Inductive Event : Type :=
| Connection (ws : Socket) (userId : string)
| Message (ws : Socket) (message : option ClientMessage)
| Close (ws : Socket).

Definition step (env : Sockets) (ev : Event) (st : Server) : Server * Outbox :=
  match ev with
  | Connection ws userId => (onConnection ws userId st, [])
  | Message ws message => onMessage env ws message st
  | Close ws => onClose env ws st
  end.

(** A run of the relay: the events in order, each with the sockets' state at
    that moment. *)
Fixpoint run (evs : list (Sockets * Event)) (st : Server) : Server * Outbox :=
  match evs with
  | [] => (st, [])
  | (env, ev) :: rest =>
      let '(st1, out1) := step env ev st in
      let '(st2, out2) := run rest st1 in
      (st2, out1 ++ out2)
  end.

(** The sockets of a room, none when the room does not exist. *)
Definition membersOf (r : string) (st : Server) : list Socket :=
  match kget String.eqb r (rooms st) with
  | Some members => members
  | None => []
  end.

(** What holds between [users] and [rooms] in every state the relay reaches:
    a room exists only with members, has a non-empty name and lists no socket
    twice; a socket listed in a room is a connected user whose [room] is that
    room; and a user whose [room] is set is listed in it. *)
Record consistent (st : Server) : Prop := mkConsistent {
  rooms_nonempty :
    forall r members, kget String.eqb r (rooms st) = Some members ->
                      members <> [] /\ NoDup members /\ r <> "";
  members_are_users :
    forall r members c, kget String.eqb r (rooms st) = Some members -> In c members ->
                        exists u, kget Nat.eqb c (users st) = Some u /\ room u = Some r;
  users_are_members :
    forall c u r, kget Nat.eqb c (users st) = Some u -> room u = Some r ->
                  In c (membersOf r st)
}.

(** An event the server can meet in a state: a new connection brings a
    socket object that is not in [users] yet. *)
Definition possible (st : Server) (ev : Event) : Prop :=
  match ev with
  | Connection ws _ => kget Nat.eqb ws (users st) = None
  | Message _ _ | Close _ => True
  end.

Fixpoint possible_run (evs : list (Sockets * Event)) (st : Server) : Prop :=
  match evs with
  | [] => True
  | (env, ev) :: rest => possible st ev /\ possible_run rest (fst (step env ev st))
  end.

End Signaling.

(** ** Relay scenarios *)

(** Every socket open. *)
Definition all_open : Signaling.Sockets :=
  Signaling.mkSockets (fun _ => 1%nat) (fun _ => false).

(** Alice and Bob connect and join the default room, Carol connects. *)
Definition relay_session : list (Signaling.Sockets * Signaling.Event) :=
  [(all_open, Signaling.Connection 1%nat "alice");
   (all_open, Signaling.Connection 2%nat "bob");
   (all_open, Signaling.Message 1%nat (Some (Signaling.join_room None)));
   (all_open, Signaling.Message 2%nat (Some (Signaling.join_room (Some "default"))));
   (all_open, Signaling.Connection 3%nat "carol")].

Definition relay_state : Signaling.Server := fst (Signaling.run relay_session Signaling.start).

(** * The rest of the client script

    The handlers around the controller that read or write the same
    variables: the audio-level monitor of a participant, the camera button,
    the departure of a peer, and the indicator panel. *)

Definition set_isCameraOff (v : bool) (s : State) : State :=
  mkState (localStream s) v (videoTrackEnabled s)
          (peerConnections s) (networkStats s) (currentVideoQuality s)
          (isAdaptiveMode s) (initialConnectionPhase s)
          (connectionStartTime s) (activeSpeaker s) (audioLevels s).

Definition set_peerConnections (v : list (string * PeerConnection)) (s : State) : State :=
  mkState (localStream s) (isCameraOff s) (videoTrackEnabled s)
          v (networkStats s) (currentVideoQuality s)
          (isAdaptiveMode s) (initialConnectionPhase s)
          (connectionStartTime s) (activeSpeaker s) (audioLevels s).

Definition set_audioLevels (v : list (string * AudioLevel.t)) (s : State) : State :=
  mkState (localStream s) (isCameraOff s) (videoTrackEnabled s)
          (peerConnections s) (networkStats s) (currentVideoQuality s)
          (isAdaptiveMode s) (initialConnectionPhase s)
          (connectionStartTime s) (activeSpeaker s) v.

(** [Map.prototype.delete]. *)
Definition map_delete {V : Type} (k : string) (m : list (string * V)) : list (string * V) :=
  filter (fun entry => negb (String.eqb k (fst entry))) m.

(** The keys of a [Map], in insertion order. *)
Definition map_keys {V : Type} (m : list (string * V)) : list string := map fst m.

(** ** Participant: [monitorAudioLevel] and [remove] *)

(** [sum += dataArray[i]] over the [Uint8Array] filled by the analyser. *)
Definition sumBytes (dataArray : list Byte.byte) : Z :=
  fold_left (fun sum b => (sum + Z.of_N (Byte.to_N b))%Z) dataArray 0%Z.

(** [average / 255] with [average = sum / dataArray.length].  The array has
    [frequencyBinCount] entries, half of the [fftSize] of 256 set by
    [setupAudioMonitoring]; on an empty array the source would divide zero by
    zero, which this definition does not model. *)
Definition audioLevel (dataArray : list Byte.byte) : Q :=
  inject_Z (sumBytes dataArray) / inject_Z (Z.of_nat (List.length dataArray)) / 255.

(** One run of the [updateLevel] closure of participant [id] at time [now],
    on the frequency data the analyser delivered; the closure runs only
    while the participant has its analyser, that is until [remove]. *)
Definition updateLevel (now : Z) (id : string) (dataArray : list Byte.byte)
    (st : State) : State :=
  set_audioLevels
    (map_set id (AudioLevel.mk (audioLevel dataArray) now) (audioLevels st)) st.

(** [participant.remove()], as far as the module-level variables go. *)
Definition Participant_remove (id : string) (st : State) : State :=
  set_audioLevels (map_delete id (audioLevels st)) st.

(** The ['user-left'] case of [ws.onmessage].  [known] tells whether
    [participants] has an entry for the user. *)
Definition onUserLeft (known : bool) (userId : string) (st : State) : State :=
  let st1 := if known then Participant_remove userId st else st in
  let st2 := set_peerConnections (map_delete userId (peerConnections st1)) st1 in
  set_networkStats (map_delete userId (networkStats st2)) st2.

(** ** [cameraBtn.onclick] *)

(** [hasVideoTrack] tells whether [localStream.getVideoTracks()[0]] exists. *)
Definition cameraBtn_onclick (hasVideoTrack : bool) (st : State) : State :=
  if localStream st && hasVideoTrack then
    let st1 := set_isCameraOff (negb (isCameraOff st)) st in
    set_videoTrackEnabled (negb (isCameraOff st1)) st1
  else st.

(** ** The events of a call *)

(** What can happen between joining and leaving: the two interval timers,
    the animation frames of the audio monitors, the buttons, and the
    departure of a peer.  Each event is handled to completion before the
    next one: the points where an [async] handler waits for the browser, and
    another handler could run in between, are not modelled. *)
Inductive ClientEvent : Type :=
| monitor_tick (now : Z) (getStats : GetStats)
| speaker_tick (now : Z)
| audio_frame (now : Z) (id : string) (dataArray : list Byte.byte)
| adaptive_click
| camera_click (hasVideoTrack : bool)
| user_left (known : bool) (userId : string).

Definition handle (ev : ClientEvent) (st : State) : State :=
  match ev with
  | monitor_tick now getStats => monitorNetworkQuality now getStats st
  | speaker_tick now => fst (updateActiveSpeaker now st)
  | audio_frame now id dataArray => updateLevel now id dataArray st
  | adaptive_click => adaptiveModeToggle_onclick st
  | camera_click hasVideoTrack => cameraBtn_onclick hasVideoTrack st
  | user_left known userId => onUserLeft known userId st
  end.

Definition handle_all (evs : list ClientEvent) (st : State) : State :=
  fold_left (fun acc ev => handle ev acc) evs st.

(** ** [updateNetworkIndicators] *)





(** * The conservative variant of the controller

    The enhanced script classifies a link by three conditions at once and has
    no LOW target; the sender loop and [adjustVideoQuality] are the ones
    above. *)

Module Enhanced.

(** The five reports picked by the [stats.forEach] scan. *)
Record Picked : Type := mkPicked {
  p_outboundVideo : option Report.t;
  p_outboundAudio : option Report.t;
  p_inboundVideo : option Report.t;
  p_inboundAudio : option Report.t;
  p_candidate : option Report.t
}.

Definition pick (p : Picked) (report : Report.t) : Picked :=
  let '(mkPicked ov oa iv ia c) := p in
  if is_report outbound_rtp video report then mkPicked (Some report) oa iv ia c
  else if is_report outbound_rtp audio report then mkPicked ov (Some report) iv ia c
  else if is_report inbound_rtp video report then mkPicked ov oa (Some report) ia c
  else if is_report inbound_rtp audio report then mkPicked ov oa iv (Some report) c
  else if ReportType_eqb (Report.type report) candidate_pair && Report.selected report
       then mkPicked ov oa iv ia (Some report)
  else p.

Definition scan (stats : list Report.t) : Picked :=
  fold_left pick stats (mkPicked None None None None None).

(** Bitrate and loss of one medium; the loss is the raw ratio, without a
    test of the lost-packet delta's sign and without a cap. *)
Definition outboundBlock (now : Z) (cur : option Report.t)
    (previousStats : option Metrics.t)
    (sel : Metrics.t -> option Report.t) : num * Q :=
  match cur, previousStats with
  | Some o, Some prev =>
      match sel prev with
      | Some po =>
          let timeDelta := inject_Z (now - Metrics.timestamp prev) / 1000 in
          let bytesDelta := (Report.bytesSent o - Report.bytesSent po)%Z in
          let bitrate := div (inject_Z (bytesDelta * 8)) timeDelta in
          let packetsDelta := (Report.packetsSent o - Report.packetsSent po)%Z in
          let packetsLostDelta :=
            (or0 (Report.packetsLost o) - or0 (Report.packetsLost po))%Z in
          let loss :=
            if (packetsDelta >? 0)%Z
            then inject_Z packetsLostDelta / inject_Z packetsDelta * 100
            else 0 in
          (bitrate, loss)
      | None => (Fin 0, 0)
      end
  | _, _ => (Fin 0, 0)
  end.

(** The three-condition bands. *)
Definition classify (rtt totalPacketLoss : Q) (totalBitrate : num) : Quality :=
  if num_ltb totalBitrate BANDWIDTH_THRESHOLDS.LOW
     && gtb totalPacketLoss 8 && gtb rtt 500 then LOW
  else if num_ltb totalBitrate BANDWIDTH_THRESHOLDS.MEDIUM
          && gtb totalPacketLoss 5 && gtb rtt 300 then MEDIUM
  else HIGH.

(** [analyzeStats(stats, peerId)] at time [now].  During the initial phase
    the function returns before it attaches the raw outbound reports. *)
Definition analyzeStats (now : Z) (st : State) (stats : list Report.t)
    (peerId : string) : option Metrics.t :=
  let p := scan stats in
  if negb (is_some (p_outboundVideo p)) && negb (is_some (p_outboundAudio p))
  then None
  else
    let previousStats := map_get peerId (networkStats st) in
    let '(videoBitrate, videoPacketLoss) :=
      outboundBlock now (p_outboundVideo p) previousStats Metrics.outboundVideo in
    let '(audioBitrate, audioPacketLoss) :=
      outboundBlock now (p_outboundAudio p) previousStats Metrics.outboundAudio in
    let rtt :=
      match truthy_field (p_candidate p) Report.currentRoundTripTime with
      | Some v => v * 1000
      | None => 0
      end in
    let jitter :=
      match p_inboundAudio p with
      | Some r => match truthyQ (Report.jitter r) with Some j => j | None => 0 end
      | None => 0
      end in
    let totalBitrate := add videoBitrate audioBitrate in
    let totalPacketLoss := Math_max videoPacketLoss audioPacketLoss in
    if initialConnectionPhase st then
      Some (Metrics.mk now videoBitrate audioBitrate videoPacketLoss audioPacketLoss
              rtt jitter HIGH None None None None)
    else
      Some (Metrics.mk now videoBitrate audioBitrate videoPacketLoss audioPacketLoss
              rtt jitter (classify rtt totalPacketLoss totalBitrate)
              (p_outboundVideo p) (p_outboundAudio p) None None).

Definition updateWorst (worst q : Quality) : Quality :=
  if Quality_eqb q LOW then LOW
  else if Quality_eqb q MEDIUM && Quality_eqb worst HIGH then MEDIUM
  else worst.

Definition aggregateStep (a : Aggregate) (entry : string * Metrics.t) : Aggregate :=
  let metrics := snd entry in
  mkAggregate
    (add (totalBitrate a)
         (add (Metrics.videoBitrate metrics) (Metrics.audioBitrate metrics)))
    (Math_max (maxPacketLoss a) (linkLoss metrics))
    (Math_max (maxRtt a) (Metrics.rtt metrics))
    (S (peerCount a))
    (updateWorst (worstQuality a) (Metrics.quality metrics)).

Definition aggregate (stats : list (string * Metrics.t)) : Aggregate :=
  fold_left aggregateStep stats (mkAggregate (Fin 0) 0 0 0%nat HIGH).

(** The [if / else if] chain that determines [targetQuality]. *)
Definition targetQuality (current : Quality) (a : Aggregate) : Quality :=
  let worst := worstQuality a in
  let loss := maxPacketLoss a in
  if Quality_eqb worst LOW && gtb loss 10 then AUDIO_ONLY
  else if Quality_eqb worst MEDIUM && gtb loss 7 && Quality_eqb current HIGH then MEDIUM
  else if Quality_eqb worst HIGH && ltb loss 3 && negb (Quality_eqb current HIGH) then HIGH
  else current.

Definition adaptToNetworkConditions (st : State) : State :=
  if negb (localStream st) || negb (isAdaptiveMode st) then st
  else
    let a := aggregate (networkStats st) in
    if Nat.eqb (peerCount a) 0 then st
    else
      let target := targetQuality (currentVideoQuality st) a in
      if Quality_eqb target (currentVideoQuality st) then st
      else adjustVideoQualityForAllPeers target st.

Definition samplePeer (getStats : GetStats) (st : State)
    (entry : string * PeerConnection) : State :=
  let peerId := fst entry in
  match getStats peerId with
  | None => st
  | Some (now, stats) =>
      match analyzeStats now st stats peerId with
      | Some networkMetrics =>
          set_networkStats (map_set peerId networkMetrics (networkStats st)) st
      | None => st
      end
  end.

Definition monitorNetworkQuality (now : Z) (getStats : GetStats) (st : State) : State :=
  let st1 := endInitialPhase now st in
  let st2 := fold_left (samplePeer getStats) (peerConnections st1) st1 in
  match networkStats st2 with
  | [] => st2
  | _ :: _ => adaptToNetworkConditions st2
  end.

Definition run_ticks (ticks : list Tick) (st : State) : State :=
  fold_left (fun acc t => monitorNetworkQuality (fst t) (snd t) acc) ticks st.

End Enhanced.

(** ** Scenarios of a call *)

Definition loud_frame : list Byte.byte := [Byte.xff; Byte.x80; Byte.x00; Byte.x40].

Definition silent_frame : list Byte.byte := [Byte.x00; Byte.x00; Byte.x01; Byte.x00].

(** A call with peers A and B in which the user switches the camera off,
    the link to B turns lossy, adaptive mode is switched off, and A leaves. *)
Definition call_events : list ClientEvent :=
  [camera_click true;
   monitor_tick 20000 (only "B" 20000 stats_lossy);
   speaker_tick 20100;
   adaptive_click;
   user_left true "A"].

(** What the conservative variant stores for B three seconds into the call,
    and the call after the initial phase with just that stored. *)
Definition grace_metrics : Metrics.t :=
  Metrics.mk 4000 (Fin 0) (Fin 0) 0 0 0 0 HIGH None None None None.

Definition st_after_grace : State :=
  in_call [("B", connection)] [("B", grace_metrics)] HIGH.

(** * Facts *)

(** ** Comparisons *)

Lemma ltb_iff (a b : Q) : ltb a b = true <-> a < b.
Proof.
  unfold ltb. rewrite negb_true_iff.
  destruct (Qle_bool b a) eqn:E.
  - apply Qle_bool_iff in E. split; [discriminate | intro; lra].
  - split; [intros _ | reflexivity].
    destruct (Qlt_le_dec a b) as [H | H]; [exact H |].
    apply Qle_bool_iff in H. congruence.
Qed.

Lemma gtb_iff (a b : Q) : gtb a b = true <-> b < a.
Proof. unfold gtb. apply ltb_iff. Qed.

Lemma leb_iff (a b : Q) : leb a b = true <-> a <= b.
Proof. unfold leb. apply Qle_bool_iff. Qed.

Lemma geb_iff (a b : Q) : geb a b = true <-> b <= a.
Proof. unfold geb. apply Qle_bool_iff. Qed.

Lemma ltb_false_iff (a b : Q) : ltb a b = false <-> b <= a.
Proof.
  rewrite <- not_true_iff_false, ltb_iff. split; intro H; lra.
Qed.

Lemma gtb_false_iff (a b : Q) : gtb a b = false <-> a <= b.
Proof. unfold gtb. apply ltb_false_iff. Qed.

Lemma leb_false_iff (a b : Q) : leb a b = false <-> b < a.
Proof.
  rewrite <- not_true_iff_false, leb_iff. split; intro H; lra.
Qed.

Lemma num_ltb_iff (a : num) (b : Q) : num_ltb a b = true <-> num_lt a b.
Proof.
  destruct a; simpl; try apply ltb_iff; intuition discriminate.
Qed.

Lemma num_gtb_iff (a : num) (b : Q) : num_gtb a b = true <-> num_gt a b.
Proof.
  destruct a; simpl; try apply gtb_iff; intuition discriminate.
Qed.

Lemma Math_max_cases (a b : Q) :
  (a <= b /\ Math_max a b = b) \/ (b < a /\ Math_max a b = a).
Proof.
  unfold Math_max. destruct (Qle_bool a b) eqn:E.
  - left. split; [now apply Qle_bool_iff | reflexivity].
  - right. split; [| reflexivity]. now apply leb_false_iff.
Qed.

Lemma Math_min_cases (a b : Q) :
  (a <= b /\ Math_min a b = a) \/ (b < a /\ Math_min a b = b).
Proof.
  unfold Math_min. destruct (Qle_bool a b) eqn:E.
  - left. split; [now apply Qle_bool_iff | reflexivity].
  - right. split; [| reflexivity]. now apply leb_false_iff.
Qed.

Lemma Math_max_Qmax (a b : Q) : Math_max a b == Qmax a b.
Proof.
  destruct (Math_max_cases a b) as [[H ->] | [H ->]].
  - symmetry. apply Q.max_r. exact H.
  - symmetry. apply Q.max_l. lra.
Qed.

Lemma Math_max_l (a b : Q) : a <= Math_max a b.
Proof. destruct (Math_max_cases a b) as [[H ->] | [H ->]]; lra. Qed.

Lemma Math_max_r (a b : Q) : b <= Math_max a b.
Proof. destruct (Math_max_cases a b) as [[H ->] | [H ->]]; lra. Qed.

(** The final safety check [Math.min(50, Math.max(0, x))]. *)
Lemma clamp_range (x : Q) : 0 <= Math_min 50 (Math_max 0 x) <= 50.
Proof.
  destruct (Math_min_cases 50 (Math_max 0 x)) as [[H ->] | [H ->]];
    destruct (Math_max_cases 0 x) as [[H' E] | [H' E]];
    rewrite ?E in *; lra.
Qed.

Lemma Quality_eqb_eq (a b : Quality) : Quality_eqb a b = true <-> a = b.
Proof. destruct a, b; simpl; intuition congruence. Qed.

(** ** Bands *)

Lemma band_audio_only_iff (loss rtt : Q) :
  gtb rtt 500 || gtb loss 15 = true <-> band_audio_only loss rtt.
Proof.
  unfold band_audio_only. rewrite orb_true_iff, !gtb_iff. reflexivity.
Qed.

Lemma band_low_iff (loss rtt : Q) (total : num) :
  gtb loss 8 || gtb rtt 400
  || (num_ltb total BANDWIDTH_THRESHOLDS.LOW && num_gtb total 60000) = true
  <-> band_low loss rtt total.
Proof.
  unfold band_low, BANDWIDTH_THRESHOLDS.LOW.
  rewrite !orb_true_iff, andb_true_iff, !gtb_iff, num_ltb_iff, num_gtb_iff.
  tauto.
Qed.

Lemma band_medium_iff (loss rtt : Q) (total : num) :
  gtb loss 3 || gtb rtt 200
  || (num_ltb total BANDWIDTH_THRESHOLDS.MEDIUM && num_gtb total 60000) = true
  <-> band_medium loss rtt total.
Proof.
  unfold band_medium, BANDWIDTH_THRESHOLDS.MEDIUM.
  rewrite !orb_true_iff, andb_true_iff, !gtb_iff, num_ltb_iff, num_gtb_iff.
  tauto.
Qed.

Lemma band_high_iff (loss rtt : Q) :
  ltb loss 2 && ltb rtt 150 = true <-> band_high loss rtt.
Proof.
  unfold band_high. rewrite andb_true_iff, !ltb_iff. reflexivity.
Qed.

Lemma false_iff_not (b : bool) (P : Prop) : (b = true <-> P) -> (b = false <-> ~ P).
Proof. destruct b; intuition congruence. Qed.

(** [classify] is the first-match reading of the four bands. *)
Lemma classify_spec (rtt loss : Q) (total : num) (q : Quality) :
  classify rtt loss total = q <-> spec_verdict loss rtt total q.
Proof.
  pose proof (band_audio_only_iff loss rtt) as B1.
  pose proof (band_low_iff loss rtt total) as B2.
  pose proof (band_medium_iff loss rtt total) as B3.
  pose proof (band_high_iff loss rtt) as B4.
  pose proof (false_iff_not _ _ B1) as N1.
  pose proof (false_iff_not _ _ B2) as N2.
  pose proof (false_iff_not _ _ B3) as N3.
  pose proof (false_iff_not _ _ B4) as N4.
  unfold classify. split.
  - intros <-.
    destruct (gtb rtt 500 || gtb loss 15) eqn:E1.
    { apply verdict_audio_only. now apply B1. }
    destruct (gtb loss 8 || gtb rtt 400 || _) eqn:E2.
    { apply verdict_low; [now apply N1 | now apply B2]. }
    destruct (gtb loss 3 || gtb rtt 200 || _) eqn:E3.
    { apply verdict_medium; [now apply N1 | now apply N2 | now apply B3]. }
    destruct (ltb loss 2 && ltb rtt 150) eqn:E4.
    { apply verdict_high; [now apply N1 | now apply N2 | now apply N3 | now apply B4]. }
    apply verdict_default; [now apply N1 | now apply N2 | now apply N3 | now apply N4].
  - intros H. inversion H; subst;
      repeat match goal with
             | K : ~ _ |- _ => first [apply N1 in K | apply N2 in K
                                      | apply N3 in K | apply N4 in K]; rewrite K
             | K : band_audio_only _ _ |- _ => apply B1 in K; rewrite K
             | K : band_low _ _ _ |- _ => apply B2 in K; rewrite K
             | K : band_medium _ _ _ |- _ => apply B3 in K; rewrite K
             | K : band_high _ _ |- _ => apply B4 in K; rewrite K
             end; reflexivity.
Qed.

(** ** What [analyzeStats] returns *)

Lemma analyzeStats_null (now : Z) (st : State) (stats : list Report.t) (peerId : string) :
  analyzeStats now st stats peerId = None <->
  p_outboundVideo (scan stats) = None /\ p_outboundAudio (scan stats) = None /\
  p_inboundVideo (scan stats) = None /\ p_inboundAudio (scan stats) = None.
Proof.
  unfold analyzeStats.
  destruct (outboundBlock now (p_outboundVideo _) _ _) as [vb vl].
  destruct (outboundBlock now (p_outboundAudio _) _ _) as [ab al].
  destruct (remoteLoss (p_remoteInboundVideo _)) as [rv hv].
  destruct (remoteLoss (p_remoteInboundAudio _)) as [ra ha].
  destruct (p_outboundVideo (scan stats)), (p_outboundAudio (scan stats)),
    (p_inboundVideo (scan stats)), (p_inboundAudio (scan stats)); simpl;
    intuition congruence.
Qed.

(** The fields of a non-null result, read off the code. *)
Lemma analyzeStats_fields (now : Z) (st : State) (stats : list Report.t)
    (peerId : string) (m : Metrics.t) :
  analyzeStats now st stats peerId = Some m ->
  Metrics.timestamp m = now /\
  Metrics.videoBitrate m =
    fst (outboundBlock now (p_outboundVideo (scan stats))
           (map_get peerId (networkStats st)) Metrics.outboundVideo) /\
  Metrics.audioBitrate m =
    fst (outboundBlock now (p_outboundAudio (scan stats))
           (map_get peerId (networkStats st)) Metrics.outboundAudio) /\
  (exists x, Metrics.videoPacketLoss m = Math_min 50 (Math_max 0 x)) /\
  (exists x, Metrics.audioPacketLoss m = Math_min 50 (Math_max 0 x)) /\
  Metrics.rtt m = pickRtt (scan stats) /\
  Metrics.quality m =
    (if initialConnectionPhase st then HIGH
     else classify (Metrics.rtt m) (linkLoss m)
            (add (Metrics.videoBitrate m) (Metrics.audioBitrate m))) /\
  Metrics.outboundVideo m = p_outboundVideo (scan stats) /\
  Metrics.outboundAudio m = p_outboundAudio (scan stats).
Proof.
  unfold analyzeStats.
  destruct (negb (is_some (p_outboundVideo (scan stats))) && _ && _ && _).
  { intros H. discriminate H. }
  destruct (outboundBlock now (p_outboundVideo _) _ _) as [vb vl].
  destruct (outboundBlock now (p_outboundAudio _) _ _) as [ab al].
  destruct (remoteLoss (p_remoteInboundVideo _)) as [rv hv].
  destruct (remoteLoss (p_remoteInboundAudio _)) as [ra ha].
  intros H. injection H as <-. unfold linkLoss. cbn.
  repeat split; eauto.
Qed.

Lemma spec_verdict_loss_compat (l l' rtt : Q) (total : num) (q : Quality) :
  l == l' -> spec_verdict l rtt total q -> spec_verdict l' rtt total q.
Proof.
  intros E H.
  assert (B1 : band_audio_only l rtt <-> band_audio_only l' rtt)
    by (unfold band_audio_only; split; intros [K | K]; solve [left; lra | right; lra]).
  assert (B2 : band_low l rtt total <-> band_low l' rtt total)
    by (unfold band_low; split; intros [K | [K | K]];
        solve [left; lra | right; left; lra | right; right; exact K]).
  assert (B3 : band_medium l rtt total <-> band_medium l' rtt total)
    by (unfold band_medium; split; intros [K | [K | K]];
        solve [left; lra | right; left; lra | right; right; exact K]).
  assert (B4 : band_high l rtt <-> band_high l' rtt)
    by (unfold band_high; split; intros [K1 K2]; split; lra).
  inversion H; subst;
    first [ solve [apply verdict_audio_only; tauto]
          | solve [apply verdict_low; tauto]
          | solve [apply verdict_medium; tauto]
          | solve [apply verdict_high; tauto]
          | solve [apply verdict_default; tauto] ].
Qed.

(** The specification's reading gives one verdict, never two. *)
Lemma spec_verdict_functional (loss rtt : Q) (total : num) (q q' : Quality) :
  spec_verdict loss rtt total q -> spec_verdict loss rtt total q' -> q = q'.
Proof.
  intros H H'. apply classify_spec in H, H'. congruence.
Qed.

Lemma spec_verdict_total (loss rtt : Q) (total : num) :
  exists q, spec_verdict loss rtt total q.
Proof. exists (classify rtt loss total). now apply classify_spec. Qed.

(** Both stored loss percentages lie in [0, 50]. *)
Lemma packet_loss_range (now : Z) (st : State) (stats : list Report.t)
    (peerId : string) (m : Metrics.t) :
  analyzeStats now st stats peerId = Some m ->
  0 <= Metrics.videoPacketLoss m <= 50 /\ 0 <= Metrics.audioPacketLoss m <= 50.
Proof.
  intros Hm.
  destruct (analyzeStats_fields _ _ _ _ _ Hm) as (_ & _ & _ & [x Hx] & [y Hy] & _).
  rewrite Hx, Hy. split; apply clamp_range.
Qed.

(** ** C1 *)

(** C1. Outside the initial connection phase, the verdict [analyzeStats]
    stores in a link's metrics is exactly the first match over the priority
    bands, evaluated on loss = max(videoPacketLoss, audioPacketLoss) and
    totalBitrate = videoBitrate + audioBitrate of those same metrics: it is
    one of the four levels and no other level satisfies the bands.  The
    counters and timestamps are arbitrary integers, so zero and negative
    deltas are included. *)
Theorem classifier_first_match (now : Z) (st : State) (stats : list Report.t)
    (peerId : string) (m : Metrics.t) :
  initialConnectionPhase st = false ->
  analyzeStats now st stats peerId = Some m ->
  forall q : Quality,
    Metrics.quality m = q <->
    spec_verdict (Qmax (Metrics.videoPacketLoss m) (Metrics.audioPacketLoss m))
                 (Metrics.rtt m)
                 (add (Metrics.videoBitrate m) (Metrics.audioBitrate m)) q.
Proof.
  intros Hphase Hm q.
  destruct (analyzeStats_fields _ _ _ _ _ Hm) as (_ & _ & _ & _ & _ & _ & Hq & _).
  rewrite Hphase in Hq. rewrite Hq, classify_spec. unfold linkLoss.
  split; apply spec_verdict_loss_compat.
  - apply Math_max_Qmax.
  - symmetry. apply Math_max_Qmax.
Qed.

(** ** Applying a quality to the senders *)

Lemma adjustVideoQuality_frame (quality : Quality) (sender : option Sender.t) (st : State) :
  let st' := adjustVideoQuality quality sender st in
  localStream st' = localStream st /\
  isCameraOff st' = isCameraOff st /\
  peerConnections st' = peerConnections st /\
  networkStats st' = networkStats st /\
  isAdaptiveMode st' = isAdaptiveMode st /\
  initialConnectionPhase st' = initialConnectionPhase st.
Proof.
  unfold adjustVideoQuality, set_trackEnabled.
  destruct sender as [s |]; [| now simpl].
  destruct (Sender.track s) as [k |]; [| now simpl].
  destruct (MediaKind_eqb k video);
    (destruct (Quality_eqb quality AUDIO_ONLY); [now simpl |]);
    (destruct (Sender.applyConstraints_throws s quality); [now simpl |]);
    (destruct (Sender.hasEncodings s); [| now simpl]);
    destruct (Sender.setParameters_throws s quality); now simpl.
Qed.

(** One call either leaves the quality variable alone or sets it to the
    requested quality. *)
Lemma adjustVideoQuality_cases (quality : Quality) (sender : option Sender.t) (st : State) :
  currentVideoQuality (adjustVideoQuality quality sender st) = currentVideoQuality st \/
  currentVideoQuality (adjustVideoQuality quality sender st) = quality.
Proof.
  unfold adjustVideoQuality, set_trackEnabled.
  destruct sender as [s |]; [| now left].
  destruct (Sender.track s) as [k |]; [| now left].
  destruct (Quality_eqb quality AUDIO_ONLY) eqn:E.
  { apply Quality_eqb_eq in E. subst. now right. }
  destruct (Sender.applyConstraints_throws s quality);
    [left; now destruct (MediaKind_eqb k video) |].
  destruct (Sender.hasEncodings s); [| now right].
  destruct (Sender.setParameters_throws s quality);
    [left; now destruct (MediaKind_eqb k video) | now right].
Qed.

Lemma adjustVideoQuality_accepted (quality : Quality) (s : Sender.t) (st : State) :
  Sender.track s <> None ->
  quality = AUDIO_ONLY \/ accepts s quality = true ->
  currentVideoQuality (adjustVideoQuality quality (Some s) st) = quality.
Proof.
  intros Ht H. unfold adjustVideoQuality, accepts in *.
  destruct (Sender.track s); [| congruence].
  destruct (Quality_eqb quality AUDIO_ONLY) eqn:E.
  { apply Quality_eqb_eq in E. subst. reflexivity. }
  destruct H as [-> | H]; [discriminate |].
  destruct (Sender.applyConstraints_throws s quality); [discriminate |].
  destruct (Sender.hasEncodings s); [| reflexivity].
  destruct (Sender.setParameters_throws s quality); [discriminate | reflexivity].
Qed.

Lemma adjustVideoQuality_rejected (quality : Quality) (s : Sender.t) (st : State) :
  quality <> AUDIO_ONLY ->
  accepts s quality = false ->
  currentVideoQuality (adjustVideoQuality quality (Some s) st) = currentVideoQuality st.
Proof.
  intros Hq H. unfold adjustVideoQuality, accepts, set_trackEnabled in *.
  destruct (Sender.track s) as [k |]; [| reflexivity].
  destruct (Quality_eqb quality AUDIO_ONLY) eqn:E.
  { apply Quality_eqb_eq in E. contradiction. }
  destruct (Sender.applyConstraints_throws s quality);
    [now destruct (MediaKind_eqb k video) |].
  destruct (Sender.hasEncodings s); [| discriminate].
  destruct (Sender.setParameters_throws s quality);
    [now destruct (MediaKind_eqb k video) | discriminate].
Qed.

(** The entry guard: without a sender, or with a sender that has no track,
    the call does nothing. *)
Lemma adjustVideoQuality_guard (quality : Quality) (s : Sender.t) (st : State) :
  adjustVideoQuality quality None st = st /\
  (Sender.track s = None -> adjustVideoQuality quality (Some s) st = st).
Proof.
  split; [reflexivity |]. intros H. unfold adjustVideoQuality. now rewrite H.
Qed.

Lemma senderLoop_cons (quality : Quality) (s : Sender.t) (l : list Sender.t) (st : State) :
  senderLoop quality (s :: l) st
  = senderLoop quality l (adjustVideoQuality quality (Some s) st).
Proof. reflexivity. Qed.

Lemma senderLoop_cases (quality : Quality) (l : list Sender.t) (st : State) :
  currentVideoQuality (senderLoop quality l st) = currentVideoQuality st \/
  currentVideoQuality (senderLoop quality l st) = quality.
Proof.
  revert st. induction l as [| s l IH]; intros st; [now left |].
  rewrite senderLoop_cons.
  destruct (IH (adjustVideoQuality quality (Some s) st)) as [H | H]; [| now right].
  rewrite H. apply adjustVideoQuality_cases.
Qed.

Lemma senderLoop_frame (quality : Quality) (l : list Sender.t) (st : State) :
  let st' := senderLoop quality l st in
  localStream st' = localStream st /\
  peerConnections st' = peerConnections st /\
  networkStats st' = networkStats st /\
  isAdaptiveMode st' = isAdaptiveMode st /\
  initialConnectionPhase st' = initialConnectionPhase st.
Proof.
  revert st. induction l as [| s l IH]; intros st; [simpl; tauto |].
  rewrite senderLoop_cons.
  destruct (IH (adjustVideoQuality quality (Some s) st)) as (H1 & H2 & H3 & H4 & H5).
  destruct (adjustVideoQuality_frame quality (Some s) st) as (F1 & _ & F3 & F4 & F5 & F6).
  simpl in *. repeat split; congruence.
Qed.

(** Once some sender with a track took the quality, the variable holds it at
    the end of the loop: a later sender either repeats the assignment or
    fails without touching it. *)
Lemma senderLoop_accepted (quality : Quality) (l : list Sender.t) (st : State) :
  (exists s, In s l /\ Sender.track s <> None /\
             (quality = AUDIO_ONLY \/ accepts s quality = true)) ->
  currentVideoQuality (senderLoop quality l st) = quality.
Proof.
  revert st. induction l as [| s l IH]; intros st [x (Hin & Ht & Hx)];
    [contradiction |].
  rewrite senderLoop_cons. destruct Hin as [-> | Hin].
  - destruct (senderLoop_cases quality l (adjustVideoQuality quality (Some x) st))
      as [H | H]; [| exact H].
    rewrite H. now apply adjustVideoQuality_accepted.
  - apply IH. exists x. tauto.
Qed.

Lemma videoSenders_track (st : State) (s : Sender.t) :
  In s (videoSenders st) -> Sender.track s = Some video.
Proof.
  unfold videoSenders. rewrite in_flat_map. intros [[id pc] [_ H]].
  unfold videoSender in H. simpl in H.
  destruct (find _ pc) as [x |] eqn:E; [| contradiction].
  destruct H as [<- | []]. apply find_some in E. destruct E as [_ E].
  destruct (Sender.track x) as [[| |] |]; simpl in E; congruence.
Qed.

Lemma adjustAll_cases (quality : Quality) (st : State) :
  currentVideoQuality (adjustVideoQualityForAllPeers quality st) = currentVideoQuality st \/
  currentVideoQuality (adjustVideoQualityForAllPeers quality st) = quality.
Proof. apply senderLoop_cases. Qed.

Lemma adjustAll_audio_only (st : State) :
  videoSenders st <> [] ->
  currentVideoQuality (adjustVideoQualityForAllPeers AUDIO_ONLY st) = AUDIO_ONLY.
Proof.
  intros H. apply senderLoop_accepted.
  destruct (videoSenders st) as [| s l] eqn:E; [congruence |].
  exists s. split; [now left |]. split; [| now left].
  rewrite (videoSenders_track st s); [discriminate | rewrite E; now left].
Qed.

Lemma adjustAll_accepted (quality : Quality) (st : State) :
  (exists s, In s (videoSenders st) /\ accepts s quality = true) ->
  currentVideoQuality (adjustVideoQualityForAllPeers quality st) = quality.
Proof.
  intros [s [Hin Hs]]. apply senderLoop_accepted.
  exists s. split; [exact Hin |]. split; [| now right].
  rewrite (videoSenders_track st s Hin). discriminate.
Qed.

Lemma adjustAll_no_sender (quality : Quality) (st : State) :
  videoSenders st = [] -> adjustVideoQualityForAllPeers quality st = st.
Proof. unfold adjustVideoQualityForAllPeers. now intros ->. Qed.

(** ** Aggregation over the peers *)

Section MaxFold.
Context {A : Type} (f : A -> Q).

Lemma max_fold_init (l : list A) (x0 : Q) :
  x0 <= fold_left (fun acc e => Math_max acc (f e)) l x0.
Proof.
  revert x0. induction l as [| e l IH]; intros x0; simpl; [lra |].
  specialize (IH (Math_max x0 (f e))). pose proof (Math_max_l x0 (f e)). lra.
Qed.

Lemma max_fold_upper (l : list A) (x0 : Q) (e : A) :
  In e l -> f e <= fold_left (fun acc e => Math_max acc (f e)) l x0.
Proof.
  revert x0. induction l as [| e' l IH]; intros x0 Hin; [contradiction |].
  simpl. destruct Hin as [-> | Hin]; [| now apply IH].
  pose proof (max_fold_init l (Math_max x0 (f e))).
  pose proof (Math_max_r x0 (f e)). lra.
Qed.

Lemma max_fold_attained (l : list A) (x0 : Q) :
  fold_left (fun acc e => Math_max acc (f e)) l x0 = x0 \/
  exists e, In e l /\ fold_left (fun acc e => Math_max acc (f e)) l x0 = f e.
Proof.
  revert x0. induction l as [| e l IH]; intros x0; simpl; [now left |].
  destruct (IH (Math_max x0 (f e))) as [H | [e' [Hin H]]].
  - rewrite H. destruct (Math_max_cases x0 (f e)) as [[_ ->] | [_ ->]].
    + right. exists e. split; [now left | reflexivity].
    + now left.
  - right. exists e'. split; [now right | exact H].
Qed.
End MaxFold.

Lemma updateWorst_rank (worst q : Quality) :
  rank (updateWorst worst q) = Nat.min (rank worst) (rank q).
Proof. destruct worst, q; reflexivity. Qed.

Lemma updateWorst_cases (worst q : Quality) :
  updateWorst worst q = worst \/ updateWorst worst q = q.
Proof. destruct worst, q; simpl; tauto. Qed.

Lemma aggregate_maxPacketLoss (l : list (string * Metrics.t)) (a : Aggregate) :
  maxPacketLoss (fold_left aggregateStep l a)
  = fold_left (fun acc e => Math_max acc (linkLoss (snd e))) l (maxPacketLoss a).
Proof. revert a. induction l as [| e l IH]; intros a; simpl; [| rewrite IH]; reflexivity. Qed.

Lemma aggregate_maxRtt (l : list (string * Metrics.t)) (a : Aggregate) :
  maxRtt (fold_left aggregateStep l a)
  = fold_left (fun acc e => Math_max acc (Metrics.rtt (snd e))) l (maxRtt a).
Proof. revert a. induction l as [| e l IH]; intros a; simpl; [| rewrite IH]; reflexivity. Qed.

Lemma aggregate_peerCount (l : list (string * Metrics.t)) (a : Aggregate) :
  peerCount (fold_left aggregateStep l a) = (peerCount a + List.length l)%nat.
Proof.
  revert a. induction l as [| e l IH]; intros a; simpl; [lia |].
  rewrite IH. simpl. lia.
Qed.

Lemma aggregate_worst_init (l : list (string * Metrics.t)) (a : Aggregate) :
  (rank (worstQuality (fold_left aggregateStep l a)) <= rank (worstQuality a))%nat.
Proof.
  revert a. induction l as [| e l IH]; intros a; simpl; [lia |].
  specialize (IH (aggregateStep a e)). simpl in IH.
  rewrite updateWorst_rank in IH. lia.
Qed.

Lemma aggregate_worst_lower (l : list (string * Metrics.t)) (a : Aggregate)
    (e : string * Metrics.t) :
  In e l ->
  (rank (worstQuality (fold_left aggregateStep l a)) <= rank (Metrics.quality (snd e)))%nat.
Proof.
  revert a. induction l as [| e' l IH]; intros a Hin; [contradiction |].
  simpl. destruct Hin as [-> | Hin]; [| now apply IH].
  pose proof (aggregate_worst_init l (aggregateStep a e)) as H.
  simpl in H. rewrite updateWorst_rank in H. lia.
Qed.

Lemma aggregate_worst_attained (l : list (string * Metrics.t)) (a : Aggregate) :
  worstQuality (fold_left aggregateStep l a) = worstQuality a \/
  exists e, In e l /\ worstQuality (fold_left aggregateStep l a) = Metrics.quality (snd e).
Proof.
  revert a. induction l as [| e l IH]; intros a; simpl; [now left |].
  destruct (IH (aggregateStep a e)) as [H | [e' [Hin H]]].
  - rewrite H. simpl.
    destruct (updateWorst_cases (worstQuality a) (Metrics.quality (snd e))) as [-> | ->].
    + now left.
    + right. exists e. split; [now left | reflexivity].
  - right. exists e'. split; [now right | exact H].
Qed.

(** ** One adaptation cycle *)

Lemma targetQuality_severe (current : Quality) (a : Aggregate) :
  worstQuality a = AUDIO_ONLY \/ maxPacketLoss a > 15 \/ maxRtt a > 3000 ->
  targetQuality current a = AUDIO_ONLY.
Proof.
  intros H. unfold targetQuality.
  replace (Quality_eqb (worstQuality a) AUDIO_ONLY || gtb (maxPacketLoss a) 15
           || gtb (maxRtt a) 3000) with true; [reflexivity |].
  symmetry. rewrite !orb_true_iff, Quality_eqb_eq, !gtb_iff. tauto.
Qed.

Lemma targetQuality_from_audio_only (a : Aggregate) :
  targetQuality AUDIO_ONLY a = AUDIO_ONLY \/
  (targetQuality AUDIO_ONLY a = LOW /\ maxPacketLoss a <= 10 /\ maxRtt a <= 1000).
Proof.
  unfold targetQuality. cbn [Quality_eqb negb andb orb].
  destruct (Quality_eqb (worstQuality a) AUDIO_ONLY || _ || _); [now left |].
  destruct (leb (maxPacketLoss a) 10) eqn:E1; cbn [andb].
  - destruct (leb (maxRtt a) 1000) eqn:E2.
    + right. apply leb_iff in E1, E2. tauto.
    + apply leb_false_iff in E2.
      destruct (Quality_eqb (worstQuality a) LOW || _); [now left |].
      destruct (Quality_eqb (worstQuality a) MEDIUM || _); [now left |].
      rewrite orb_true_r. cbn [andb].
      destruct (ltb (maxPacketLoss a) 2); [| now left]. cbn [andb].
      destruct (ltb (maxRtt a) 150) eqn:E3; [| now left].
      apply ltb_iff in E3. lra.
  - apply leb_false_iff in E1.
    destruct (Quality_eqb (worstQuality a) LOW || _); [now left |].
    destruct (Quality_eqb (worstQuality a) MEDIUM || _); [now left |].
    rewrite orb_true_r. cbn [andb].
    destruct (ltb (maxPacketLoss a) 2) eqn:E3; [| now left].
    apply ltb_iff in E3. lra.
Qed.

Lemma adaptToNetworkConditions_cases (st : State) :
  currentVideoQuality (adaptToNetworkConditions st) = currentVideoQuality st \/
  currentVideoQuality (adaptToNetworkConditions st)
  = targetQuality (currentVideoQuality st) (aggregate (networkStats st)).
Proof.
  unfold adaptToNetworkConditions.
  destruct (negb (localStream st) || negb (isAdaptiveMode st)); [now left |].
  destruct (Nat.eqb _ 0); [now left |].
  destruct (Quality_eqb _ _); [now left |].
  apply adjustAll_cases.
Qed.

Lemma adaptToNetworkConditions_runs (st : State) :
  localStream st = true -> isAdaptiveMode st = true -> networkStats st <> [] ->
  adaptToNetworkConditions st
  = (if Quality_eqb (targetQuality (currentVideoQuality st) (aggregate (networkStats st)))
                    (currentVideoQuality st)
     then st
     else adjustVideoQualityForAllPeers
            (targetQuality (currentVideoQuality st) (aggregate (networkStats st))) st).
Proof.
  intros Hs Hm Hn. unfold adaptToNetworkConditions. rewrite Hs, Hm. cbn [negb orb].
  replace (Nat.eqb (peerCount (aggregate (networkStats st))) 0) with false; [reflexivity |].
  symmetry. apply Nat.eqb_neq. unfold aggregate. rewrite aggregate_peerCount.
  destruct (networkStats st); [congruence | simpl; lia].
Qed.

Lemma adaptToNetworkConditions_off (st : State) :
  isAdaptiveMode st = false -> adaptToNetworkConditions st = st.
Proof.
  intros H. unfold adaptToNetworkConditions. rewrite H.
  now rewrite orb_true_r.
Qed.

Lemma adaptToNetworkConditions_isAdaptiveMode (st : State) :
  isAdaptiveMode (adaptToNetworkConditions st) = isAdaptiveMode st.
Proof.
  unfold adaptToNetworkConditions.
  destruct (negb (localStream st) || negb (isAdaptiveMode st)); [reflexivity |].
  destruct (Nat.eqb _ 0); [reflexivity |].
  destruct (Quality_eqb _ _); [reflexivity |].
  apply (senderLoop_frame _ (videoSenders st) st).
Qed.

Lemma endInitialPhase_frame (now : Z) (st : State) :
  currentVideoQuality (endInitialPhase now st) = currentVideoQuality st /\
  isAdaptiveMode (endInitialPhase now st) = isAdaptiveMode st /\
  peerConnections (endInitialPhase now st) = peerConnections st.
Proof.
  unfold endInitialPhase. destruct (connectionStartTime st); [| tauto].
  destruct (_ && _ && _); simpl; tauto.
Qed.

Lemma samplePeer_frame (getStats : GetStats) (st : State) (entry : string * PeerConnection) :
  currentVideoQuality (samplePeer getStats st entry) = currentVideoQuality st /\
  isAdaptiveMode (samplePeer getStats st entry) = isAdaptiveMode st /\
  initialConnectionPhase (samplePeer getStats st entry) = initialConnectionPhase st /\
  peerConnections (samplePeer getStats st entry) = peerConnections st.
Proof.
  unfold samplePeer. destruct (getStats (fst entry)) as [[now stats] |]; [| tauto].
  destruct (analyzeStats now st stats (fst entry)); simpl; tauto.
Qed.

Lemma sampling_frame (getStats : GetStats) (l : list (string * PeerConnection)) (st : State) :
  currentVideoQuality (fold_left (samplePeer getStats) l st) = currentVideoQuality st /\
  isAdaptiveMode (fold_left (samplePeer getStats) l st) = isAdaptiveMode st /\
  initialConnectionPhase (fold_left (samplePeer getStats) l st) = initialConnectionPhase st /\
  peerConnections (fold_left (samplePeer getStats) l st) = peerConnections st.
Proof.
  revert st. induction l as [| e l IH]; intros st; simpl; [tauto |].
  destruct (IH (samplePeer getStats st e)) as (H1 & H2 & H3 & H4).
  destruct (samplePeer_frame getStats st e) as (F1 & F2 & F3 & F4).
  repeat split; congruence.
Qed.

(** A tick changes the quality variable only through the adaptation step. *)
Lemma monitorNetworkQuality_quality (now : Z) (getStats : GetStats) (st : State) :
  exists st2,
    currentVideoQuality st2 = currentVideoQuality st /\
    isAdaptiveMode st2 = isAdaptiveMode st /\
    (monitorNetworkQuality now getStats st = st2 \/
     monitorNetworkQuality now getStats st = adaptToNetworkConditions st2).
Proof.
  unfold monitorNetworkQuality.
  set (st1 := endInitialPhase now st).
  set (st2 := fold_left (samplePeer getStats) (peerConnections st1) st1).
  exists st2.
  destruct (sampling_frame getStats (peerConnections st1) st1) as (H1 & H2 & _).
  destruct (endInitialPhase_frame now st) as (E1 & E2 & _).
  fold st1 in E1, E2. fold st2 in H1, H2.
  split; [congruence |]. split; [congruence |].
  destruct (networkStats st2); [now left | now right].
Qed.

Lemma monitorNetworkQuality_off (now : Z) (getStats : GetStats) (st : State) :
  isAdaptiveMode st = false ->
  currentVideoQuality (monitorNetworkQuality now getStats st) = currentVideoQuality st /\
  isAdaptiveMode (monitorNetworkQuality now getStats st) = false.
Proof.
  intros Hoff.
  destruct (monitorNetworkQuality_quality now getStats st) as (st2 & Hq & Ha & [-> | ->]).
  - split; congruence.
  - rewrite adaptToNetworkConditions_off by congruence. split; congruence.
Qed.

Lemma targetQuality_recovery (a : Aggregate) :
  worstQuality a <> AUDIO_ONLY -> maxPacketLoss a <= 10 -> maxRtt a <= 1000 ->
  targetQuality AUDIO_ONLY a = LOW.
Proof.
  intros Hw Hl Hr. unfold targetQuality. cbn [Quality_eqb negb andb orb].
  replace (Quality_eqb (worstQuality a) AUDIO_ONLY) with false
    by (symmetry; apply not_true_iff_false; rewrite Quality_eqb_eq; exact Hw).
  replace (gtb (maxPacketLoss a) 15) with false
    by (symmetry; apply gtb_false_iff; lra).
  replace (gtb (maxRtt a) 3000) with false
    by (symmetry; apply gtb_false_iff; lra).
  replace (leb (maxPacketLoss a) 10) with true by (symmetry; now apply leb_iff).
  replace (leb (maxRtt a) 1000) with true by (symmetry; now apply leb_iff).
  reflexivity.
Qed.

(** ** C3 *)

(** C3. An adaptation cycle that starts in AUDIO_ONLY never targets MEDIUM or
    HIGH: whatever the aggregated verdicts and metrics, the target is
    AUDIO_ONLY, or it is LOW and then maxLoss <= 10 and maxRtt <= 1000 (and
    it is LOW whenever those two bounds hold and no link's verdict is
    AUDIO_ONLY); at the end of the cycle, and of the whole monitoring tick
    around it, the quality is AUDIO_ONLY or LOW. *)
Theorem recovery_is_staged (st : State) (now : Z) (getStats : GetStats) :
  currentVideoQuality st = AUDIO_ONLY ->
  (forall a : Aggregate,
      targetQuality (currentVideoQuality st) a = AUDIO_ONLY \/
      (targetQuality (currentVideoQuality st) a = LOW /\
       maxPacketLoss a <= 10 /\ maxRtt a <= 1000)) /\
  (forall a : Aggregate,
      worstQuality a <> AUDIO_ONLY -> maxPacketLoss a <= 10 -> maxRtt a <= 1000 ->
      targetQuality (currentVideoQuality st) a = LOW) /\
  (currentVideoQuality (adaptToNetworkConditions st) = AUDIO_ONLY \/
   currentVideoQuality (adaptToNetworkConditions st) = LOW) /\
  (currentVideoQuality (monitorNetworkQuality now getStats st) = AUDIO_ONLY \/
   currentVideoQuality (monitorNetworkQuality now getStats st) = LOW).
Proof.
  intros Hcur.
  assert (Hadapt : forall s, currentVideoQuality s = AUDIO_ONLY ->
            currentVideoQuality (adaptToNetworkConditions s) = AUDIO_ONLY \/
            currentVideoQuality (adaptToNetworkConditions s) = LOW).
  { intros s Hs. destruct (adaptToNetworkConditions_cases s) as [H | H].
    - left. congruence.
    - rewrite H, Hs.
      destruct (targetQuality_from_audio_only (aggregate (networkStats s)))
        as [K | [K _]]; tauto. }
  split; [| split; [| split]].
  - intros a. rewrite Hcur. apply targetQuality_from_audio_only.
  - intros a. rewrite Hcur. apply targetQuality_recovery.
  - now apply Hadapt.
  - destruct (monitorNetworkQuality_quality now getStats st) as (st2 & Hq & _ & [-> | ->]).
    + left. congruence.
    + apply Hadapt. congruence.
Qed.

(** ** C4 *)

Lemma aggregate_nonempty_worst (l : list (string * Metrics.t)) :
  l <> [] ->
  exists e, In e l /\ worstQuality (aggregate l) = Metrics.quality (snd e).
Proof.
  intros Hl. unfold aggregate.
  destruct (aggregate_worst_attained l (mkAggregate (Fin 0) 0 0 0%nat HIGH))
    as [H | H]; [| exact H].
  destruct l as [| e l]; [congruence |].
  exists e. split; [now left |].
  pose proof (aggregate_worst_lower (e :: l) (mkAggregate (Fin 0) 0 0 0%nat HIGH) e
                (or_introl eq_refl)) as K.
  rewrite H in *. simpl in K |- *.
  destruct (Metrics.quality (snd e)); simpl in K; try lia. reflexivity.
Qed.

(** C4, as the code has it.  With adaptive mode on, the local stream present
    and some peer's metrics stored: maxPacketLoss and maxRtt bound every
    peer's loss and rtt and are attained by a peer (or are the accumulators'
    initial 0), worstQuality is the lowest verdict of any peer, and whenever
    worstQuality is AUDIO_ONLY or maxPacketLoss > 15 or maxRtt > 3000 the
    cycle's target is AUDIO_ONLY from any current quality; the quality is
    then AUDIO_ONLY at the end of that same cycle when at least one peer
    connection carries a video sender, and is left as it was when none
    does. *)
Theorem worst_peer_degrades (st : State) :
  localStream st = true ->
  isAdaptiveMode st = true ->
  networkStats st <> [] ->
  let a := aggregate (networkStats st) in
  (forall id m, In (id, m) (networkStats st) ->
     linkLoss m <= maxPacketLoss a /\ Metrics.rtt m <= maxRtt a /\
     (rank (worstQuality a) <= rank (Metrics.quality m))%nat) /\
  (maxPacketLoss a = 0 \/
   exists id m, In (id, m) (networkStats st) /\ maxPacketLoss a = linkLoss m) /\
  (maxRtt a = 0 \/
   exists id m, In (id, m) (networkStats st) /\ maxRtt a = Metrics.rtt m) /\
  (exists id m, In (id, m) (networkStats st) /\ worstQuality a = Metrics.quality m) /\
  (worstQuality a = AUDIO_ONLY \/ maxPacketLoss a > 15 \/ maxRtt a > 3000 ->
   targetQuality (currentVideoQuality st) a = AUDIO_ONLY /\
   (videoSenders st <> [] ->
    currentVideoQuality (adaptToNetworkConditions st) = AUDIO_ONLY) /\
   (videoSenders st = [] ->
    currentVideoQuality (adaptToNetworkConditions st) = currentVideoQuality st)).
Proof.
  intros Hstream Hmode Hstats a.
  assert (Hsevere : worstQuality a = AUDIO_ONLY \/ maxPacketLoss a > 15 \/ maxRtt a > 3000 ->
            targetQuality (currentVideoQuality st) a = AUDIO_ONLY /\
            (videoSenders st <> [] ->
             currentVideoQuality (adaptToNetworkConditions st) = AUDIO_ONLY) /\
            (videoSenders st = [] ->
             currentVideoQuality (adaptToNetworkConditions st) = currentVideoQuality st)).
  { intros H. pose proof (targetQuality_severe (currentVideoQuality st) _ H) as Ht.
    split; [exact Ht |].
    rewrite adaptToNetworkConditions_runs by assumption. fold a. rewrite Ht.
    destruct (Quality_eqb AUDIO_ONLY (currentVideoQuality st)) eqn:Q.
    - apply Quality_eqb_eq in Q. split; intros _; congruence.
    - split; intros Hs; [now apply adjustAll_audio_only |].
      now rewrite adjustAll_no_sender. }
  split; [| split; [| split; [| split]]]; [| | | | exact Hsevere];
    clear Hsevere; subst a; unfold aggregate;
    rewrite ?aggregate_maxPacketLoss, ?aggregate_maxRtt; cbn [maxPacketLoss maxRtt].
  - intros id m Hin. split; [| split].
    + now apply (max_fold_upper (fun e => linkLoss (snd e)) _ _ (id, m)).
    + now apply (max_fold_upper (fun e => Metrics.rtt (snd e)) _ _ (id, m)).
    + now apply (aggregate_worst_lower _ _ (id, m)).
  - destruct (max_fold_attained (fun e => linkLoss (snd e)) (networkStats st) 0)
      as [H | [[id m] [Hin H]]]; [now left |].
    right. exists id, m. tauto.
  - destruct (max_fold_attained (fun e => Metrics.rtt (snd e)) (networkStats st) 0)
      as [H | [[id m] [Hin H]]]; [now left |].
    right. exists id, m. tauto.
  - destruct (aggregate_nonempty_worst _ Hstats) as [[id m] [Hin H]].
    exists id, m. tauto.
Qed.

(** ** C5 *)

Lemma run_ticks_off (ticks : list Tick) (st : State) :
  isAdaptiveMode st = false ->
  currentVideoQuality (run_ticks ticks st) = currentVideoQuality st.
Proof.
  unfold run_ticks. revert st.
  induction ticks as [| t ticks IH]; intros st Hoff; simpl; [reflexivity |].
  destruct (monitorNetworkQuality_off (fst t) (snd t) st Hoff) as [Hq Ha].
  rewrite IH by exact Ha. exact Hq.
Qed.

(** C5, as the code has it.  While adaptive mode is off no sequence of
    monitoring ticks changes the quality, so HIGH stays HIGH.  Turning the
    mode off at a quality other than HIGH immediately runs
    adjustVideoQualityForAllPeers(HIGH): the quality becomes HIGH when some
    video sender accepts the HIGH constraints and parameters, it is unchanged
    when no peer connection has a video sender, and it is one of the two in
    every case; later ticks keep whatever resulted. *)
Theorem adaptive_off_holds_quality (st : State) (ticks : list Tick) :
  (isAdaptiveMode st = false ->
   currentVideoQuality (run_ticks ticks st) = currentVideoQuality st) /\
  (isAdaptiveMode st = true ->
   currentVideoQuality st <> HIGH ->
   let st' := adaptiveModeToggle_onclick st in
   isAdaptiveMode st' = false /\
   st' = adjustVideoQualityForAllPeers HIGH (set_isAdaptiveMode false st) /\
   ((exists s, In s (videoSenders st) /\ accepts s HIGH = true) ->
    currentVideoQuality st' = HIGH) /\
   (videoSenders st = [] -> currentVideoQuality st' = currentVideoQuality st) /\
   (currentVideoQuality st' = HIGH \/ currentVideoQuality st' = currentVideoQuality st) /\
   currentVideoQuality (run_ticks ticks st') = currentVideoQuality st').
Proof.
  split; [apply run_ticks_off |].
  intros Hon Hq st'.
  assert (E : st' = adjustVideoQualityForAllPeers HIGH (set_isAdaptiveMode false st)).
  { subst st'. unfold adaptiveModeToggle_onclick. rewrite Hon. cbn.
    replace (Quality_eqb (currentVideoQuality st) HIGH) with false; [reflexivity |].
    symmetry. apply not_true_iff_false. now rewrite Quality_eqb_eq. }
  assert (Hoff : isAdaptiveMode st' = false).
  { rewrite E. apply (senderLoop_frame HIGH _ (set_isAdaptiveMode false st)). }
  repeat split; try assumption.
  - intros Hs. rewrite E. now apply adjustAll_accepted.
  - intros Hn. rewrite E. now rewrite adjustAll_no_sender.
  - rewrite E.
    destruct (adjustAll_cases HIGH (set_isAdaptiveMode false st)) as [H | H];
      [right | left]; exact H.
  - now apply run_ticks_off.
Qed.

(** ** C7 *)

Lemma map_set_In {V : Type} (k : string) (v : V) (m : list (string * V)) :
  In (k, v) (map_set k v m).
Proof.
  induction m as [| [k' v'] m IH]; simpl; [now left |].
  destruct (String.eqb k k'); [now left | now right].
Qed.

Lemma outboundBlock_first (now : Z) (cur : option Report.t)
    (sel : Metrics.t -> option Report.t) :
  outboundBlock now cur None sel = (Fin 0, 0).
Proof. destruct cur; reflexivity. Qed.

(** C7, as the code has it.  [analyzeStats] reports insufficient data (null)
    exactly when the tick's reports hold none of the outbound or inbound
    audio or video RTP reports, whatever the time delta.  When no previous
    snapshot exists for the link it still returns metrics whenever one of
    those reports is present: both bitrates are 0, and the metrics with their
    verdict are stored for the link and enter the aggregation of that
    cycle. *)
Theorem insufficient_data_only_without_reports (now : Z) (st : State)
    (stats : list Report.t) (peerId : string) :
  (analyzeStats now st stats peerId = None <->
   p_outboundVideo (scan stats) = None /\ p_outboundAudio (scan stats) = None /\
   p_inboundVideo (scan stats) = None /\ p_inboundAudio (scan stats) = None) /\
  (map_get peerId (networkStats st) = None ->
   forall m, analyzeStats now st stats peerId = Some m ->
     Metrics.videoBitrate m = Fin 0 /\ Metrics.audioBitrate m = Fin 0 /\
     forall (getStats : GetStats) (pc : PeerConnection),
       getStats peerId = Some (now, stats) ->
       let st' := samplePeer getStats st (peerId, pc) in
       In (peerId, m) (networkStats st') /\
       (rank (worstQuality (aggregate (networkStats st'))) <= rank (Metrics.quality m))%nat).
Proof.
  split; [apply analyzeStats_null |].
  intros Hprev m Hm.
  destruct (analyzeStats_fields _ _ _ _ _ Hm) as (_ & Hv & Ha & _).
  rewrite Hprev, outboundBlock_first in Hv, Ha.
  split; [exact Hv |]. split; [exact Ha |].
  intros getStats pc Hget st'.
  assert (E : networkStats st' = map_set peerId m (networkStats st)).
  { subst st'. unfold samplePeer. cbn [fst]. now rewrite Hget, Hm. }
  rewrite E. split; [apply map_set_In |].
  apply (aggregate_worst_lower _ _ (peerId, m)). apply map_set_In.
Qed.

(** ** C8 *)

Lemma outboundBlock_loss_nonneg_delta (now : Z) (o po : Report.t) (prev : Metrics.t)
    (sel : Metrics.t -> option Report.t) :
  sel prev = Some po ->
  (Report.packetsSent o - Report.packetsSent po <= 0)%Z \/
  (or0 (Report.packetsLost o) - or0 (Report.packetsLost po) < 0)%Z ->
  snd (outboundBlock now (Some o) (Some prev) sel) = 0.
Proof.
  intros Hsel H. unfold outboundBlock. rewrite Hsel. cbn [snd].
  destruct (Report.packetsSent o - Report.packetsSent po >? 0)%Z eqn:E1;
    [| reflexivity].
  destruct (or0 (Report.packetsLost o) - or0 (Report.packetsLost po) >=? 0)%Z eqn:E2;
    [| reflexivity].
  apply Z.gtb_lt in E1. apply Z.geb_le in E2. lia.
Qed.

(** The bitrate the code stores: the raw counter difference over the time
    delta, for video and for audio. *)
Lemma bitrate_raw (now : Z) (st : State) (stats : list Report.t)
    (peerId : string) (m prev : Metrics.t) (o po : Report.t) :
  analyzeStats now st stats peerId = Some m ->
  map_get peerId (networkStats st) = Some prev ->
  (p_outboundVideo (scan stats) = Some o -> Metrics.outboundVideo prev = Some po ->
   Metrics.videoBitrate m
   = div (inject_Z ((Report.bytesSent o - Report.bytesSent po) * 8))
         (inject_Z (now - Metrics.timestamp prev) / 1000)) /\
  (p_outboundAudio (scan stats) = Some o -> Metrics.outboundAudio prev = Some po ->
   Metrics.audioBitrate m
   = div (inject_Z ((Report.bytesSent o - Report.bytesSent po) * 8))
         (inject_Z (now - Metrics.timestamp prev) / 1000)).
Proof.
  intros Hm Hprev.
  destruct (analyzeStats_fields _ _ _ _ _ Hm) as (_ & Hv & Ha & _).
  rewrite Hprev in Hv, Ha.
  split; intros Ho Hpo.
  - rewrite Hv, Ho. unfold outboundBlock. rewrite Hpo. reflexivity.
  - rewrite Ha, Ho. unfold outboundBlock. rewrite Hpo. reflexivity.
Qed.

Lemma spec_bitrate_monotone_counter (bytesDelta : Z) (timeDeltaSec : Q) :
  (0 <= bytesDelta)%Z ->
  spec_bitrate bytesDelta timeDeltaSec = div (inject_Z (bytesDelta * 8)) timeDeltaSec.
Proof. intros H. unfold spec_bitrate. now rewrite Z.max_r. Qed.

(** C8, as the code has it.  For video and audio independently, when the
    outbound report and the previous tick's outbound report both exist and
    the byte counter did not decrease, the stored bitrate is
    (bytesDelta * 8) / timeDeltaSec with bytesDelta the counter difference
    (its floor at 0 changes nothing then) and timeDeltaSec the timestamp
    difference in seconds.  A packet counter that did not advance, or a
    lost-packet counter that went down, gives a sender-side loss of 0 for
    that tick, and the loss stored in the metrics is never negative. *)
Theorem bitrate_from_counter_delta (now : Z) (st : State) (stats : list Report.t)
    (peerId : string) (m prev : Metrics.t) :
  analyzeStats now st stats peerId = Some m ->
  map_get peerId (networkStats st) = Some prev ->
  let timeDeltaSec := inject_Z (now - Metrics.timestamp prev) / 1000 in
  (forall o po,
     p_outboundVideo (scan stats) = Some o -> Metrics.outboundVideo prev = Some po ->
     ((Report.bytesSent po <= Report.bytesSent o)%Z ->
      Metrics.videoBitrate m
      = spec_bitrate (Report.bytesSent o - Report.bytesSent po) timeDeltaSec) /\
     ((Report.packetsSent o - Report.packetsSent po <= 0)%Z \/
      (or0 (Report.packetsLost o) - or0 (Report.packetsLost po) < 0)%Z ->
      snd (outboundBlock now (Some o) (Some prev) Metrics.outboundVideo) = 0)) /\
  (forall o po,
     p_outboundAudio (scan stats) = Some o -> Metrics.outboundAudio prev = Some po ->
     ((Report.bytesSent po <= Report.bytesSent o)%Z ->
      Metrics.audioBitrate m
      = spec_bitrate (Report.bytesSent o - Report.bytesSent po) timeDeltaSec) /\
     ((Report.packetsSent o - Report.packetsSent po <= 0)%Z \/
      (or0 (Report.packetsLost o) - or0 (Report.packetsLost po) < 0)%Z ->
      snd (outboundBlock now (Some o) (Some prev) Metrics.outboundAudio) = 0)) /\
  0 <= Metrics.videoPacketLoss m /\ 0 <= Metrics.audioPacketLoss m.
Proof.
  intros Hm Hprev dt.
  destruct (packet_loss_range _ _ _ _ _ Hm) as [[Hx _] [Hy _]].
  split; [| split; [| split]]; try assumption.
  - intros o po Ho Hpo. split.
    + intros Hmono. rewrite spec_bitrate_monotone_counter by lia.
      now apply (bitrate_raw now st stats peerId m prev o po).
    + intros K. now apply (outboundBlock_loss_nonneg_delta now o po).
  - intros o po Ho Hpo. split.
    + intros Hmono. rewrite spec_bitrate_monotone_counter by lia.
      now apply (bitrate_raw now st stats peerId m prev o po).
    + intros K. now apply (outboundBlock_loss_nonneg_delta now o po).
Qed.

(** ** C9 *)

Lemma speakerStep_taken (now : Z) (maxLevel : Q) (speakerId : option string)
    (id : string) (d : AudioLevel.t) :
  speakerStep now (maxLevel, speakerId) (id, d) = (AudioLevel.level d, Some id) /\
    qualifies now d /\ maxLevel < AudioLevel.level d
  \/
  speakerStep now (maxLevel, speakerId) (id, d) = (maxLevel, speakerId) /\
    (qualifies now d -> AudioLevel.level d <= maxLevel).
Proof.
  unfold speakerStep, qualifies.
  destruct (now - AudioLevel.timestamp d <? 2000)%Z eqn:E1; cbn [andb].
  - apply Z.ltb_lt in E1.
    destruct (gtb (AudioLevel.level d) maxLevel) eqn:E2; cbn [andb].
    + apply gtb_iff in E2.
      destruct (gtb (AudioLevel.level d) AUDIO_LEVEL_THRESHOLD) eqn:E3.
      * apply gtb_iff in E3. left. tauto.
      * apply gtb_false_iff in E3. right. split; [reflexivity |]. intros [_ K]. lra.
    + apply gtb_false_iff in E2. right. tauto.
  - apply Z.ltb_ge in E1. right. split; [reflexivity |]. intros [K _]. lia.
Qed.

Lemma speaker_inv_step (now : Z) (seen : list (string * AudioLevel.t))
    (acc : Q * option string) (e : string * AudioLevel.t) :
  speaker_inv now seen acc -> speaker_inv now (seen ++ [e]) (speakerStep now acc e).
Proof.
  destruct acc as [maxLevel speakerId], e as [id d]. intros Hinv.
  assert (Hthr : 0 < AUDIO_LEVEL_THRESHOLD) by (unfold AUDIO_LEVEL_THRESHOLD; lra).
  destruct (speakerStep_taken now maxLevel speakerId id d) as [(-> & Hq & Hlt) | (-> & Hle)];
    unfold speaker_inv in *; cbn [fst snd] in *.
  - exists d. split; [apply in_or_app; right; now left |].
    split; [exact Hq |]. split; [reflexivity |].
    intros id' d' Hin Hq'. apply in_app_or in Hin. destruct Hin as [Hin | [Heq | []]].
    + destruct speakerId as [sp |].
      * destruct Hinv as (d0 & _ & _ & _ & Hall). specialize (Hall _ _ Hin Hq'). lra.
      * destruct Hinv as [_ Hnone]. exfalso. exact (Hnone _ _ Hin Hq').
    + injection Heq as <- <-. lra.
  - destruct speakerId as [sp |].
    + destruct Hinv as (d0 & Hin0 & Hq0 & Hl0 & Hall).
      exists d0. split; [apply in_or_app; now left |].
      split; [exact Hq0 |]. split; [exact Hl0 |].
      intros id' d' Hin Hq'. apply in_app_or in Hin. destruct Hin as [Hin | [Heq | []]].
      * exact (Hall _ _ Hin Hq').
      * injection Heq as <- <-. exact (Hle Hq').
    + destruct Hinv as [Hzero Hnone]. split; [exact Hzero |].
      intros id' d' Hin Hq'. apply in_app_or in Hin. destruct Hin as [Hin | [Heq | []]].
      * exact (Hnone _ _ Hin Hq').
      * injection Heq as <- <-. specialize (Hle Hq'). destruct Hq' as [_ K].
        rewrite Hzero in Hle. lra.
Qed.

Lemma speaker_inv_fold (now : Z) (l seen : list (string * AudioLevel.t))
    (acc : Q * option string) :
  speaker_inv now seen acc ->
  speaker_inv now (seen ++ l) (fold_left (speakerStep now) l acc).
Proof.
  revert seen acc. induction l as [| e l IH]; intros seen acc Hinv; simpl.
  - now rewrite app_nil_r.
  - replace (seen ++ e :: l) with ((seen ++ [e]) ++ l)
      by (rewrite <- app_assoc; reflexivity).
    apply IH. now apply speaker_inv_step.
Qed.

Lemma option_string_eqb_eq (a b : option string) :
  option_string_eqb a b = true <-> a = b.
Proof.
  destruct a as [x |], b as [y |]; simpl; try (intuition congruence).
  rewrite String.eqb_eq. intuition congruence.
Qed.

(** What a tick with at least one tracked level leaves in [activeSpeaker]. *)
Lemma updateActiveSpeaker_result (now : Z) (st : State) :
  audioLevels st <> [] ->
  activeSpeaker (fst (updateActiveSpeaker now st))
  = snd (fold_left (speakerStep now) (audioLevels st) (0, None)) /\
  (snd (updateActiveSpeaker now st) = true <->
   activeSpeaker (fst (updateActiveSpeaker now st)) <> activeSpeaker st) /\
  (snd (updateActiveSpeaker now st) = false -> fst (updateActiveSpeaker now st) = st).
Proof.
  intros Hne. unfold updateActiveSpeaker.
  destruct (audioLevels st) as [| e l] eqn:E; [congruence |].
  destruct (fold_left (speakerStep now) (e :: l) (0, None)) as [lvl sp].
  destruct (option_string_eqb sp (activeSpeaker st)) eqn:Q; cbn [negb fst snd].
  - apply option_string_eqb_eq in Q. subst sp.
    split; [reflexivity |]. split; [| reflexivity].
    split; [discriminate | congruence].
  - assert (sp <> activeSpeaker st).
    { intros K. apply option_string_eqb_eq in K. congruence. }
    cbn. split; [reflexivity |]. split; [tauto | discriminate].
Qed.

(** C9, as the code has it.  A tick with no tracked audio level returns at
    once and keeps the previous active speaker.  A tick with at least one
    tracked level makes the active speaker a participant whose level was
    updated less than 2000 ms ago and exceeds the threshold 0.01, with the
    highest level among all such participants; it makes the active speaker
    absent exactly when no participant qualifies; and it runs the
    speaker-changed branch exactly when the new identity differs from the
    previous one (otherwise the state is untouched). *)
Theorem active_speaker_selection (now : Z) (st : State) :
  (audioLevels st = [] -> updateActiveSpeaker now st = (st, false)) /\
  (audioLevels st <> [] ->
   let st' := fst (updateActiveSpeaker now st) in
   let changed := snd (updateActiveSpeaker now st) in
   (forall id, activeSpeaker st' = Some id ->
      exists d, In (id, d) (audioLevels st) /\ qualifies now d /\
                forall id' d', In (id', d') (audioLevels st) -> qualifies now d' ->
                               AudioLevel.level d' <= AudioLevel.level d) /\
   (activeSpeaker st' = None <->
    forall id d, In (id, d) (audioLevels st) -> ~ qualifies now d) /\
   (changed = true <-> activeSpeaker st' <> activeSpeaker st) /\
   (changed = false -> st' = st)).
Proof.
  split.
  { intros E. unfold updateActiveSpeaker. now rewrite E. }
  intros Hne st' changed. subst st' changed.
  destruct (updateActiveSpeaker_result now st Hne) as (Hsp & Hch & Hsame).
  assert (Hinv : speaker_inv now (audioLevels st)
                   (fold_left (speakerStep now) (audioLevels st) (0, None))).
  { apply (speaker_inv_fold now (audioLevels st) [] (0, None)).
    unfold speaker_inv. cbn. split; [reflexivity | intros ? ? []]. }
  unfold speaker_inv in Hinv. rewrite <- Hsp in Hinv.
  split; [| split; [| split]]; try assumption.
  - intros id Hid. rewrite Hid in Hinv.
    destruct Hinv as (d & Hin & Hq & Hl & Hall).
    exists d. split; [exact Hin |]. split; [exact Hq |].
    intros id' d' Hin' Hq'. rewrite Hl. exact (Hall _ _ Hin' Hq').
  - split.
    + intros Hnone. rewrite Hnone in Hinv. exact (proj2 Hinv).
    + intros Hnone.
      destruct (activeSpeaker (fst (updateActiveSpeaker now st))) as [id |];
        [| reflexivity].
      destruct Hinv as (d & Hin & Hq & _). exfalso. exact (Hnone _ _ Hin Hq).
Qed.

(** ** C10 *)

(** C10. For a sender that carries a track (the only senders
    adjustVideoQualityForAllPeers passes), a call with a target other than
    AUDIO_ONLY whose applyConstraints or setParameters throws leaves
    currentVideoQuality at its previous value; the variable takes the target
    only when every apply step went through; and a call with target
    AUDIO_ONLY always ends with currentVideoQuality = AUDIO_ONLY, whatever
    the apply steps would do. *)
Theorem quality_assigned_after_apply (quality : Quality) (s : Sender.t) (st : State) :
  Sender.track s <> None ->
  (quality <> AUDIO_ONLY ->
   Sender.applyConstraints_throws s quality = true \/
   (Sender.hasEncodings s = true /\ Sender.setParameters_throws s quality = true) ->
   currentVideoQuality (adjustVideoQuality quality (Some s) st) = currentVideoQuality st) /\
  (quality <> AUDIO_ONLY ->
   Sender.applyConstraints_throws s quality = false ->
   (Sender.hasEncodings s = true -> Sender.setParameters_throws s quality = false) ->
   currentVideoQuality (adjustVideoQuality quality (Some s) st) = quality) /\
  currentVideoQuality (adjustVideoQuality AUDIO_ONLY (Some s) st) = AUDIO_ONLY.
Proof.
  intros Ht. split; [| split].
  - intros Hq Hthrow. apply adjustVideoQuality_rejected; [exact Hq |].
    unfold accepts. destruct Hthrow as [-> | [-> ->]]; [reflexivity |].
    now rewrite andb_false_r.
  - intros Hq Ha Hs. apply adjustVideoQuality_accepted; [exact Ht |].
    right. unfold accepts. rewrite Ha.
    destruct (Sender.hasEncodings s); [| reflexivity].
    now rewrite Hs.
  - apply adjustVideoQuality_accepted; [exact Ht | now left].
Qed.

(** * The claims on the scenarios *)

(** ** C1: a first tick with rtt 450 ms is classified LOW *)

Lemma classifier_first_match_witness :
  initialConnectionPhase st_slow = false /\
  exists m, analyzeStats 20000 st_slow stats_slow "B" = Some m /\
            Metrics.quality m = LOW /\
            spec_verdict (Qmax (Metrics.videoPacketLoss m) (Metrics.audioPacketLoss m))
                         (Metrics.rtt m)
                         (add (Metrics.videoBitrate m) (Metrics.audioBitrate m)) LOW.
Proof.
  split; [reflexivity |].
  eexists. split; [reflexivity |]. split; [reflexivity |].
  apply (classifier_first_match 20000 st_slow stats_slow "B"); reflexivity.
Defined.

(** ** C2: the initial connection phase *)

(** Inside the initial connection phase every verdict is HIGH. *)
Lemma grace_verdict_high (now : Z) (st : State) (stats : list Report.t)
    (peerId : string) (m : Metrics.t) :
  initialConnectionPhase st = true ->
  analyzeStats now st stats peerId = Some m ->
  Metrics.quality m = HIGH.
Proof.
  intros Hphase Hm.
  destruct (analyzeStats_fields _ _ _ _ _ Hm) as (_ & _ & _ & _ & _ & _ & Hq & _).
  now rewrite Hphase in Hq.
Qed.

(** C2, on the code.  Three seconds after the connection start the phase flag
    is still set and peer B's verdict is forced to HIGH, yet the measured
    loss of 20 is stored with it, exceeds the controller's own bound of 15,
    and the same tick takes the quality from HIGH to AUDIO_ONLY. *)
Theorem grace_period_still_adapts :
  let st' := monitorNetworkQuality 4000 (only "B" 4000 stats_lossy) st_grace in
  connectionStartTime st_grace = Some 1000%Z /\
  initialConnectionPhase st_grace = true /\
  initialConnectionPhase st' = true /\
  option_map Metrics.quality (map_get "B" (networkStats st')) = Some HIGH /\
  currentVideoQuality st_grace = HIGH /\
  currentVideoQuality st' = AUDIO_ONLY.
Proof. vm_compute. repeat split. Qed.

(** ** C3: loss 5 and rtt 300 recover one step, to LOW *)

Lemma recovery_is_staged_witness :
  currentVideoQuality st_recovering = AUDIO_ONLY /\
  currentVideoQuality (adaptToNetworkConditions st_recovering) = LOW /\
  (currentVideoQuality (adaptToNetworkConditions st_recovering) = AUDIO_ONLY \/
   currentVideoQuality (adaptToNetworkConditions st_recovering) = LOW).
Proof.
  split; [reflexivity |]. split; [reflexivity |].
  apply (recovery_is_staged st_recovering 20000 (only "B" 20000 stats_slow)).
  reflexivity.
Defined.

(** ** C4: one bad peer *)

(** The claim without a video sender: peer B's last metrics are still stored
    while its connection is torn down for a reconnect; the cycle targets
    AUDIO_ONLY but no sender is there to take it. *)
Lemma degradation_needs_video_sender :
  ~ (forall st : State,
       isAdaptiveMode st = true ->
       networkStats st <> [] ->
       worstQuality (aggregate (networkStats st)) = AUDIO_ONLY \/
       maxPacketLoss (aggregate (networkStats st)) > 15 \/
       maxRtt (aggregate (networkStats st)) > 3000 ->
       currentVideoQuality (adaptToNetworkConditions st) = AUDIO_ONLY).
Proof.
  intros H.
  assert (K : currentVideoQuality (adaptToNetworkConditions st_reconnecting) = AUDIO_ONLY).
  { apply H; [reflexivity | discriminate | left; reflexivity]. }
  vm_compute in K. discriminate K.
Qed.

Lemma worst_peer_degrades_witness :
  localStream st_two_peers = true /\
  isAdaptiveMode st_two_peers = true /\
  worstQuality (aggregate (networkStats st_two_peers)) = AUDIO_ONLY /\
  currentVideoQuality st_two_peers = HIGH /\
  currentVideoQuality (adaptToNetworkConditions st_two_peers) = AUDIO_ONLY.
Proof.
  repeat (split; [reflexivity |]).
  destruct (worst_peer_degrades st_two_peers eq_refl eq_refl ltac:(discriminate))
    as (_ & _ & _ & _ & Hsevere).
  destruct (Hsevere (or_introl eq_refl)) as (_ & Hsender & _).
  apply Hsender. discriminate.
Defined.

(** ** C5: switching adaptive mode off *)

(** The claim once every peer has left: the handler runs, no sender takes
    HIGH, the quality stays LOW. *)
Lemma override_needs_video_sender :
  ~ (forall st : State,
       isAdaptiveMode st = true ->
       currentVideoQuality st <> HIGH ->
       currentVideoQuality (adaptiveModeToggle_onclick st) = HIGH).
Proof.
  intros H.
  assert (K : currentVideoQuality (adaptiveModeToggle_onclick st_low_alone) = HIGH).
  { apply H; [reflexivity | discriminate]. }
  vm_compute in K. discriminate K.
Qed.

Lemma adaptive_off_holds_quality_witness :
  isAdaptiveMode st_low_call = true /\
  currentVideoQuality st_low_call = LOW /\
  currentVideoQuality (adaptiveModeToggle_onclick st_low_call) = HIGH /\
  currentVideoQuality (run_ticks ticks_bad (adaptiveModeToggle_onclick st_low_call))
  = currentVideoQuality (adaptiveModeToggle_onclick st_low_call) /\
  currentVideoQuality (run_ticks ticks_bad (set_isAdaptiveMode false st_two_peers))
  = currentVideoQuality (set_isAdaptiveMode false st_two_peers).
Proof.
  split; [reflexivity |]. split; [reflexivity |].
  destruct (adaptive_off_holds_quality st_low_call ticks_bad) as [_ H].
  destruct (H eq_refl ltac:(discriminate)) as (_ & _ & Hhigh & _ & _ & Hticks).
  split; [| split].
  - apply Hhigh. exists (plainSender video). split; [| reflexivity].
    vm_compute. left. reflexivity.
  - exact Hticks.
  - apply (proj1 (adaptive_off_holds_quality (set_isAdaptiveMode false st_two_peers)
                    ticks_bad)).
    reflexivity.
Defined.

(** ** C6: the loss percentage *)

(** C6, on the code.  The remote end's counters hold 10 packets, 2 of them
    lost: the analyzer stores a video loss of 20 (not 0), and the link is
    classified AUDIO_ONLY on that sample. *)
Theorem small_sample_loss_is_reported :
  exists m, analyzeStats 20000 st_steady stats_small_sample "B" = Some m /\
            remoteLoss (p_remoteInboundVideo (scan stats_small_sample))
            = (inject_Z 2 / inject_Z (2 + 8) * 100, true) /\
            Metrics.videoPacketLoss m == 20 /\
            Metrics.quality m = AUDIO_ONLY.
Proof.
  eexists. split; [reflexivity |]. split; [reflexivity |].
  split; [vm_compute; reflexivity | reflexivity].
Qed.

(** ** C7: first tick, and a zero time delta *)

(** The claim on a first tick, and on a tick whose clock reading equals the
    stored timestamp: metrics come back in both. *)
Lemma first_tick_is_classified :
  ~ (forall (now : Z) (st : State) (stats : list Report.t) (peerId : string),
       map_get peerId (networkStats st) = None ->
       analyzeStats now st stats peerId = None) /\
  ~ (forall (now : Z) (st : State) (stats : list Report.t) (peerId : string)
            (prev : Metrics.t),
       map_get peerId (networkStats st) = Some prev ->
       (now - Metrics.timestamp prev <= 0)%Z ->
       analyzeStats now st stats peerId = None).
Proof.
  split; intros H.
  - specialize (H 20000%Z st_slow stats_first "B" eq_refl). discriminate H.
  - specialize (H 17000%Z st_steady stats_small_sample "B" _ eq_refl).
    assert (K : (17000 - 17000 <= 0)%Z) by lia.
    specialize (H K). discriminate H.
Qed.

Lemma insufficient_data_only_without_reports_witness :
  map_get "B" (networkStats st_slow) = None /\
  exists m, analyzeStats 20000 st_slow stats_first "B" = Some m /\
            Metrics.quality m = AUDIO_ONLY /\
            Metrics.videoBitrate m = Fin 0 /\
            In ("B", m)
               (networkStats (samplePeer (only "B" 20000 stats_first) st_slow
                                         ("B", connection))) /\
            currentVideoQuality
              (monitorNetworkQuality 20000 (only "B" 20000 stats_first) st_slow)
            = AUDIO_ONLY.
Proof.
  split; [reflexivity |].
  eexists. split; [reflexivity |]. split; [reflexivity |].
  destruct (insufficient_data_only_without_reports 20000 st_slow stats_first "B")
    as [_ H].
  destruct (H eq_refl _ eq_refl) as (Hv & _ & Hstore).
  split; [exact Hv |]. split; [| reflexivity].
  apply (Hstore (only "B" 20000 stats_first) connection). reflexivity.
Defined.

(** ** C8: a byte counter that went down *)

(** The claim with the floor: the byte counter fell from 1000000 to 400000
    over 3 s and the stored bitrate is -1600000, where the floored
    difference gives 0. *)
Lemma bitrate_is_not_floored :
  ~ (forall (now : Z) (st : State) (stats : list Report.t) (peerId : string)
            (m prev : Metrics.t) (o po : Report.t),
       analyzeStats now st stats peerId = Some m ->
       map_get peerId (networkStats st) = Some prev ->
       p_outboundVideo (scan stats) = Some o ->
       Metrics.outboundVideo prev = Some po ->
       num_eq (Metrics.videoBitrate m)
              (spec_bitrate (Report.bytesSent o - Report.bytesSent po)
                            (inject_Z (now - Metrics.timestamp prev) / 1000))).
Proof.
  intros H.
  specialize (H 20000%Z st_steady stats_reset "B" _ _ _ _ eq_refl eq_refl eq_refl eq_refl).
  vm_compute in H. discriminate H.
Qed.

(** A tick of the same link where the byte counter advanced by 30000 over
    3 s: 80000 bit/s, and a packet counter that fell back gives loss 0. *)
Lemma bitrate_from_counter_delta_witness :
  exists m,
    analyzeStats 20000 st_steady stats_small_sample "B" = Some m /\
    Metrics.videoBitrate m = spec_bitrate (1030000 - 1000000) (inject_Z (20000 - 17000) / 1000) /\
    num_eq (Metrics.videoBitrate m) (Fin 80000) /\
    snd (outboundBlock 20000 (Some (outbound video 1030000 900))
           (map_get "B" (networkStats st_steady)) Metrics.outboundVideo) = 0.
Proof.
  eexists. split; [reflexivity |].
  destruct (bitrate_from_counter_delta 20000 st_steady stats_small_sample "B" _ _
              eq_refl eq_refl) as (Hvideo & _).
  destruct (Hvideo (outbound video 1030000 1010) (outbound video 1000000 1000)
              eq_refl eq_refl) as (Hrate & _).
  split; [apply Hrate; vm_compute; discriminate |].
  split; [vm_compute; reflexivity | reflexivity].
Defined.

(** ** C9: the active speaker *)

(** The claim when nothing is tracked: B was the active speaker and left, no
    participant qualifies, and B is still the active speaker after the
    tick. *)
Lemma stale_speaker_is_kept :
  ~ (forall (now : Z) (st : State),
       (forall id d, In (id, d) (audioLevels st) -> ~ qualifies now d) ->
       activeSpeaker (fst (updateActiveSpeaker now st)) = None).
Proof.
  intros H.
  assert (K : activeSpeaker (fst (updateActiveSpeaker 10000 st_speaker_left)) = None).
  { apply H. intros id d []. }
  discriminate K.
Qed.

Lemma active_speaker_selection_witness :
  audioLevels st_three_speakers <> [] /\
  activeSpeaker (fst (updateActiveSpeaker 10000 st_three_speakers)) = Some "B" /\
  snd (updateActiveSpeaker 10000 st_three_speakers) = true /\
  exists d, In ("B", d) (audioLevels st_three_speakers) /\ qualifies 10000 d /\
            forall id' d', In (id', d') (audioLevels st_three_speakers) ->
                           qualifies 10000 d' ->
                           AudioLevel.level d' <= AudioLevel.level d.
Proof.
  split; [discriminate |]. split; [reflexivity |]. split; [reflexivity |].
  destruct (active_speaker_selection 10000 st_three_speakers) as [_ H].
  destruct (H ltac:(discriminate)) as (Hmax & _).
  apply Hmax. reflexivity.
Defined.

(** ** C10: a track that rejects the constraints *)

Lemma quality_assigned_after_apply_witness :
  Sender.track rejectingSender <> None /\
  currentVideoQuality (adjustVideoQuality MEDIUM (Some rejectingSender) st_low_call) = LOW /\
  videoTrackEnabled (adjustVideoQuality MEDIUM (Some rejectingSender) st_low_call) = true /\
  currentVideoQuality (adjustVideoQuality MEDIUM (Some (plainSender video)) st_low_call)
  = MEDIUM /\
  currentVideoQuality (adjustVideoQuality AUDIO_ONLY (Some rejectingSender) st_low_call)
  = AUDIO_ONLY.
Proof.
  split; [discriminate |].
  destruct (quality_assigned_after_apply MEDIUM rejectingSender st_low_call
              ltac:(discriminate)) as (Hthrow & _ & Haudio).
  destruct (quality_assigned_after_apply MEDIUM (plainSender video) st_low_call
              ltac:(discriminate)) as (_ & Hok & _).
  split; [| split; [| split]].
  - apply Hthrow; [discriminate | left; reflexivity].
  - reflexivity.
  - apply Hok; [discriminate | reflexivity | reflexivity].
  - exact Haudio.
Defined.

(** * The signaling relay: facts *)

(** ** Maps and sets *)

Section KeyedFacts.
Context {K V : Type} (eqb : K -> K -> bool).
Hypothesis eqb_eq : forall x y, eqb x y = true <-> x = y.

Lemma eqb_refl_keyed (x : K) : eqb x x = true.
Proof. now apply eqb_eq. Qed.

Lemma eqb_neq_keyed (x y : K) : x <> y -> eqb x y = false.
Proof.
  intros H. destruct (eqb x y) eqn:E; [| reflexivity].
  apply eqb_eq in E. contradiction.
Qed.

Lemma kget_kset_same (k : K) (v : V) (m : list (K * V)) :
  Signaling.kget eqb k (Signaling.kset eqb k v m) = Some v.
Proof.
  induction m as [| [k' v'] m IH]; simpl.
  - now rewrite eqb_refl_keyed.
  - destruct (eqb k k') eqn:E; simpl; rewrite ?E, ?eqb_refl_keyed; auto.
Qed.

Lemma kget_kset_other (k k' : K) (v : V) (m : list (K * V)) :
  k' <> k ->
  Signaling.kget eqb k' (Signaling.kset eqb k v m) = Signaling.kget eqb k' m.
Proof.
  intros Hne. induction m as [| [k0 v0] m IH]; simpl.
  - now rewrite (eqb_neq_keyed k' k).
  - destruct (eqb k k0) eqn:E; simpl.
    + apply eqb_eq in E. subst k0. now rewrite (eqb_neq_keyed k' k).
    + destruct (eqb k' k0); [reflexivity | exact IH].
Qed.

Lemma kget_kdelete_same (k : K) (m : list (K * V)) :
  Signaling.kget eqb k (Signaling.kdelete eqb k m) = None.
Proof.
  unfold Signaling.kdelete. induction m as [| [k' v'] m IH]; simpl; [reflexivity |].
  destruct (eqb k k') eqn:E; simpl; [exact IH |]. now rewrite E.
Qed.

Lemma kget_kdelete_other (k k' : K) (m : list (K * V)) :
  k' <> k ->
  Signaling.kget eqb k' (Signaling.kdelete eqb k m) = Signaling.kget eqb k' m.
Proof.
  intros Hne. unfold Signaling.kdelete.
  induction m as [| [k0 v0] m IH]; simpl; [reflexivity |].
  destruct (eqb k k0) eqn:E; simpl.
  - apply eqb_eq in E. subst k0. now rewrite (eqb_neq_keyed k' k).
  - destruct (eqb k' k0); [reflexivity | exact IH].
Qed.

Lemma kget_kupdate_same (k : K) (v u : V) (m : list (K * V)) :
  Signaling.kget eqb k m = Some u ->
  Signaling.kget eqb k (Signaling.kupdate eqb k v m) = Some v.
Proof.
  intros H. unfold Signaling.kupdate. rewrite H. apply kget_kset_same.
Qed.

Lemma kget_kupdate_other (k k' : K) (v : V) (m : list (K * V)) :
  k' <> k ->
  Signaling.kget eqb k' (Signaling.kupdate eqb k v m) = Signaling.kget eqb k' m.
Proof.
  intros Hne. unfold Signaling.kupdate.
  destruct (Signaling.kget eqb k m); [now apply kget_kset_other | reflexivity].
Qed.

Lemma set_has_iff (x : K) (s : list K) : Signaling.set_has eqb x s = true <-> In x s.
Proof.
  unfold Signaling.set_has. rewrite existsb_exists. split.
  - intros [y [Hin E]]. apply eqb_eq in E. now subst.
  - intros Hin. exists x. split; [exact Hin | apply eqb_refl_keyed].
Qed.

Lemma set_add_iff (x y : K) (s : list K) :
  In y (Signaling.set_add eqb x s) <-> y = x \/ In y s.
Proof.
  unfold Signaling.set_add. destruct (Signaling.set_has eqb x s) eqn:E.
  - apply set_has_iff in E. split; [tauto | intros [-> | H]; assumption].
  - rewrite in_app_iff. simpl. intuition.
Qed.

Lemma set_add_fresh (x : K) (s : list K) :
  ~ In x s -> Signaling.set_add eqb x s = s ++ [x].
Proof.
  intros H. unfold Signaling.set_add.
  destruct (Signaling.set_has eqb x s) eqn:E; [| reflexivity].
  apply set_has_iff in E. contradiction.
Qed.

Lemma set_add_NoDup (x : K) (s : list K) : NoDup s -> NoDup (Signaling.set_add eqb x s).
Proof.
  intros H. unfold Signaling.set_add.
  destruct (Signaling.set_has eqb x s) eqn:E; [exact H |].
  assert (Hn : ~ In x s).
  { intros Hin. apply set_has_iff in Hin. congruence. }
  clear E. induction s as [| a s IH]; simpl.
  - constructor; [intros [] | constructor].
  - inversion H as [| ? ? Ha Hs]; subst. constructor.
    + rewrite in_app_iff. simpl. intros [K1 | [K1 | []]]; [contradiction |].
      subst. apply Hn. now left.
    + apply IH; [exact Hs |]. intros K1. apply Hn. now right.
Qed.

Lemma set_delete_iff (x y : K) (s : list K) :
  In y (Signaling.set_delete eqb x s) <-> In y s /\ y <> x.
Proof.
  unfold Signaling.set_delete. rewrite filter_In, negb_true_iff. split.
  - intros [Hin E]. split; [exact Hin |]. intros ->.
    now rewrite eqb_refl_keyed in E.
  - intros [Hin Hne]. split; [exact Hin |]. apply eqb_neq_keyed. congruence.
Qed.

Lemma set_delete_NoDup (x : K) (s : list K) :
  NoDup s -> NoDup (Signaling.set_delete eqb x s).
Proof. apply NoDup_filter. Qed.

Lemma set_delete_absent (x : K) (s : list K) :
  ~ In x s -> Signaling.set_delete eqb x s = s.
Proof.
  intros H. unfold Signaling.set_delete.
  induction s as [| a s IH]; simpl; [reflexivity |].
  rewrite (eqb_neq_keyed x a); simpl.
  - f_equal. apply IH. intros K1. apply H. now right.
  - intros ->. apply H. now left.
Qed.
End KeyedFacts.

(** ** Leaving and joining a room *)

Section RelayFacts.
Import Signaling.

Lemma membersOf_get (r : string) (st : Server) (c : Socket) :
  In c (membersOf r st) ->
  exists members, kget String.eqb r (rooms st) = Some members /\ In c members.
Proof.
  unfold membersOf. destruct (kget String.eqb r (rooms st)) as [m |]; [| intros []].
  intros H. now exists m.
Qed.

Lemma consistent_room_name (st : Server) (c : Socket) (u : User) (r : string) :
  consistent st -> kget Nat.eqb c (users st) = Some u -> room u = Some r ->
  truthy (room u) = Some r.
Proof.
  intros Hc Hu Hr. rewrite Hr. unfold truthy.
  destruct (membersOf_get r st c (users_are_members st Hc c u r Hu Hr)) as (m & Hm & _).
  destruct (rooms_nonempty st Hc r m Hm) as (_ & _ & Hne).
  destruct (String.eqb r "") eqn:E; [| reflexivity].
  apply String.eqb_eq in E. contradiction.
Qed.

(** A socket is listed in at most one room. *)
Lemma consistent_one_room (st : Server) (c : Socket) (r r' : string) :
  consistent st -> In c (membersOf r st) -> In c (membersOf r' st) -> r = r'.
Proof.
  intros Hc H H'.
  destruct (membersOf_get _ _ _ H) as (m & Hm & Hin).
  destruct (membersOf_get _ _ _ H') as (m' & Hm' & Hin').
  destruct (members_are_users st Hc r m c Hm Hin) as (u & Hu & Hr).
  destruct (members_are_users st Hc r' m' c Hm' Hin') as (u' & Hu' & Hr').
  congruence.
Qed.

Lemma handleLeaveRoom_outside (env : Sockets) (ws : Socket) (user : User) (st : Server) :
  room user = None -> handleLeaveRoom env ws user st = (st, []).
Proof. intros H. unfold handleLeaveRoom. now rewrite H. Qed.

(** What [handleLeaveRoom] does to a user who is in room [r]. *)
Lemma handleLeaveRoom_effect (env : Sockets) (ws : Socket) (user : User)
    (st : Server) (r : string) :
  consistent st -> kget Nat.eqb ws (users st) = Some user -> room user = Some r ->
  let st' := fst (handleLeaveRoom env ws user st) in
  let rest := set_delete Nat.eqb ws (membersOf r st) in
  kget Nat.eqb ws (users st') = Some (mkUser (id user) None) /\
  (forall c, c <> ws -> kget Nat.eqb c (users st') = kget Nat.eqb c (users st)) /\
  kget String.eqb r (rooms st')
  = match rest with [] => None | _ :: _ => Some rest end /\
  (forall r', r' <> r -> kget String.eqb r' (rooms st') = kget String.eqb r' (rooms st)) /\
  snd (handleLeaveRoom env ws user st)
  = map (fun c => (c, user_left (id user))) (filter (isOpen env) rest).
Proof.
  intros Hc Hu Hr st' rest. subst st' rest.
  unfold handleLeaveRoom. rewrite (consistent_room_name st ws user r Hc Hu Hr).
  destruct (membersOf_get r st ws (users_are_members st Hc ws user r Hu Hr))
    as (m & Hm & Hin).
  unfold membersOf. rewrite Hm. cbn [fst snd users rooms].
  split; [now apply (kget_kupdate_same Nat.eqb Nat.eqb_eq ws _ user) |].
  split; [intros c Hne; now apply (kget_kupdate_other Nat.eqb Nat.eqb_eq) |].
  split; [| split; [| reflexivity]].
  - destruct (set_delete Nat.eqb ws m) eqn:E.
    + apply (kget_kdelete_same String.eqb).
    + apply (kget_kset_same String.eqb String.eqb_eq).
  - intros r' Hne. destruct (set_delete Nat.eqb ws m) eqn:E.
    + now apply (kget_kdelete_other String.eqb String.eqb_eq).
    + now apply (kget_kset_other String.eqb String.eqb_eq).
Qed.

Lemma handleLeaveRoom_consistent (env : Sockets) (ws : Socket) (user : User) (st : Server) :
  consistent st -> kget Nat.eqb ws (users st) = Some user ->
  consistent (fst (handleLeaveRoom env ws user st)).
Proof.
  intros Hc Hu. destruct (room user) as [r |] eqn:Hr;
    [| now rewrite handleLeaveRoom_outside].
  destruct (handleLeaveRoom_effect env ws user st r Hc Hu Hr)
    as (Hws & Hother & Hroom & Hrooms & _).
  set (st' := fst (handleLeaveRoom env ws user st)) in *.
  destruct (membersOf_get r st ws (users_are_members st Hc ws user r Hu Hr))
    as (m & Hm & Hin).
  assert (Em : membersOf r st = m) by (unfold membersOf; now rewrite Hm).
  rewrite Em in Hroom.
  assert (Hnot : forall r' m' c, r' <> r -> kget String.eqb r' (rooms st) = Some m' ->
                                 In c m' -> c <> ws).
  { intros r' m' c Hne Hm' Hc' ->.
    destruct (members_are_users st Hc r' m' ws Hm' Hc') as (u & Hu' & Hr').
    congruence. }
  constructor.
  - intros r' m' Hget. destruct (String.eqb_spec r' r) as [-> | Hne].
    + rewrite Hroom in Hget. destruct (rooms_nonempty st Hc r m Hm) as (_ & Hnd & Hname).
      destruct (set_delete Nat.eqb ws m) eqn:E; [discriminate |].
      injection Hget as <-. split; [discriminate |]. split; [| exact Hname].
      rewrite <- E. now apply set_delete_NoDup.
    + rewrite (Hrooms r' Hne) in Hget. exact (rooms_nonempty st Hc r' m' Hget).
  - intros r' m' c Hget Hc'. destruct (String.eqb_spec r' r) as [-> | Hne].
    + rewrite Hroom in Hget.
      assert (Hin' : In c (set_delete Nat.eqb ws m)).
      { destruct (set_delete Nat.eqb ws m); [discriminate |]. now injection Hget as <-. }
      apply (set_delete_iff Nat.eqb Nat.eqb_eq) in Hin'. destruct Hin' as [Hcm Hcw].
      rewrite (Hother c Hcw). exact (members_are_users st Hc r m c Hm Hcm).
    + rewrite (Hrooms r' Hne) in Hget.
      rewrite (Hother c (Hnot r' m' c Hne Hget Hc')).
      exact (members_are_users st Hc r' m' c Hget Hc').
  - intros c u r' Hget Hr'. destruct (Nat.eq_dec c ws) as [-> | Hcw].
    + rewrite Hws in Hget. injection Hget as <-. discriminate Hr'.
    + rewrite (Hother c Hcw) in Hget.
      pose proof (users_are_members st Hc c u r' Hget Hr') as Hmem.
      unfold membersOf in *. destruct (String.eqb_spec r' r) as [-> | Hne].
      * rewrite Hm in Hmem. rewrite Hroom.
        assert (Hin' : In c (set_delete Nat.eqb ws m))
          by (apply (set_delete_iff Nat.eqb Nat.eqb_eq); tauto).
        destruct (set_delete Nat.eqb ws m); [contradiction | exact Hin'].
      * now rewrite (Hrooms r' Hne).
Qed.


Lemma user_eta (u : User) : mkUser (id u) (room u) = u.
Proof. now destruct u. Qed.

Lemma consistent_truthy_none (st : Server) (c : Socket) (u : User) :
  consistent st -> kget Nat.eqb c (users st) = Some u ->
  truthy (room u) = None -> room u = None.
Proof.
  intros Hc Hu Ht. destruct (room u) as [r |] eqn:Hr; [| reflexivity].
  rewrite <- Hr in Ht. rewrite (consistent_room_name st c u r Hc Hu Hr) in Ht.
  discriminate.
Qed.

(** The state in which the join proper starts: the user is in no room. *)
Lemma handleLeaveRoom_left (env : Sockets) (ws : Socket) (user : User) (st : Server) :
  consistent st -> kget Nat.eqb ws (users st) = Some user ->
  let st1 := fst (handleLeaveRoom env ws user st) in
  kget Nat.eqb ws (users st1) = Some (mkUser (id user) None) /\
  (forall c, c <> ws -> kget Nat.eqb c (users st1) = kget Nat.eqb c (users st)) /\
  (forall r, ~ In ws (membersOf r st1)).
Proof.
  intros Hc Hu st1.
  assert (H12 : kget Nat.eqb ws (users st1) = Some (mkUser (id user) None) /\
                (forall c, c <> ws -> kget Nat.eqb c (users st1) = kget Nat.eqb c (users st))).
  { subst st1. destruct (room user) as [r |] eqn:Hr.
    - destruct (handleLeaveRoom_effect env ws user st r Hc Hu Hr) as (H1 & H2 & _).
      split; assumption.
    - rewrite handleLeaveRoom_outside by exact Hr. cbn [fst].
      split; [| reflexivity]. rewrite Hu, <- Hr. now rewrite user_eta. }
  destruct H12 as [H1 H2]. split; [exact H1 |]. split; [exact H2 |].
  intros r Hin. destruct (membersOf_get _ _ _ Hin) as (m & Hm & Hin').
  pose proof (handleLeaveRoom_consistent env ws user st Hc Hu) as Hc1. fold st1 in Hc1.
  destruct (members_are_users st1 Hc1 r m ws Hm Hin') as (u & Hu' & Hr').
  rewrite H1 in Hu'. injection Hu' as <-. discriminate Hr'.
Qed.

Lemma handleJoinRoom_leaves_first (env : Sockets) (ws : Socket) (user : User) (st : Server) :
  consistent st -> kget Nat.eqb ws (users st) = Some user ->
  match truthy (room user) with
  | Some _ => handleLeaveRoom env ws user st
  | None => (st, [])
  end = handleLeaveRoom env ws user st.
Proof.
  intros Hc Hu. destruct (truthy (room user)) eqn:E; [reflexivity |].
  now rewrite handleLeaveRoom_outside by exact (consistent_truthy_none st ws user Hc Hu E).
Qed.

Lemma flat_map_ext_in {A B : Type} (f g : A -> list B) (l : list A) :
  (forall a, In a l -> f a = g a) -> flat_map f l = flat_map g l.
Proof.
  intros H. induction l as [| a l IH]; simpl; [reflexivity |].
  rewrite (H a (or_introl eq_refl)), IH; [reflexivity |].
  intros b Hb. apply H. now right.
Qed.

(** The ids of the connected users among [members], in order. *)
Lemma handleJoinRoom_effect (env : Sockets) (ws : Socket) (user : User)
    (roomId : string) (st : Server) :
  consistent st -> kget Nat.eqb ws (users st) = Some user ->
  let st1 := fst (handleLeaveRoom env ws user st) in
  let st' := fst (handleJoinRoom env ws user roomId st) in
  let before := membersOf roomId st1 in
  let others :=
    flat_map (fun c => match kget Nat.eqb c (users st) with
                       | Some u => [id u]
                       | None => []
                       end) before in
  kget Nat.eqb ws (users st') = Some (mkUser (id user) (Some roomId)) /\
  (forall c, c <> ws -> kget Nat.eqb c (users st') = kget Nat.eqb c (users st)) /\
  kget String.eqb roomId (rooms st') = Some (before ++ [ws]) /\
  (forall r', r' <> roomId ->
     kget String.eqb r' (rooms st') = kget String.eqb r' (rooms st1)) /\
  snd (handleJoinRoom env ws user roomId st)
  = snd (handleLeaveRoom env ws user st)
    ++ match send env ws (room_joined others (id user)) with
       | None => []
       | Some reply =>
           reply ++ map (fun c => (c, user_joined (id user))) (filter (isOpen env) before)
       end.
Proof.
  intros Hc Hu st1 st' before others.
  destruct (handleLeaveRoom_left env ws user st Hc Hu) as (Hws & Hother & Hout).
  fold st1 in Hws, Hother, Hout.
  assert (Hfresh : ~ In ws before) by apply Hout.
  subst st'. unfold handleJoinRoom.
  rewrite (handleJoinRoom_leaves_first env ws user st Hc Hu).
  destruct (handleLeaveRoom env ws user st) as [s1 out1] eqn:E.
  cbn [fst snd] in *. subst st1. cbv zeta.
  set (rooms1 := match kget String.eqb roomId (rooms s1) with
                 | Some _ => rooms s1
                 | None => kset String.eqb roomId [] (rooms s1)
                 end).
  match goal with
  | |- context [set_add Nat.eqb ws ?m] => assert (Hget1 : m = before)
  end.
  { subst rooms1 before. unfold membersOf.
    destruct (kget String.eqb roomId (rooms s1)) as [m |] eqn:Em.
    - now rewrite Em.
    - now rewrite (kget_kset_same String.eqb String.eqb_eq). }
  assert (Hrooms1 : forall r', r' <> roomId ->
                               kget String.eqb r' rooms1 = kget String.eqb r' (rooms s1)).
  { intros r' Hne. subst rooms1.
    destruct (kget String.eqb roomId (rooms s1)); [reflexivity |].
    now apply (kget_kset_other String.eqb String.eqb_eq). }
  rewrite Hget1. rewrite (set_add_fresh Nat.eqb Nat.eqb_eq ws before Hfresh).
  set (users2 := kupdate Nat.eqb ws (mkUser (id user) (Some roomId)) (users s1)).
  assert (Hws2 : kget Nat.eqb ws users2 = Some (mkUser (id user) (Some roomId)))
    by (apply (kget_kupdate_same Nat.eqb Nat.eqb_eq ws _ _ _ Hws)).
  assert (Hother2 : forall c, c <> ws -> kget Nat.eqb c users2 = kget Nat.eqb c (users st)).
  { intros c Hne. subst users2.
    rewrite (kget_kupdate_other Nat.eqb Nat.eqb_eq) by exact Hne. now apply Hother. }
  match goal with
  | |- context [room_joined ?o (id user)] => assert (Hothers : o = others)
  end.
  { rewrite flat_map_app. cbn [flat_map]. rewrite Nat.eqb_refl. cbn [negb].
    destruct (kget Nat.eqb ws users2); rewrite !app_nil_r;
      (subst others; apply flat_map_ext_in; intros c Hin;
       assert (Hne : c <> ws) by (intros ->; contradiction);
       rewrite (Hother2 c Hne);
       destruct (kget Nat.eqb c (users st)); [| reflexivity];
       apply Nat.eqb_neq in Hne; now rewrite Hne). }
  match goal with
  | |- context [filter ?p (before ++ [ws])] =>
      assert (Hfilter : filter p (before ++ [ws]) = filter (isOpen env) before)
  end.
  { rewrite filter_app. cbn [filter]. rewrite Nat.eqb_refl. cbn [negb andb].
    rewrite app_nil_r. apply filter_ext_in. intros c Hin.
    assert (Hne : c <> ws) by (intros ->; contradiction).
    apply Nat.eqb_neq in Hne. now rewrite Hne. }
  rewrite Hothers.
  assert (Hst : let st2 := mkServer users2 (kset String.eqb roomId (before ++ [ws]) rooms1) in
                kget Nat.eqb ws (users st2) = Some (mkUser (id user) (Some roomId)) /\
                (forall c, c <> ws -> kget Nat.eqb c (users st2) = kget Nat.eqb c (users st)) /\
                kget String.eqb roomId (rooms st2) = Some (before ++ [ws]) /\
                (forall r', r' <> roomId ->
                   kget String.eqb r' (rooms st2) = kget String.eqb r' (rooms s1))).
  { cbn [users rooms].
    split; [exact Hws2 |]. split; [exact Hother2 |]. split.
    - apply (kget_kset_same String.eqb String.eqb_eq).
    - intros r' Hne. rewrite (kget_kset_other String.eqb String.eqb_eq) by exact Hne.
      now apply Hrooms1. }
  destruct Hst as (H1 & H2 & H3 & H4).
  destruct (send env ws (room_joined others (id user))) as [reply |];
    cbn [fst snd]; repeat split; try assumption.
  - do 2 f_equal.
    exact (f_equal (map (fun c : Socket => (c, user_joined (id user)))) Hfilter).
  - now rewrite app_nil_r.
Qed.

Lemma membersOf_NoDup (r : string) (st : Server) : consistent st -> NoDup (membersOf r st).
Proof.
  intros Hc. unfold membersOf.
  destruct (kget String.eqb r (rooms st)) as [m |] eqn:E; [| constructor].
  now destruct (rooms_nonempty st Hc r m E) as (_ & H & _).
Qed.

Lemma handleJoinRoom_consistent (env : Sockets) (ws : Socket) (user : User)
    (roomId : string) (st : Server) :
  consistent st -> kget Nat.eqb ws (users st) = Some user -> roomId <> "" ->
  consistent (fst (handleJoinRoom env ws user roomId st)).
Proof.
  intros Hc Hu Hname.
  destruct (handleJoinRoom_effect env ws user roomId st Hc Hu)
    as (Hws & Hother & Hroom & Hrooms & _).
  destruct (handleLeaveRoom_left env ws user st Hc Hu) as (Hws1 & Hother1 & Hout1).
  pose proof (handleLeaveRoom_consistent env ws user st Hc Hu) as Hc1.
  set (st1 := fst (handleLeaveRoom env ws user st)) in *.
  set (st' := fst (handleJoinRoom env ws user roomId st)) in *.
  set (before := membersOf roomId st1) in *.
  assert (Hsame : forall c, c <> ws -> kget Nat.eqb c (users st') = kget Nat.eqb c (users st1)).
  { intros c Hne. rewrite (Hother c Hne). symmetry. now apply Hother1. }
  constructor.
  - intros r' m' Hget. destruct (String.eqb_spec r' roomId) as [-> | Hne].
    + rewrite Hroom in Hget. injection Hget as <-.
      split; [now destruct before |]. split; [| exact Hname].
      pose proof (set_add_NoDup Nat.eqb Nat.eqb_eq ws before
                    (membersOf_NoDup roomId st1 Hc1)) as Hnd.
      rewrite (set_add_fresh Nat.eqb Nat.eqb_eq ws before (Hout1 roomId)) in Hnd.
      exact Hnd.
    + rewrite (Hrooms r' Hne) in Hget. exact (rooms_nonempty st1 Hc1 r' m' Hget).
  - intros r' m' c Hget Hin. destruct (String.eqb_spec r' roomId) as [-> | Hne].
    + rewrite Hroom in Hget. injection Hget as <-.
      apply in_app_or in Hin. destruct Hin as [Hin | [<- | []]].
      * assert (Hcw : c <> ws) by (intros ->; exact (Hout1 roomId Hin)).
        rewrite (Hsame c Hcw).
        destruct (membersOf_get roomId st1 c Hin) as (m & Hm & Hin').
        exact (members_are_users st1 Hc1 roomId m c Hm Hin').
      * exists (mkUser (id user) (Some roomId)). split; [exact Hws | reflexivity].
    + rewrite (Hrooms r' Hne) in Hget.
      assert (Hcw : c <> ws).
      { intros ->. apply (Hout1 r'). unfold membersOf. now rewrite Hget. }
      rewrite (Hsame c Hcw). exact (members_are_users st1 Hc1 r' m' c Hget Hin).
  - intros c u r' Hget Hr'. destruct (Nat.eq_dec c ws) as [-> | Hcw].
    + rewrite Hws in Hget. injection Hget as <-. cbn in Hr'. injection Hr' as <-.
      unfold membersOf. rewrite Hroom. apply in_or_app. right. now left.
    + rewrite (Hsame c Hcw) in Hget.
      pose proof (users_are_members st1 Hc1 c u r' Hget Hr') as Hmem.
      unfold membersOf in *. destruct (String.eqb_spec r' roomId) as [-> | Hne].
      * rewrite Hroom. apply in_or_app. left. exact Hmem.
      * now rewrite (Hrooms r' Hne).
Qed.

Lemma onConnection_consistent (ws : Socket) (userId : string) (st : Server) :
  consistent st -> kget Nat.eqb ws (users st) = None ->
  consistent (onConnection ws userId st).
Proof.
  intros Hc Hfresh.
  assert (Hne : forall r m c, kget String.eqb r (rooms st) = Some m -> In c m -> c <> ws).
  { intros r m c Hm Hin ->.
    destruct (members_are_users st Hc r m ws Hm Hin) as (u & Hu & _). congruence. }
  constructor; unfold onConnection; cbn [users rooms].
  - exact (rooms_nonempty st Hc).
  - intros r m c Hm Hin.
    rewrite (kget_kset_other Nat.eqb Nat.eqb_eq) by exact (Hne r m c Hm Hin).
    exact (members_are_users st Hc r m c Hm Hin).
  - intros c u r Hget Hr. destruct (Nat.eq_dec c ws) as [-> | Hcw].
    + rewrite (kget_kset_same Nat.eqb Nat.eqb_eq) in Hget. injection Hget as <-.
      discriminate Hr.
    + rewrite (kget_kset_other Nat.eqb Nat.eqb_eq) in Hget by exact Hcw.
      exact (users_are_members st Hc c u r Hget Hr).
Qed.

Lemma onClose_effect (env : Sockets) (ws : Socket) (st : Server) (user : User) :
  kget Nat.eqb ws (users st) = Some user ->
  onClose env ws st
  = (mkServer (kdelete Nat.eqb ws (users (fst (handleLeaveRoom env ws user st))))
              (rooms (fst (handleLeaveRoom env ws user st))),
     snd (handleLeaveRoom env ws user st)).
Proof.
  intros Hu. unfold onClose. rewrite Hu.
  now destruct (handleLeaveRoom env ws user st).
Qed.

Lemma onClose_consistent (env : Sockets) (ws : Socket) (st : Server) :
  consistent st -> consistent (fst (onClose env ws st)).
Proof.
  intros Hc. destruct (kget Nat.eqb ws (users st)) as [user |] eqn:Hu.
  - rewrite (onClose_effect env ws st user Hu). cbn [fst].
    destruct (handleLeaveRoom_left env ws user st Hc Hu) as (_ & _ & Hout1).
    pose proof (handleLeaveRoom_consistent env ws user st Hc Hu) as Hc1.
    set (st1 := fst (handleLeaveRoom env ws user st)) in *.
    constructor; cbn [users rooms].
    + exact (rooms_nonempty st1 Hc1).
    + intros r m c Hm Hin.
      assert (Hcw : c <> ws).
      { intros ->. apply (Hout1 r). unfold membersOf. now rewrite Hm. }
      rewrite (kget_kdelete_other Nat.eqb Nat.eqb_eq) by exact Hcw.
      exact (members_are_users st1 Hc1 r m c Hm Hin).
    + intros c u r Hget Hr. destruct (Nat.eq_dec c ws) as [-> | Hcw].
      * now rewrite (kget_kdelete_same Nat.eqb) in Hget.
      * rewrite (kget_kdelete_other Nat.eqb Nat.eqb_eq) in Hget by exact Hcw.
        exact (users_are_members st1 Hc1 c u r Hget Hr).
  - unfold onClose. now rewrite Hu.
Qed.

Lemma truthy_nonempty (x : option string) (s : string) : truthy x = Some s -> s <> "".
Proof.
  unfold truthy. destruct x as [t |]; [| discriminate].
  destruct (String.eqb_spec t ""); [discriminate |]. now intros [= <-].
Qed.

(** The room a [join-room] message asks for. *)
Lemma requested_room_nonempty (r : option string) :
  match truthy r with Some s => s | None => "default" end <> "".
Proof.
  destruct (truthy r) eqn:E; [exact (truthy_nonempty r s E) | discriminate].
Qed.

Lemma onMessage_consistent (env : Sockets) (ws : Socket)
    (message : option ClientMessage) (st : Server) :
  consistent st -> consistent (fst (onMessage env ws message st)).
Proof.
  intros Hc. unfold onMessage.
  destruct message as [data |]; [| exact Hc].
  destruct (kget Nat.eqb ws (users st)) as [user |] eqn:Hu; [| exact Hc].
  destruct data as [r | k t b | |].
  - apply handleJoinRoom_consistent; [exact Hc | exact Hu | apply requested_room_nonempty].
  - destruct (truthy t); [| exact Hc].
    destruct (findUserByIdInRoom (room user) s st); [| exact Hc].
    now destruct (send env s0 _).
  - now apply handleLeaveRoom_consistent.
  - exact Hc.
Qed.

Lemma step_consistent (env : Sockets) (ev : Event) (st : Server) :
  consistent st -> possible st ev -> consistent (fst (step env ev st)).
Proof.
  intros Hc Hp. destruct ev as [ws userId | ws message | ws]; cbn [step fst].
  - apply onConnection_consistent; [exact Hc | exact Hp].
  - apply onMessage_consistent. exact Hc.
  - apply onClose_consistent. exact Hc.
Qed.

Lemma run_cons (env : Sockets) (ev : Event) (rest : list (Sockets * Event)) (st : Server) :
  run ((env, ev) :: rest) st
  = (fst (run rest (fst (step env ev st))),
     snd (step env ev st) ++ snd (run rest (fst (step env ev st)))).
Proof.
  simpl. destruct (step env ev st) as [st1 out1]. simpl.
  destruct (run rest st1) as [st2 out2]. reflexivity.
Qed.

Lemma run_consistent (evs : list (Sockets * Event)) (st : Server) :
  consistent st -> possible_run evs st -> consistent (fst (run evs st)).
Proof.
  revert st. induction evs as [| [env ev] rest IH]; intros st Hc Hp; [exact Hc |].
  rewrite run_cons. cbn [fst]. destruct Hp as [Hp Hrest].
  apply IH; [now apply step_consistent | exact Hrest].
Qed.

Lemma start_consistent : consistent start.
Proof. constructor; cbn; intros; discriminate. Qed.

(** After [handleLeaveRoom] every room is what it was, without [ws]. *)
Lemma handleLeaveRoom_membersOf (env : Sockets) (ws : Socket) (user : User)
    (st : Server) (r' : string) :
  consistent st -> kget Nat.eqb ws (users st) = Some user ->
  membersOf r' (fst (handleLeaveRoom env ws user st))
  = set_delete Nat.eqb ws (membersOf r' st).
Proof.
  intros Hc Hu. destruct (room user) as [r |] eqn:Hr.
  - destruct (handleLeaveRoom_effect env ws user st r Hc Hu Hr)
      as (_ & _ & Hroom & Hrooms & _).
    destruct (String.eqb_spec r' r) as [-> | Hne].
    + unfold membersOf at 1. rewrite Hroom.
      now destruct (set_delete Nat.eqb ws (membersOf r st)).
    + unfold membersOf at 1. rewrite (Hrooms r' Hne). fold (membersOf r' st).
      symmetry. apply (set_delete_absent Nat.eqb Nat.eqb_eq). intros Hin.
      apply Hne. apply (consistent_one_room st ws r' r Hc Hin).
      exact (users_are_members st Hc ws user r Hu Hr).
  - rewrite handleLeaveRoom_outside by exact Hr. cbn [fst].
    symmetry. apply (set_delete_absent Nat.eqb Nat.eqb_eq). intros Hin.
    destruct (membersOf_get _ _ _ Hin) as (m & Hm & Hin').
    destruct (members_are_users st Hc r' m ws Hm Hin') as (u & Hu' & Hr').
    congruence.
Qed.

Lemma send_open (env : Sockets) (c : Socket) (message : ServerMessage) (out : Outbox)
    (c' : Socket) (m' : ServerMessage) :
  send env c message = Some out -> In (c', m') out ->
  c' = c /\ m' = message /\ isOpen env c = true.
Proof.
  unfold send. destruct (isOpen env c) eqn:E.
  - intros [= <-] [[= <- <-] | []]. tauto.
  - destruct (sendThrows env c); [discriminate |]. now intros [= <-] [].
Qed.

Lemma handleLeaveRoom_out (env : Sockets) (ws : Socket) (user : User) (st : Server)
    (c : Socket) (m : ServerMessage) :
  In (c, m) (snd (handleLeaveRoom env ws user st)) ->
  isOpen env c = true /\ c <> ws /\ m = user_left (id user).
Proof.
  unfold handleLeaveRoom. destruct (truthy (room user)) as [r |]; [| intros []].
  destruct (kget String.eqb r (rooms st)) as [members |]; [| intros []].
  cbn [snd]. rewrite in_map_iff. intros (x & [= <- <-] & Hin).
  apply filter_In in Hin. destruct Hin as [Hin Hopen].
  apply (set_delete_iff Nat.eqb Nat.eqb_eq) in Hin. tauto.
Qed.

Lemma handleJoinRoom_out (env : Sockets) (ws : Socket) (user : User) (roomId : string)
    (st : Server) (c : Socket) (m : ServerMessage) :
  In (c, m) (snd (handleJoinRoom env ws user roomId st)) ->
  isOpen env c = true /\
  ((c <> ws /\ (m = user_left (id user) \/ m = user_joined (id user))) \/
   (c = ws /\ exists l, m = room_joined l (id user))).
Proof.
  unfold handleJoinRoom.
  assert (Hleave : forall p, In (c, m) (snd p) ->
            p = match truthy (room user) with
                | Some _ => handleLeaveRoom env ws user st
                | None => (st, [])
                end ->
            isOpen env c = true /\ c <> ws /\ m = user_left (id user)).
  { intros p Hin ->. destruct (truthy (room user)); [| destruct Hin].
    now apply (handleLeaveRoom_out env ws user st). }
  destruct (match truthy (room user) with
            | Some _ => handleLeaveRoom env ws user st
            | None => (st, [])
            end) as [st1 out1] eqn:E.
  specialize (fun H => Hleave (st1, out1) H (eq_sym E)). cbn [snd] in Hleave.
  cbv zeta.
  match goal with
  | |- context [send env ws ?msg] => destruct (send env ws msg) as [reply |] eqn:Es
  end; cbn [snd]; intros Hin.
  - apply in_app_or in Hin. destruct Hin as [Hin | Hin].
    { destruct (Hleave Hin) as (H1 & H2 & H3). split; [exact H1 |]. left. tauto. }
    apply in_app_or in Hin. destruct Hin as [Hin | Hin].
    + destruct (send_open _ _ _ _ _ _ Es Hin) as (-> & -> & Hopen).
      split; [exact Hopen |]. right. split; [reflexivity |]. eexists. reflexivity.
    + apply in_map_iff in Hin. destruct Hin as (x & [= <- <-] & Hin).
      apply filter_In in Hin. destruct Hin as [_ Hx].
      apply andb_true_iff in Hx. destruct Hx as [Hx Hopen].
      apply negb_true_iff, Nat.eqb_neq in Hx. split; [exact Hopen |]. left. tauto.
  - destruct (Hleave Hin) as (H1 & H2 & H3). split; [exact H1 |]. left. tauto.
Qed.

(** ** The relay's guarantees *)

(** X1. In every state the relay reaches from its start, by connections of
    new sockets, messages and closes in any order: no room is empty, no
    socket is listed twice or in two rooms, every listed socket is a
    connected user whose room is the one that lists it, and every user with a
    room is listed there. *)
Theorem relay_rooms_stay_consistent (evs : list (Sockets * Event)) :
  possible_run evs start ->
  let st := fst (run evs start) in
  consistent st /\
  (forall r members, kget String.eqb r (rooms st) = Some members ->
                     members <> [] /\ NoDup members) /\
  (forall c r r', In c (membersOf r st) -> In c (membersOf r' st) -> r = r') /\
  (forall c r, In c (membersOf r st) <->
               exists u, kget Nat.eqb c (users st) = Some u /\ room u = Some r).
Proof.
  intros Hp st.
  assert (Hc : consistent st) by (apply run_consistent; [apply start_consistent | exact Hp]).
  split; [exact Hc |]. split; [| split].
  - intros r m Hm. destruct (rooms_nonempty st Hc r m Hm) as (H1 & H2 & _). tauto.
  - intros c r r'. apply consistent_one_room. exact Hc.
  - intros c r. split.
    + intros Hin. destruct (membersOf_get _ _ _ Hin) as (m & Hm & Hin').
      exact (members_are_users st Hc r m c Hm Hin').
    + intros (u & Hu & Hr). exact (users_are_members st Hc c u r Hu Hr).
Qed.

(** X2. A join-room message from a connected user, in a consistent state:
    the user's room becomes the requested room ("default" when none is
    named), the socket is appended to the members found there, nobody else's
    entry changes, and what goes out is, in this order, the user-left
    notices of the room left (if any), the room-joined reply listing the ids
    of the members found, and one user-joined notice to each of them that is
    open.  When the reply's send throws, only the user-left notices went
    out. *)
Theorem relay_join_room (env : Sockets) (ws : Socket) (user : User)
    (r : option string) (st : Server) :
  consistent st ->
  kget Nat.eqb ws (users st) = Some user ->
  let roomId := match truthy r with Some s => s | None => "default" end in
  let st' := fst (onMessage env ws (Some (join_room r)) st) in
  let found := set_delete Nat.eqb ws (membersOf roomId st) in
  let ids := flat_map (fun c => match kget Nat.eqb c (users st) with
                                | Some u => [id u]
                                | None => []
                                end) found in
  kget Nat.eqb ws (users st') = Some (mkUser (id user) (Some roomId)) /\
  membersOf roomId st' = found ++ [ws] /\
  (forall c, c <> ws -> kget Nat.eqb c (users st') = kget Nat.eqb c (users st)) /\
  snd (onMessage env ws (Some (join_room r)) st)
  = snd (handleLeaveRoom env ws user st)
    ++ match send env ws (room_joined ids (id user)) with
       | None => []
       | Some reply =>
           reply ++ map (fun c => (c, user_joined (id user))) (filter (isOpen env) found)
       end.
Proof.
  intros Hc Hu roomId st' found ids.
  assert (E : onMessage env ws (Some (join_room r)) st
              = handleJoinRoom env ws user roomId st)
    by (unfold onMessage; now rewrite Hu).
  subst st'. rewrite E.
  destruct (handleJoinRoom_effect env ws user roomId st Hc Hu)
    as (Hws & Hother & Hroom & _ & Hout).
  rewrite (handleLeaveRoom_membersOf env ws user st roomId Hc Hu) in Hroom, Hout.
  fold found in Hroom, Hout. fold ids in Hout.
  split; [exact Hws |]. split; [| split; [exact Hother | exact Hout]].
  unfold membersOf. now rewrite Hroom.
Qed.

(** X3. A leave-room message from a user who is in room [r], in a consistent
    state: the socket is removed from [r] and is then in no room, the user's
    room is cleared, the room disappears exactly when nobody else was in it,
    no other room changes, each remaining open member gets one user-left
    notice and nobody else gets anything; a second leave-room changes
    nothing and sends nothing. *)
Theorem relay_leave_room (env : Sockets) (ws : Socket) (user : User)
    (r : string) (st : Server) :
  consistent st ->
  kget Nat.eqb ws (users st) = Some user ->
  room user = Some r ->
  let st' := fst (onMessage env ws (Some leave_room) st) in
  let rest := set_delete Nat.eqb ws (membersOf r st) in
  kget Nat.eqb ws (users st') = Some (mkUser (id user) None) /\
  membersOf r st' = rest /\
  (forall r', ~ In ws (membersOf r' st')) /\
  (kget String.eqb r (rooms st') = None <-> rest = []) /\
  (forall r', r' <> r -> kget String.eqb r' (rooms st') = kget String.eqb r' (rooms st)) /\
  snd (onMessage env ws (Some leave_room) st)
  = map (fun c => (c, user_left (id user))) (filter (isOpen env) rest) /\
  (forall env', onMessage env' ws (Some leave_room) st' = (st', [])).
Proof.
  intros Hc Hu Hr st' rest.
  assert (E : onMessage env ws (Some leave_room) st = handleLeaveRoom env ws user st)
    by (unfold onMessage; now rewrite Hu).
  subst st'. rewrite E.
  destruct (handleLeaveRoom_effect env ws user st r Hc Hu Hr)
    as (Hws & Hother & Hroom & Hrooms & Hout).
  destruct (handleLeaveRoom_left env ws user st Hc Hu) as (_ & _ & Hnone).
  fold rest in Hroom, Hout.
  split; [exact Hws |]. split; [| split; [exact Hnone | split; [| split; [exact Hrooms |]]]].
  - unfold membersOf. rewrite Hroom. now destruct rest.
  - rewrite Hroom. destruct rest; split; congruence.
  - split; [exact Hout |]. intros env'. unfold onMessage. rewrite Hws.
    now apply handleLeaveRoom_outside.
Qed.

(** X4. An offer, answer or candidate never changes the relay's state and
    goes to at most one socket: an open member of the sender's own room whose
    user id is the message's target, with the sender's id attached.  A
    sender outside any room, or a target that is not in the sender's room,
    gets nothing forwarded. *)
Theorem relay_forward_stays_in_room (env : Sockets) (ws : Socket) (kind : SignalKind)
    (targetId : option string) (body : string) (st : Server) :
  let data := signal kind targetId body in
  fst (onMessage env ws (Some data) st) = st /\
  (snd (onMessage env ws (Some data) st) = [] \/
   exists target sender u r,
     snd (onMessage env ws (Some data) st) = [(target, forwarded data (id sender))] /\
     kget Nat.eqb ws (users st) = Some sender /\ room sender = Some r /\
     In target (membersOf r st) /\
     kget Nat.eqb target (users st) = Some u /\ Some (id u) = targetId /\
     isOpen env target = true).
Proof.
  intros data. unfold onMessage.
  destruct (kget Nat.eqb ws (users st)) as [sender |] eqn:Hu; [| now split; [| left]].
  subst data. cbn iota.
  destruct (truthy targetId) as [t |] eqn:Et; [| now split; [| left]].
  destruct (findUserByIdInRoom (room sender) t st) as [target |] eqn:Ef;
    [| now split; [| left]].
  assert (Ht : targetId = Some t).
  { unfold truthy in Et. destruct targetId as [x |]; [| discriminate].
    destruct (String.eqb x ""); [discriminate | congruence]. }
  unfold findUserByIdInRoom in Ef.
  destruct (room sender) as [r |] eqn:Hr; [| discriminate].
  destruct (kget String.eqb r (rooms st)) as [members |] eqn:Hm; [| discriminate].
  apply find_some in Ef. destruct Ef as [Hin Hid].
  destruct (kget Nat.eqb target (users st)) as [u |] eqn:Hu'; [| discriminate].
  apply String.eqb_eq in Hid.
  unfold send. destruct (isOpen env target) eqn:Hopen.
  - split; [reflexivity |]. right. exists target, sender, u, r.
    repeat split; try assumption; try reflexivity.
    + unfold membersOf. now rewrite Hm.
    + congruence.
  - destruct (sendThrows env target); now split; [| left].
Qed.

(** X5. After a socket closes, in a consistent state: its user is forgotten,
    it is in no room, no other user's entry changed, and anything that later
    arrives on that socket - a message or another close - changes nothing and
    sends nothing. *)
Theorem relay_close_forgets (env : Sockets) (ws : Socket) (st : Server) :
  consistent st ->
  let st' := fst (onClose env ws st) in
  kget Nat.eqb ws (users st') = None /\
  (forall r, ~ In ws (membersOf r st')) /\
  (forall c, c <> ws -> kget Nat.eqb c (users st') = kget Nat.eqb c (users st)) /\
  (forall env' message, onMessage env' ws message st' = (st', [])) /\
  (forall env', onClose env' ws st' = (st', [])).
Proof.
  intros Hc st'.
  pose proof (onClose_consistent env ws st Hc) as Hc'. fold st' in Hc'.
  assert (Hgone : kget Nat.eqb ws (users st') = None).
  { subst st'. destruct (kget Nat.eqb ws (users st)) as [user |] eqn:Hu.
    - rewrite (onClose_effect env ws st user Hu). cbn [fst users].
      apply (kget_kdelete_same Nat.eqb).
    - unfold onClose. now rewrite Hu. }
  split; [exact Hgone |]. split; [| split; [| split]].
  - intros r Hin. destruct (membersOf_get _ _ _ Hin) as (m & Hm & Hin').
    destruct (members_are_users st' Hc' r m ws Hm Hin') as (u & Hu & _). congruence.
  - intros c Hne. subst st'. destruct (kget Nat.eqb ws (users st)) as [user |] eqn:Hu.
    + rewrite (onClose_effect env ws st user Hu). cbn [fst users].
      rewrite (kget_kdelete_other Nat.eqb Nat.eqb_eq) by exact Hne.
      now apply (handleLeaveRoom_left env ws user st Hc Hu).
    + unfold onClose. now rewrite Hu.
  - intros env' message. unfold onMessage. rewrite Hgone. now destruct message.
  - intros env'. unfold onClose. now rewrite Hgone.
Qed.

(** X6. Whatever the event and the state, every message the relay sends goes
    to a socket that is open at that moment; a user-joined or user-left
    notice never goes to the socket the event came from, and a room-joined
    reply goes to nobody else. *)
Theorem relay_sends_to_open_sockets (env : Sockets) (ev : Event) (st : Server)
    (c : Socket) (m : ServerMessage) :
  In (c, m) (snd (step env ev st)) ->
  isOpen env c = true /\
  (forall ws, (exists d, ev = Message ws d) \/ ev = Close ws ->
     ((exists x, m = user_joined x \/ m = user_left x) -> c <> ws) /\
     ((exists l x, m = room_joined l x) -> c = ws)).
Proof.
  intros Hin.
  assert (H : isOpen env c = true /\
              forall ws, (exists d, ev = Message ws d) \/ ev = Close ws ->
                (c <> ws /\ exists x, m = user_joined x \/ m = user_left x) \/
                (c = ws /\ exists l x, m = room_joined l x) \/
                (exists d x, m = forwarded d x)).
  { destruct ev as [ws0 userId | ws0 message | ws0]; cbn [step snd] in Hin.
    - destruct Hin.
    - unfold onMessage in Hin.
      destruct message as [data |]; [| destruct Hin].
      destruct (kget Nat.eqb ws0 (users st)) as [user |]; [| destruct Hin].
      destruct data as [r | k t b | |]; [| | | destruct Hin].
      + apply handleJoinRoom_out in Hin. destruct Hin as [Hopen Hcase].
        split; [exact Hopen |]. intros ws [[d [= <- _]] | [=]].
        destruct Hcase as [(H1 & [-> | ->]) | (-> & l & ->)].
        * left. split; [exact H1 |]. eexists. right. reflexivity.
        * left. split; [exact H1 |]. eexists. left. reflexivity.
        * right. left. split; [reflexivity |]. now exists l, (id user).
      + destruct (truthy t); [| destruct Hin].
        destruct (findUserByIdInRoom (room user) s st) as [target |]; [| destruct Hin].
        destruct (send env target _) as [out |] eqn:Es; [| destruct Hin].
        cbn [snd] in Hin. destruct (send_open _ _ _ _ _ _ Es Hin) as (-> & -> & Hopen).
        split; [exact Hopen |]. intros ws _. right. right. eexists. eexists. reflexivity.
      + apply handleLeaveRoom_out in Hin. destruct Hin as (Hopen & Hne & ->).
        split; [exact Hopen |]. intros ws [[d [= <- _]] | [=]].
        left. split; [exact Hne |]. eexists. right. reflexivity.
    - unfold onClose in Hin. destruct (kget Nat.eqb ws0 (users st)) as [user |];
        [| destruct Hin].
      destruct (handleLeaveRoom env ws0 user st) as [st1 out] eqn:E. cbn [snd] in Hin.
      assert (Hin' : In (c, m) (snd (handleLeaveRoom env ws0 user st))) by now rewrite E.
      apply handleLeaveRoom_out in Hin'. destruct Hin' as (Hopen & Hne & ->).
      split; [exact Hopen |]. intros ws [[d [=]] | [= <-]].
      left. split; [exact Hne |]. eexists. right. reflexivity. }
  destruct H as [Hopen Hcases]. split; [exact Hopen |].
  intros ws Hev. specialize (Hcases ws Hev). split.
  - intros [x Hx]. destruct Hcases as [[Hne _] | [[_ (l & y & ->)] | (d & y & ->)]];
      [exact Hne | destruct Hx; discriminate | destruct Hx; discriminate].
  - intros (l & x & ->). destruct Hcases as [[_ (y & [H | H])] | [[He _] | (d & y & H)]];
      [discriminate | discriminate | exact He | discriminate].
Qed.

(** ** The relay on a session *)

Lemma relay_session_possible : possible_run relay_session start.
Proof. vm_compute. repeat split. Qed.

Lemma relay_state_consistent : consistent relay_state.
Proof.
  apply run_consistent; [apply start_consistent | apply relay_session_possible].
Qed.

Lemma relay_rooms_stay_consistent_witness :
  possible_run relay_session start /\
  membersOf "default" (fst (run relay_session start)) = [1%nat; 2%nat] /\
  consistent (fst (run relay_session start)).
Proof.
  split; [apply relay_session_possible |]. split; [reflexivity |].
  apply (relay_rooms_stay_consistent relay_session). apply relay_session_possible.
Defined.

Lemma relay_join_room_witness :
  kget Nat.eqb 3%nat (users relay_state) = Some (mkUser "carol" None) /\
  snd (onMessage all_open 3%nat (Some (join_room (Some "default"))) relay_state)
  = [(3%nat, room_joined ["alice"; "bob"] "carol");
     (1%nat, user_joined "carol"); (2%nat, user_joined "carol")] /\
  membersOf "default"
    (fst (onMessage all_open 3%nat (Some (join_room (Some "default"))) relay_state))
  = set_delete Nat.eqb 3%nat (membersOf "default" relay_state) ++ [3%nat].
Proof.
  split; [reflexivity |]. split; [reflexivity |].
  apply (relay_join_room all_open 3%nat (mkUser "carol" None) (Some "default") relay_state).
  - apply relay_state_consistent.
  - reflexivity.
Defined.

Lemma relay_leave_room_witness :
  kget Nat.eqb 1%nat (users relay_state) = Some (mkUser "alice" (Some "default")) /\
  snd (onMessage all_open 1%nat (Some leave_room) relay_state)
  = [(2%nat, user_left "alice")] /\
  membersOf "default" (fst (onMessage all_open 1%nat (Some leave_room) relay_state))
  = set_delete Nat.eqb 1%nat (membersOf "default" relay_state).
Proof.
  split; [reflexivity |]. split; [reflexivity |].
  apply (relay_leave_room all_open 1%nat (mkUser "alice" (Some "default")) "default"
           relay_state).
  - apply relay_state_consistent.
  - reflexivity.
  - reflexivity.
Defined.

Lemma relay_close_forgets_witness :
  snd (onClose all_open 2%nat relay_state) = [(1%nat, user_left "bob")] /\
  kget Nat.eqb 2%nat (users (fst (onClose all_open 2%nat relay_state))) = None.
Proof.
  split; [reflexivity |].
  apply (relay_close_forgets all_open 2%nat relay_state). apply relay_state_consistent.
Defined.

Lemma relay_sends_to_open_sockets_witness :
  In (2%nat, user_left "alice")
     (snd (step all_open (Message 1%nat (Some leave_room)) relay_state)) /\
  isOpen all_open 2%nat = true.
Proof.
  assert (H : In (2%nat, user_left "alice")
                 (snd (step all_open (Message 1%nat (Some leave_room)) relay_state)))
    by (vm_compute; left; reflexivity).
  split; [exact H |].
  apply (relay_sends_to_open_sockets all_open (Message 1%nat (Some leave_room))
           relay_state 2%nat (user_left "alice") H).
Defined.

End RelayFacts.

(** * The rest of the client script: facts *)

(** ** Maps *)

Lemma map_get_map_set_same {V : Type} (k : string) (v : V) (m : list (string * V)) :
  map_get k (map_set k v m) = Some v.
Proof.
  induction m as [| [k' v'] m IH]; simpl.
  - now rewrite String.eqb_refl.
  - destruct (String.eqb k k') eqn:E; simpl.
    + now rewrite String.eqb_refl.
    + now rewrite E.
Qed.

Lemma map_get_map_set_other {V : Type} (k k' : string) (v : V) (m : list (string * V)) :
  k <> k' -> map_get k' (map_set k v m) = map_get k' m.
Proof.
  intros Hne. induction m as [| [k0 v0] m IH]; simpl.
  - apply not_eq_sym in Hne. apply String.eqb_neq in Hne. now rewrite Hne.
  - destruct (String.eqb k k0) eqn:E; simpl.
    + apply String.eqb_eq in E. subst k0.
      apply not_eq_sym in Hne. apply String.eqb_neq in Hne. now rewrite Hne.
    + destruct (String.eqb k' k0); [reflexivity | exact IH].
Qed.





Lemma map_get_In {V : Type} (k : string) (v : V) (m : list (string * V)) :
  NoDup (map_keys m) -> In (k, v) m -> map_get k m = Some v.
Proof.
  unfold map_keys. induction m as [| [k0 v0] m IH]; simpl; [tauto |].
  intros Hnd [H | H].
  - inversion H. subst. now rewrite String.eqb_refl.
  - inversion Hnd as [| ? ? Hnot Hnd']. subst.
    destruct (String.eqb k k0) eqn:E.
    + apply String.eqb_eq in E. subst k0. exfalso. apply Hnot.
      apply in_map_iff. now exists (k, v).
    + now apply IH.
Qed.

Lemma map_keys_map_set {V : Type} (k : string) (v : V) (m : list (string * V)) :
  NoDup (map_keys m) -> NoDup (map_keys (map_set k v m)) /\
  forall x, In x (map_keys (map_set k v m)) <-> x = k \/ In x (map_keys m).
Proof.
  unfold map_keys. induction m as [| [k0 v0] m IH]; simpl; intros Hnd.
  - split; [constructor; [tauto | constructor] | intros x; intuition congruence].
  - inversion Hnd as [| ? ? Hnot Hnd']. subst.
    destruct (String.eqb k k0) eqn:E; simpl.
    + apply String.eqb_eq in E. subst k0.
      split; [now constructor | intros x; intuition congruence].
    + destruct (IH Hnd') as [IH1 IH2]. apply String.eqb_neq in E. split.
      * constructor; [| exact IH1]. rewrite IH2. intros [H | H]; [congruence | tauto].
      * intros x. rewrite IH2. intuition congruence.
Qed.

(** ** The camera setting *)

(** On a sender that carries the video track, one call writes the track's
    flag: off for AUDIO_ONLY, else the opposite of the camera-off setting;
    the setting itself is never written. *)
Lemma adjustVideoQuality_track (quality : Quality) (s : Sender.t) (st : State) :
  Sender.track s = Some video ->
  isCameraOff (adjustVideoQuality quality (Some s) st) = isCameraOff st /\
  videoTrackEnabled (adjustVideoQuality quality (Some s) st)
  = negb (Quality_eqb quality AUDIO_ONLY) && negb (isCameraOff st).
Proof.
  intros Ht. unfold adjustVideoQuality, set_trackEnabled. rewrite Ht. cbn [MediaKind_eqb].
  destruct (Quality_eqb quality AUDIO_ONLY); [now simpl |].
  destruct (Sender.applyConstraints_throws s quality); [now simpl |].
  destruct (Sender.hasEncodings s); [| now simpl].
  destruct (Sender.setParameters_throws s quality); now simpl.
Qed.

Lemma senderLoop_track (quality : Quality) (l : list Sender.t) (st : State) :
  (forall s, In s l -> Sender.track s = Some video) ->
  isCameraOff (senderLoop quality l st) = isCameraOff st /\
  videoTrackEnabled (senderLoop quality l st)
  = match l with
    | [] => videoTrackEnabled st
    | _ :: _ => negb (Quality_eqb quality AUDIO_ONLY) && negb (isCameraOff st)
    end.
Proof.
  revert st. induction l as [| s l IH]; intros st Hall; [now simpl |].
  rewrite senderLoop_cons.
  destruct (adjustVideoQuality_track quality s st (Hall s (or_introl eq_refl))) as [Hc He].
  destruct (IH (adjustVideoQuality quality (Some s) st)) as [Hc' He'].
  { intros x Hx. apply Hall. now right. }
  split; [congruence |]. rewrite He'. destruct l; [exact He | now rewrite Hc].
Qed.

Lemma adjustAll_track (quality : Quality) (st : State) :
  isCameraOff (adjustVideoQualityForAllPeers quality st) = isCameraOff st /\
  videoTrackEnabled (adjustVideoQualityForAllPeers quality st)
  = match videoSenders st with
    | [] => videoTrackEnabled st
    | _ :: _ => negb (Quality_eqb quality AUDIO_ONLY) && negb (isCameraOff st)
    end.
Proof. apply senderLoop_track. apply videoSenders_track. Qed.

Lemma adjustAll_respects_camera (quality : Quality) (st : State) :
  (isCameraOff st = true -> videoTrackEnabled st = false) ->
  isCameraOff (adjustVideoQualityForAllPeers quality st) = true ->
  videoTrackEnabled (adjustVideoQualityForAllPeers quality st) = false.
Proof.
  intros Hinv. destruct (adjustAll_track quality st) as [Hc He].
  rewrite Hc, He. intros Hoff.
  destruct (videoSenders st); [now apply Hinv |].
  rewrite Hoff. apply andb_false_r.
Qed.

Lemma adaptToNetworkConditions_respects_camera (st : State) :
  (isCameraOff st = true -> videoTrackEnabled st = false) ->
  isCameraOff (adaptToNetworkConditions st) = true ->
  videoTrackEnabled (adaptToNetworkConditions st) = false.
Proof.
  intros Hinv. unfold adaptToNetworkConditions.
  destruct (negb (localStream st) || negb (isAdaptiveMode st)); [exact Hinv |].
  destruct (Nat.eqb _ 0); [exact Hinv |].
  destruct (Quality_eqb _ _); [exact Hinv |].
  now apply adjustAll_respects_camera.
Qed.

Lemma samplePeer_camera (getStats : GetStats) (st : State) (entry : string * PeerConnection) :
  isCameraOff (samplePeer getStats st entry) = isCameraOff st /\
  videoTrackEnabled (samplePeer getStats st entry) = videoTrackEnabled st.
Proof.
  unfold samplePeer. destruct (getStats (fst entry)) as [[now stats] |]; [| tauto].
  destruct (analyzeStats now st stats (fst entry)); simpl; tauto.
Qed.

Lemma sampling_camera (getStats : GetStats) (l : list (string * PeerConnection)) (st : State) :
  isCameraOff (fold_left (samplePeer getStats) l st) = isCameraOff st /\
  videoTrackEnabled (fold_left (samplePeer getStats) l st) = videoTrackEnabled st.
Proof.
  revert st. induction l as [| e l IH]; intros st; simpl; [tauto |].
  destruct (IH (samplePeer getStats st e)) as [H1 H2].
  destruct (samplePeer_camera getStats st e) as [F1 F2].
  split; congruence.
Qed.

Lemma endInitialPhase_camera (now : Z) (st : State) :
  isCameraOff (endInitialPhase now st) = isCameraOff st /\
  videoTrackEnabled (endInitialPhase now st) = videoTrackEnabled st.
Proof.
  unfold endInitialPhase. destruct (connectionStartTime st); [| tauto].
  destruct (_ && _ && _); simpl; tauto.
Qed.

Lemma monitorNetworkQuality_respects_camera (now : Z) (getStats : GetStats) (st : State) :
  (isCameraOff st = true -> videoTrackEnabled st = false) ->
  isCameraOff (monitorNetworkQuality now getStats st) = true ->
  videoTrackEnabled (monitorNetworkQuality now getStats st) = false.
Proof.
  intros Hinv. unfold monitorNetworkQuality.
  set (st1 := endInitialPhase now st).
  set (st2 := fold_left (samplePeer getStats) (peerConnections st1) st1).
  assert (H2 : isCameraOff st2 = true -> videoTrackEnabled st2 = false).
  { destruct (sampling_camera getStats (peerConnections st1) st1) as [A B].
    destruct (endInitialPhase_camera now st) as [C D].
    fold st1 in C, D. fold st2 in A, B. rewrite A, B, C, D. exact Hinv. }
  destruct (networkStats st2); [exact H2 |].
  now apply adaptToNetworkConditions_respects_camera.
Qed.

Lemma updateActiveSpeaker_frame (now : Z) (st : State) :
  let st' := fst (updateActiveSpeaker now st) in
  localStream st' = localStream st /\
  isCameraOff st' = isCameraOff st /\
  videoTrackEnabled st' = videoTrackEnabled st /\
  peerConnections st' = peerConnections st /\
  networkStats st' = networkStats st /\
  currentVideoQuality st' = currentVideoQuality st /\
  isAdaptiveMode st' = isAdaptiveMode st /\
  initialConnectionPhase st' = initialConnectionPhase st /\
  connectionStartTime st' = connectionStartTime st /\
  audioLevels st' = audioLevels st.
Proof.
  unfold updateActiveSpeaker. destruct (audioLevels st) eqn:E; [simpl; tauto |].
  destruct (fold_left _ _ _) as [lvl sp].
  destruct (negb _); simpl; rewrite ?E; tauto.
Qed.

Lemma handle_respects_camera (ev : ClientEvent) (st : State) :
  (isCameraOff st = true -> videoTrackEnabled st = false) ->
  isCameraOff (handle ev st) = true -> videoTrackEnabled (handle ev st) = false.
Proof.
  intros Hinv. destruct ev as [now gs | now | now id data | | hasVideoTrack | known userId];
    cbn [handle].
  - now apply monitorNetworkQuality_respects_camera.
  - destruct (updateActiveSpeaker_frame now st) as (_ & A & B & _).
    rewrite A, B. exact Hinv.
  - exact Hinv.
  - unfold adaptiveModeToggle_onclick.
    destruct (_ && _); [| exact Hinv].
    apply adjustAll_respects_camera. exact Hinv.
  - unfold cameraBtn_onclick. destruct (localStream st && hasVideoTrack); [| exact Hinv].
    simpl. intros ->. reflexivity.
  - unfold onUserLeft, Participant_remove. destruct known; exact Hinv.
Qed.

(** X7.  The controller respects the user's camera setting.  If the video
    track is disabled whenever the camera is switched off, then after any
    sequence of events of a call, each handled to completion (monitoring
    ticks with any telemetry, speaker ticks, audio frames, clicks on the
    adaptive-mode and camera buttons, departures of peers) the same holds:
    with the camera switched off the video track is never enabled, whatever
    quality the controller goes to. *)
Theorem camera_off_keeps_track_disabled (evs : list ClientEvent) (st : State) :
  (isCameraOff st = true -> videoTrackEnabled st = false) ->
  isCameraOff (handle_all evs st) = true ->
  videoTrackEnabled (handle_all evs st) = false.
Proof.
  unfold handle_all. revert st.
  induction evs as [| ev evs IH]; intros st Hinv; simpl; [exact Hinv |].
  apply IH. now apply handle_respects_camera.
Qed.

(** X8.  A cycle that changes the quality leaves the video track in the
    matching state: disabled when the new quality is AUDIO_ONLY, and
    otherwise enabled exactly when the camera is not switched off. *)
Theorem quality_change_sets_track (st : State) :
  currentVideoQuality (adaptToNetworkConditions st) <> currentVideoQuality st ->
  videoTrackEnabled (adaptToNetworkConditions st)
  = negb (Quality_eqb (currentVideoQuality (adaptToNetworkConditions st)) AUDIO_ONLY)
    && negb (isCameraOff st).
Proof.
  unfold adaptToNetworkConditions.
  destruct (negb (localStream st) || negb (isAdaptiveMode st)); [congruence |].
  destruct (Nat.eqb _ 0); [congruence |].
  set (target := targetQuality _ _).
  destruct (Quality_eqb target (currentVideoQuality st)); [congruence |].
  intros Hch.
  destruct (adjustAll_cases target st) as [H | H]; [congruence |].
  rewrite H. destruct (adjustAll_track target st) as [_ He]. rewrite He.
  destruct (videoSenders st) eqn:E; [| reflexivity].
  rewrite adjustAll_no_sender in Hch by exact E. congruence.
Qed.

(** ** The indicator panel *)






(** ** The audio level of a participant *)

Lemma sumBytes_from (l : list Byte.byte) (z : Z) :
  fold_left (fun sum b => (sum + Z.of_N (Byte.to_N b))%Z) l z = (z + sumBytes l)%Z.
Proof.
  unfold sumBytes. revert z. induction l as [| b l IH]; intros z; simpl; [lia |].
  rewrite IH, (IH (Z.of_N (Byte.to_N b))). lia.
Qed.

Lemma sumBytes_cons (b : Byte.byte) (l : list Byte.byte) :
  sumBytes (b :: l) = (Z.of_N (Byte.to_N b) + sumBytes l)%Z.
Proof. unfold sumBytes at 1. simpl. apply sumBytes_from. Qed.

Lemma sumBytes_range (l : list Byte.byte) :
  (0 <= sumBytes l <= 255 * Z.of_nat (List.length l))%Z.
Proof.
  induction l as [| b l IH]; [unfold sumBytes; simpl; lia |].
  rewrite sumBytes_cons. pose proof (Byte.to_N_bounded b).
  change (List.length (b :: l)) with (S (List.length l)). lia.
Qed.

(** The stored level times 255 times the number of bins is the byte sum. *)
Lemma audioLevel_scaled (dataArray : list Byte.byte) :
  dataArray <> [] ->
  audioLevel dataArray * inject_Z (255 * Z.of_nat (List.length dataArray))
  == inject_Z (sumBytes dataArray).
Proof.
  intros Hne. unfold audioLevel. rewrite inject_Z_mult.
  change (inject_Z 255) with 255. field.
  intros H. change 0 with (inject_Z 0) in H. apply inject_Z_injective in H.
  destruct dataArray; [congruence | discriminate H].
Qed.

(** The entry one frame stores. *)
Lemma updateLevel_entry (now : Z) (id : string) (dataArray : list Byte.byte)
    (st : State) :
  dataArray <> [] ->
  exists d, map_get id (audioLevels (updateLevel now id dataArray st)) = Some d /\
            AudioLevel.timestamp d = now /\
            0 <= AudioLevel.level d <= 1 /\
            (AUDIO_LEVEL_THRESHOLD < AudioLevel.level d <->
             (255 * Z.of_nat (List.length dataArray) < 100 * sumBytes dataArray)%Z).
Proof.
  intros Hne. unfold updateLevel. cbn [audioLevels set_audioLevels].
  exists (AudioLevel.mk (audioLevel dataArray) now).
  split; [apply map_get_map_set_same |]. split; [reflexivity |].
  cbn [AudioLevel.level].
  pose proof (audioLevel_scaled dataArray Hne) as Hs.
  pose proof (sumBytes_range dataArray) as [Hlo Hhi].
  set (n := (255 * Z.of_nat (List.length dataArray))%Z) in *.
  assert (Hn : (0 < n)%Z) by (subst n; destruct dataArray; [congruence | simpl; lia]).
  assert (Hq : 0 < inject_Z n) by (change 0 with (inject_Z 0); now rewrite <- Zlt_Qlt).
  assert (Hs0 : 0 <= inject_Z (sumBytes dataArray))
    by (change 0 with (inject_Z 0); now rewrite <- Zle_Qle).
  assert (Hs1 : inject_Z (sumBytes dataArray) <= inject_Z n) by now rewrite <- Zle_Qle.
  split; [split |].
  - apply (Qmult_le_r _ _ (inject_Z n) Hq). rewrite Hs. lra.
  - apply (Qmult_le_r _ _ (inject_Z n) Hq). rewrite Hs. lra.
  - unfold AUDIO_LEVEL_THRESHOLD.
    rewrite <- (Qmult_lt_r _ _ (inject_Z n) Hq), Hs.
    assert (He : (n < 100 * sumBytes dataArray)%Z
                 <-> inject_Z n < 100 * inject_Z (sumBytes dataArray)).
    { rewrite Zlt_Qlt, inject_Z_mult. reflexivity. }
    rewrite He. split; intros H; lra.
Qed.

(** X10.  One frame of a participant's audio monitor, on a non-empty array of
    frequency bytes, stores for that participant the current time and a level
    between 0 and 1; the level exceeds the speaker threshold exactly when the
    byte sum exceeds 2.55 times the number of bins; the levels of the other
    participants are untouched. *)
Theorem audio_level_normalized (now : Z) (id : string) (dataArray : list Byte.byte)
    (st : State) :
  dataArray <> [] ->
  let st' := updateLevel now id dataArray st in
  (exists d, map_get id (audioLevels st') = Some d /\
             AudioLevel.timestamp d = now /\
             0 <= AudioLevel.level d <= 1 /\
             (AUDIO_LEVEL_THRESHOLD < AudioLevel.level d <->
              (255 * Z.of_nat (List.length dataArray) < 100 * sumBytes dataArray)%Z)) /\
  (forall id', id' <> id ->
               map_get id' (audioLevels st') = map_get id' (audioLevels st)).
Proof.
  intros Hne. cbv zeta. split; [now apply updateLevel_entry |].
  intros id' Hid. unfold updateLevel. cbn [audioLevels set_audioLevels].
  apply map_get_map_set_other. congruence.
Qed.

(** A participant whose stored level does not qualify is not the result of
    the scan. *)
Lemma scan_picks_qualified (now : Z) (st : State) (id : string) (d : AudioLevel.t) :
  NoDup (map_keys (audioLevels st)) ->
  map_get id (audioLevels st) = Some d ->
  ~ qualifies now d ->
  snd (fold_left (speakerStep now) (audioLevels st) (0, None)) <> Some id.
Proof.
  intros Hnd Hget Hq Hsel.
  assert (Hinv : speaker_inv now ([] ++ audioLevels st)
                   (fold_left (speakerStep now) (audioLevels st) (0, None))).
  { apply speaker_inv_fold. simpl. split; [reflexivity | intros ? ? []]. }
  simpl in Hinv. unfold speaker_inv in Hinv. rewrite Hsel in Hinv.
  destruct Hinv as (d' & Hin & Hq' & _).
  rewrite (map_get_In id d' _ Hnd Hin) in Hget. congruence.
Qed.

(** X11.  Silence and age take a participant out of the race.  After a frame
    of participant [id] whose byte sum is at most 2.55 times the number of
    bins, and at any speaker tick 2 s or more after a frame of [id], the
    speaker tick does not leave [id] as the active speaker, whoever it was
    before.  [audioLevels] is a [Map]: its keys are distinct. *)
Theorem quiet_or_stale_is_not_speaker (now now' : Z) (id : string)
    (dataArray : list Byte.byte) (st : State) :
  NoDup (map_keys (audioLevels st)) ->
  dataArray <> [] ->
  (100 * sumBytes dataArray <= 255 * Z.of_nat (List.length dataArray))%Z
  \/ (now' - now >= 2000)%Z ->
  activeSpeaker (fst (updateActiveSpeaker now' (updateLevel now id dataArray st)))
  <> Some id.
Proof.
  intros Hnd Hne Hquiet.
  set (st1 := updateLevel now id dataArray st).
  destruct (updateLevel_entry now id dataArray st Hne) as (d & Hget & Hts & _ & Hth).
  fold st1 in Hget.
  assert (Hne1 : audioLevels st1 <> []).
  { intros E. rewrite E in Hget. discriminate. }
  destruct (updateActiveSpeaker_result now' st1 Hne1) as (-> & _).
  apply (scan_picks_qualified now' st1 id d).
  - subst st1. unfold updateLevel. cbn [audioLevels set_audioLevels].
    now apply map_keys_map_set.
  - exact Hget.
  - unfold qualifies. intros [Hage Hlvl]. destruct Hquiet as [Hq | Hq].
    + apply Hth in Hlvl. lia.
    + rewrite Hts in Hage. lia.
Qed.

(** ** The initial connection phase *)

Lemma adaptToNetworkConditions_phase (st : State) :
  initialConnectionPhase (adaptToNetworkConditions st) = initialConnectionPhase st.
Proof.
  unfold adaptToNetworkConditions.
  destruct (negb (localStream st) || negb (isAdaptiveMode st)); [reflexivity |].
  destruct (Nat.eqb _ 0); [reflexivity |].
  destruct (Quality_eqb _ _); [reflexivity |].
  apply (senderLoop_frame _ (videoSenders st) st).
Qed.

Lemma monitorNetworkQuality_phase (now : Z) (getStats : GetStats) (st : State) :
  initialConnectionPhase (monitorNetworkQuality now getStats st)
  = initialConnectionPhase (endInitialPhase now st).
Proof.
  unfold monitorNetworkQuality.
  set (st1 := endInitialPhase now st).
  destruct (sampling_frame getStats (peerConnections st1) st1) as (_ & _ & H & _).
  destruct (networkStats _); [exact H |].
  now rewrite adaptToNetworkConditions_phase.
Qed.

Lemma endInitialPhase_phase (now : Z) (st : State) :
  initialConnectionPhase (endInitialPhase now st) = true <->
  initialConnectionPhase st = true /\
  forall t, connectionStartTime st = Some t -> t = 0%Z \/ (now - t <= 10000)%Z.
Proof.
  unfold endInitialPhase. destruct (connectionStartTime st) as [t |].
  - destruct (initialConnectionPhase st) eqn:P; cbn [andb].
    + destruct (t =? 0)%Z eqn:E0; cbn [negb andb].
      * apply Z.eqb_eq in E0. rewrite P. split; [| tauto].
        intros _. split; [reflexivity |]. intros t' H. inversion H. subst. now left.
      * destruct (now - t >? 10000)%Z eqn:E1; simpl.
        -- split; [discriminate |]. intros [_ H].
           destruct (H t eq_refl) as [H0 | H1].
           ++ apply Z.eqb_neq in E0. contradiction.
           ++ apply Z.gtb_lt in E1. lia.
        -- rewrite P. split; [| tauto]. intros _. split; [reflexivity |].
           intros t' H. inversion H. subst. right.
           rewrite Z.gtb_ltb in E1. apply Z.ltb_ge in E1. lia.
    + rewrite P. split; [discriminate | intros [H _]; discriminate].
  - split; [| tauto]. intros H. split; [exact H | discriminate].
Qed.

Lemma run_ticks_phase (ticks : list Tick) (st : State) :
  initialConnectionPhase st = false ->
  initialConnectionPhase (run_ticks ticks st) = false.
Proof.
  unfold run_ticks. revert st.
  induction ticks as [| t ticks IH]; intros st H; simpl; [exact H |].
  apply IH. rewrite monitorNetworkQuality_phase.
  destruct (initialConnectionPhase (endInitialPhase (fst t) st)) eqn:E; [| reflexivity].
  apply endInitialPhase_phase in E. destruct E as [E _]. congruence.
Qed.

(** X12.  The initial connection phase ends once.  A monitoring tick leaves
    the phase flag set exactly when it was set and the tick is not later than
    10 s after a truthy connection start time (with no start time, or start
    time 0, the phase never ends); once the flag is cleared no sequence of
    monitoring ticks sets it again. *)
Theorem initial_phase_ends_once (now : Z) (getStats : GetStats) (st : State)
    (ticks : list Tick) :
  (initialConnectionPhase (monitorNetworkQuality now getStats st) = true <->
   initialConnectionPhase st = true /\
   forall t, connectionStartTime st = Some t -> t = 0%Z \/ (now - t <= 10000)%Z) /\
  (initialConnectionPhase st = false ->
   initialConnectionPhase (run_ticks ticks st) = false).
Proof.
  split.
  - rewrite monitorNetworkQuality_phase. apply endInitialPhase_phase.
  - apply run_ticks_phase.
Qed.

(** ** A peer that left *)






(** * The conservative variant: facts *)

Lemma enhanced_targetQuality_table (current : Quality) (a : Aggregate) :
  Enhanced.targetQuality current a = current \/
  (Enhanced.targetQuality current a = AUDIO_ONLY /\
   worstQuality a = LOW /\ 10 < maxPacketLoss a) \/
  (Enhanced.targetQuality current a = MEDIUM /\ current = HIGH /\
   worstQuality a = MEDIUM /\ 7 < maxPacketLoss a) \/
  (Enhanced.targetQuality current a = HIGH /\
   worstQuality a = HIGH /\ maxPacketLoss a < 3).
Proof.
  unfold Enhanced.targetQuality.
  destruct (Quality_eqb (worstQuality a) LOW && gtb (maxPacketLoss a) 10) eqn:E1.
  { apply andb_true_iff in E1. destruct E1 as [W L].
    apply Quality_eqb_eq in W. apply gtb_iff in L. right. left. tauto. }
  destruct (Quality_eqb (worstQuality a) MEDIUM && gtb (maxPacketLoss a) 7
            && Quality_eqb current HIGH) eqn:E2.
  { apply andb_true_iff in E2. destruct E2 as [E2 C].
    apply andb_true_iff in E2. destruct E2 as [W L].
    apply Quality_eqb_eq in W. apply Quality_eqb_eq in C. apply gtb_iff in L.
    right. right. left. tauto. }
  destruct (Quality_eqb (worstQuality a) HIGH && ltb (maxPacketLoss a) 3
            && negb (Quality_eqb current HIGH)) eqn:E3.
  { apply andb_true_iff in E3. destruct E3 as [E3 _].
    apply andb_true_iff in E3. destruct E3 as [W L].
    apply Quality_eqb_eq in W. apply ltb_iff in L.
    right. right. right. tauto. }
  now left.
Qed.

Lemma enhanced_adapt_cases (st : State) :
  currentVideoQuality (Enhanced.adaptToNetworkConditions st) = currentVideoQuality st \/
  currentVideoQuality (Enhanced.adaptToNetworkConditions st)
  = Enhanced.targetQuality (currentVideoQuality st) (Enhanced.aggregate (networkStats st)).
Proof.
  unfold Enhanced.adaptToNetworkConditions.
  destruct (negb (localStream st) || negb (isAdaptiveMode st)); [now left |].
  destruct (Nat.eqb _ 0); [now left |].
  destruct (Quality_eqb _ _); [now left |].
  apply adjustAll_cases.
Qed.

(** X14.  The transitions of the conservative controller.  One adaptation
    cycle keeps the quality, or moves it to AUDIO_ONLY (only when some link is
    rated LOW and the maximum loss is above 10), to MEDIUM (only from HIGH,
    when the worst link is rated MEDIUM and the maximum loss is above 7), or
    to HIGH (only when every link is rated HIGH and the maximum loss is below
    3).  It has no transition to LOW, and from AUDIO_ONLY it recovers to HIGH
    in one step. *)
Theorem enhanced_cycle_transitions (st : State) :
  let q := currentVideoQuality st in
  let q' := currentVideoQuality (Enhanced.adaptToNetworkConditions st) in
  let a := Enhanced.aggregate (networkStats st) in
  q' = q \/
  (q' = AUDIO_ONLY /\ worstQuality a = LOW /\ 10 < maxPacketLoss a) \/
  (q' = MEDIUM /\ q = HIGH /\ worstQuality a = MEDIUM /\ 7 < maxPacketLoss a) \/
  (q' = HIGH /\ worstQuality a = HIGH /\ maxPacketLoss a < 3).
Proof.
  cbv zeta. destruct (enhanced_adapt_cases st) as [H | H]; [now left |].
  rewrite H. apply enhanced_targetQuality_table.
Qed.

Lemma enhanced_samplePeer_frame (getStats : GetStats) (st : State)
    (entry : string * PeerConnection) :
  currentVideoQuality (Enhanced.samplePeer getStats st entry) = currentVideoQuality st.
Proof.
  unfold Enhanced.samplePeer. destruct (getStats (fst entry)) as [[now stats] |]; [| tauto].
  destruct (Enhanced.analyzeStats now st stats (fst entry)); reflexivity.
Qed.

Lemma enhanced_sampling_frame (getStats : GetStats) (l : list (string * PeerConnection))
    (st : State) :
  currentVideoQuality (fold_left (Enhanced.samplePeer getStats) l st)
  = currentVideoQuality st.
Proof.
  revert st. induction l as [| e l IH]; intros st; simpl; [reflexivity |].
  rewrite IH. apply enhanced_samplePeer_frame.
Qed.

Lemma enhanced_tick_quality (now : Z) (getStats : GetStats) (st : State) :
  let q := currentVideoQuality st in
  let q' := currentVideoQuality (Enhanced.monitorNetworkQuality now getStats st) in
  q' = q \/ q' = AUDIO_ONLY \/ (q' = MEDIUM /\ q = HIGH) \/ q' = HIGH.
Proof.
  cbv zeta. unfold Enhanced.monitorNetworkQuality.
  set (st1 := endInitialPhase now st).
  set (st2 := fold_left (Enhanced.samplePeer getStats) (peerConnections st1) st1).
  assert (Hq : currentVideoQuality st2 = currentVideoQuality st).
  { subst st2. rewrite enhanced_sampling_frame. apply (endInitialPhase_frame now st). }
  destruct (networkStats st2); [now left |].
  pose proof (enhanced_adapt_cases st2) as Hc.
  pose proof (enhanced_targetQuality_table (currentVideoQuality st2)
                (Enhanced.aggregate (networkStats st2))) as Ht.
  rewrite Hq in *.
  destruct Hc as [-> | ->]; [now left |]. intuition.
Qed.

(** X15.  The conservative controller never reaches LOW.  Starting from a
    quality other than LOW, no sequence of monitoring ticks, whatever the
    telemetry and the senders' behaviour, ends at quality LOW. *)
Theorem enhanced_never_reaches_low (ticks : list Tick) (st : State) :
  currentVideoQuality st <> LOW ->
  currentVideoQuality (Enhanced.run_ticks ticks st) <> LOW.
Proof.
  unfold Enhanced.run_ticks. revert st.
  induction ticks as [| t ticks IH]; intros st H; simpl; [exact H |].
  apply IH.
  destruct (enhanced_tick_quality (fst t) (snd t) st) as [E | [E | [[E _] | E]]];
    rewrite E; congruence.
Qed.

Lemma enhanced_outboundBlock_no_report (now : Z) (cur : option Report.t)
    (prev : option Metrics.t) (sel : Metrics.t -> option Report.t) :
  (forall m, prev = Some m -> sel m = None) ->
  Enhanced.outboundBlock now cur prev sel = (Fin 0, 0).
Proof.
  intros H. unfold Enhanced.outboundBlock.
  destruct cur; [| reflexivity]. destruct prev as [m |]; [| reflexivity].
  now rewrite (H m eq_refl).
Qed.

(** X16.  In the conservative variant the metrics stored during the initial
    connection phase carry verdict HIGH and no raw outbound reports.  So the
    next analysis of that peer has nothing to compare with: whatever the
    reports say, it yields bitrates 0, losses 0 and verdict HIGH, in the
    initial phase and after it.  The analysis returns metrics exactly when
    the reports hold an outbound audio or video report. *)
Theorem enhanced_grace_keeps_no_counters (now now' : Z) (st st' : State)
    (stats stats' : list Report.t) (peerId : string) (m : Metrics.t) :
  initialConnectionPhase st = true ->
  Enhanced.analyzeStats now st stats peerId = Some m ->
  map_get peerId (networkStats st') = Some m ->
  (Metrics.quality m = HIGH /\
   Metrics.outboundVideo m = None /\ Metrics.outboundAudio m = None) /\
  (Enhanced.analyzeStats now' st' stats' peerId = None <->
   Enhanced.p_outboundVideo (Enhanced.scan stats') = None /\
   Enhanced.p_outboundAudio (Enhanced.scan stats') = None) /\
  forall m', Enhanced.analyzeStats now' st' stats' peerId = Some m' ->
             Metrics.videoBitrate m' = Fin 0 /\ Metrics.audioBitrate m' = Fin 0 /\
             Metrics.videoPacketLoss m' = 0 /\ Metrics.audioPacketLoss m' = 0 /\
             Metrics.quality m' = HIGH.
Proof.
  intros Hphase Hm Hprev.
  assert (Hshape : Metrics.quality m = HIGH /\
                   Metrics.outboundVideo m = None /\ Metrics.outboundAudio m = None).
  { unfold Enhanced.analyzeStats in Hm. rewrite Hphase in Hm.
    destruct (negb _ && negb _); [discriminate |].
    destruct (Enhanced.outboundBlock _ _ _ Metrics.outboundVideo).
    destruct (Enhanced.outboundBlock _ _ _ Metrics.outboundAudio).
    inversion Hm. simpl. tauto. }
  split; [exact Hshape |]. destruct Hshape as (_ & Hv & Ha).
  unfold Enhanced.analyzeStats. rewrite Hprev.
  rewrite !enhanced_outboundBlock_no_report
    by (intros x Hx; inversion Hx; subst; assumption).
  destruct (Enhanced.p_outboundVideo (Enhanced.scan stats')) as [ov |];
    destruct (Enhanced.p_outboundAudio (Enhanced.scan stats')) as [oa |];
    cbn [is_some negb andb].
  4: { split; [tauto |]. intros m' H. discriminate. }
  all: destruct (initialConnectionPhase st').
  all: split; [split; [intros H; discriminate H | intros [? ?]; discriminate] |].
  all: intros m' H; inversion H; simpl; repeat split; try reflexivity;
    try discriminate.
Qed.

(** X17.  The conservative classifier is the more lenient one: on the same
    round-trip time, loss and bitrate it never rates a link worse than the
    classifier of the main script does. *)
Theorem enhanced_classifier_is_more_lenient (rtt totalPacketLoss : Q)
    (totalBitrate : num) :
  (rank (classify rtt totalPacketLoss totalBitrate)
   <= rank (Enhanced.classify rtt totalPacketLoss totalBitrate))%nat.
Proof.
  unfold Enhanced.classify.
  destruct (num_ltb totalBitrate BANDWIDTH_THRESHOLDS.LOW
            && gtb totalPacketLoss 8 && gtb rtt 500) eqn:E1.
  { apply andb_true_iff in E1. destruct E1 as [_ E].
    unfold classify. rewrite E. simpl. lia. }
  destruct (num_ltb totalBitrate BANDWIDTH_THRESHOLDS.MEDIUM
            && gtb totalPacketLoss 5 && gtb rtt 300) eqn:E2.
  - apply andb_true_iff in E2. destruct E2 as [E2 _].
    apply andb_true_iff in E2. destruct E2 as [_ L]. apply gtb_iff in L.
    assert (L3 : gtb totalPacketLoss 3 = true) by (apply gtb_iff; lra).
    unfold classify. rewrite L3.
    destruct (gtb rtt 500 || gtb totalPacketLoss 15); [simpl; lia |].
    destruct (gtb totalPacketLoss 8 || gtb rtt 400 || _); simpl; lia.
  - destruct (classify rtt totalPacketLoss totalBitrate); simpl; lia.
Qed.

(** * The extra facts on the scenarios *)

Lemma camera_off_keeps_track_disabled_witness :
  isCameraOff (handle_all call_events st_two_peers) = true /\
  currentVideoQuality (handle_all call_events st_two_peers) = HIGH /\
  videoTrackEnabled (handle_all call_events st_two_peers) = false.
Proof.
  split; [reflexivity |]. split; [reflexivity |].
  apply (camera_off_keeps_track_disabled call_events st_two_peers).
  - discriminate.
  - reflexivity.
Defined.

Lemma quality_change_sets_track_witness :
  currentVideoQuality (adaptToNetworkConditions st_two_peers) = AUDIO_ONLY /\
  videoTrackEnabled (adaptToNetworkConditions st_two_peers) = false /\
  currentVideoQuality (adaptToNetworkConditions st_recovering) = LOW /\
  videoTrackEnabled (adaptToNetworkConditions st_recovering) = true.
Proof.
  split; [reflexivity |]. split; [| split; [reflexivity |]].
  - apply (quality_change_sets_track st_two_peers). discriminate.
  - apply (quality_change_sets_track st_recovering). discriminate.
Defined.

Lemma audio_level_normalized_witness :
  exists d,
    map_get "B" (audioLevels (updateLevel 9950 "B" loud_frame st_three_speakers)) = Some d /\
    AudioLevel.timestamp d = 9950%Z /\
    0 <= AudioLevel.level d <= 1.
Proof.
  destruct (audio_level_normalized 9950 "B" loud_frame st_three_speakers)
    as [(d & Hget & Hts & Hrange & _) _]; [discriminate |].
  exists d. split; [exact Hget |]. split; [exact Hts | exact Hrange].
Defined.

Lemma quiet_or_stale_is_not_speaker_witness :
  activeSpeaker (fst (updateActiveSpeaker 10000 st_three_speakers)) = Some "B" /\
  activeSpeaker
    (fst (updateActiveSpeaker 10000 (updateLevel 9950 "B" silent_frame st_three_speakers)))
  <> Some "B".
Proof.
  split; [reflexivity |].
  apply (quiet_or_stale_is_not_speaker 9950 10000 "B" silent_frame st_three_speakers).
  - repeat constructor; simpl; intuition discriminate.
  - discriminate.
  - left. vm_compute. discriminate.
Defined.

Lemma initial_phase_ends_once_witness :
  initialConnectionPhase (monitorNetworkQuality 4000 (only "B" 4000 stats_lossy) st_grace)
  = true /\
  initialConnectionPhase (run_ticks ticks_bad st_grace) = false /\
  initialConnectionPhase (run_ticks ticks_bad st_low_call) = false.
Proof.
  split; [| split; [reflexivity |]].
  - apply (proj1 (initial_phase_ends_once 4000 (only "B" 4000 stats_lossy) st_grace [])).
    split; [reflexivity |]. intros t H. inversion H. right. lia.
  - apply (proj2 (initial_phase_ends_once 0 (only "B" 0 []) st_low_call ticks_bad)).
    reflexivity.
Defined.

Lemma enhanced_never_reaches_low_witness :
  currentVideoQuality st_low_call = LOW /\
  currentVideoQuality st_two_peers = HIGH /\
  currentVideoQuality (Enhanced.run_ticks ticks_bad st_two_peers) <> LOW.
Proof.
  split; [reflexivity |]. split; [reflexivity |].
  apply (enhanced_never_reaches_low ticks_bad st_two_peers). discriminate.
Defined.

Lemma enhanced_grace_keeps_no_counters_witness :
  Enhanced.analyzeStats 4000 st_grace stats_lossy "B" = Some grace_metrics /\
  exists m',
    Enhanced.analyzeStats 13000 st_after_grace stats_small_sample "B" = Some m' /\
    Metrics.videoBitrate m' = Fin 0 /\ Metrics.videoPacketLoss m' = 0 /\
    Metrics.quality m' = HIGH.
Proof.
  split; [reflexivity |].
  destruct (enhanced_grace_keeps_no_counters 4000 13000 st_grace st_after_grace
              stats_lossy stats_small_sample "B" grace_metrics
              eq_refl eq_refl eq_refl) as (_ & _ & H).
  eexists. split; [reflexivity |].
  destruct (H _ eq_refl) as (Hv & _ & Hl & _ & Hq).
  split; [exact Hv |]. split; [exact Hl | exact Hq].
Defined.

(** * Steady conditions *)

(** With the aggregates held fixed, the chain of [targetQuality] reaches a
    fixed point after two steps; the longest path is the staged recovery
    AUDIO_ONLY, LOW, then MEDIUM or HIGH. *)
Lemma targetQuality_settles (current : Quality) (a : Aggregate) :
  targetQuality (targetQuality (targetQuality current a) a) a
  = targetQuality (targetQuality current a) a.
Proof.
  unfold targetQuality.
  generalize (Quality_eqb (worstQuality a) AUDIO_ONLY
              || gtb (maxPacketLoss a) 15 || gtb (maxRtt a) 3000)
             (leb (maxPacketLoss a) 10) (leb (maxRtt a) 1000)
             (Quality_eqb (worstQuality a) LOW
              || (gtb (maxPacketLoss a) 8 || gtb (maxRtt a) 500))
             (Quality_eqb (worstQuality a) MEDIUM
              || (gtb (maxPacketLoss a) 3 || gtb (maxRtt a) 200))
             (Quality_eqb (worstQuality a) HIGH)
             (ltb (maxPacketLoss a) 2) (ltb (maxRtt a) 150).
  intros severe l10 r1000 low medium high l2 r150.
  destruct severe; [reflexivity |].
  destruct current, l10, r1000, low, medium, high, l2, r150; reflexivity.
Qed.

Lemma adaptToNetworkConditions_frame (st : State) :
  localStream (adaptToNetworkConditions st) = localStream st /\
  isAdaptiveMode (adaptToNetworkConditions st) = isAdaptiveMode st /\
  peerConnections (adaptToNetworkConditions st) = peerConnections st /\
  networkStats (adaptToNetworkConditions st) = networkStats st.
Proof.
  unfold adaptToNetworkConditions.
  destruct (negb (localStream st) || negb (isAdaptiveMode st)); [tauto |].
  destruct (Nat.eqb _ 0); [tauto |].
  destruct (Quality_eqb _ _); [tauto |].
  destruct (senderLoop_frame (targetQuality (currentVideoQuality st)
                                (aggregate (networkStats st)))
              (videoSenders st) st) as (A & B & C & D & _).
  tauto.
Qed.

(** When every video sender takes every quality, a cycle either does nothing
    at all or ends at its target. *)
Lemma adaptToNetworkConditions_accepting (st : State) :
  (forall s q, In s (videoSenders st) -> accepts s q = true) ->
  adaptToNetworkConditions st = st \/
  currentVideoQuality (adaptToNetworkConditions st)
  = targetQuality (currentVideoQuality st) (aggregate (networkStats st)).
Proof.
  intros Hacc. unfold adaptToNetworkConditions.
  destruct (negb (localStream st) || negb (isAdaptiveMode st)); [now left |].
  destruct (Nat.eqb _ 0); [now left |].
  destruct (Quality_eqb _ _) eqn:E; [now left |].
  destruct (videoSenders st) as [| s l] eqn:V.
  - left. now apply adjustAll_no_sender.
  - right. apply adjustAll_accepted. exists s. split.
    + rewrite V. now left.
    + apply Hacc. now left.
Qed.

(** X18.  Under steady conditions the quality settles within two cycles.
    With the stored metrics unchanged and every video sender taking every
    quality, the quality after a third adaptation cycle is the quality after
    the second; the longest path is the staged recovery from AUDIO_ONLY over
    LOW to MEDIUM or HIGH. *)
Theorem quality_settles_in_two_cycles (st : State) :
  (forall s q, In s (videoSenders st) -> accepts s q = true) ->
  let once := adaptToNetworkConditions st in
  let twice := adaptToNetworkConditions once in
  let thrice := adaptToNetworkConditions twice in
  currentVideoQuality thrice = currentVideoQuality twice.
Proof.
  intros Hacc. cbv zeta.
  remember (adaptToNetworkConditions st) as once eqn:E1.
  remember (adaptToNetworkConditions once) as twice eqn:E2.
  destruct (adaptToNetworkConditions_frame st) as (_ & _ & P1 & N1).
  destruct (adaptToNetworkConditions_frame once) as (_ & _ & P2 & N2).
  rewrite <- E1 in P1, N1. rewrite <- E2 in P2, N2.
  assert (V1 : videoSenders once = videoSenders st)
    by (unfold videoSenders; now rewrite P1).
  assert (V2 : videoSenders twice = videoSenders st)
    by (unfold videoSenders; now rewrite P2, P1).
  assert (A1 : forall s q, In s (videoSenders once) -> accepts s q = true)
    by (rewrite V1; exact Hacc).
  assert (A2 : forall s q, In s (videoSenders twice) -> accepts s q = true)
    by (rewrite V2; exact Hacc).
  destruct (adaptToNetworkConditions_accepting twice A2) as [H3 | H3];
    [now rewrite H3 |].
  destruct (adaptToNetworkConditions_accepting once A1) as [H2 | H2].
  { rewrite H2 in E2. subst twice. now rewrite H2. }
  destruct (adaptToNetworkConditions_accepting st Hacc) as [H1 | H1].
  { rewrite H1 in E1. subst once. rewrite H1 in E2. subst twice. now rewrite H1. }
  rewrite <- E1 in H1. rewrite <- E2 in H2.
  rewrite H3, N2, H2, N1, H1. apply targetQuality_settles.
Qed.

Lemma quality_settles_in_two_cycles_witness :
  currentVideoQuality st_recovering = AUDIO_ONLY /\
  currentVideoQuality (adaptToNetworkConditions st_recovering) = LOW /\
  currentVideoQuality (adaptToNetworkConditions (adaptToNetworkConditions st_recovering))
  = MEDIUM /\
  currentVideoQuality
    (adaptToNetworkConditions
       (adaptToNetworkConditions (adaptToNetworkConditions st_recovering)))
  = currentVideoQuality
      (adaptToNetworkConditions (adaptToNetworkConditions st_recovering)).
Proof.
  split; [reflexivity |]. split; [reflexivity |]. split; [reflexivity |].
  apply (quality_settles_in_two_cycles st_recovering).
  intros s q [<- | []]. reflexivity.
Defined.
